(** * The data-cleaning pipelines of Cleaning.py and Basic_Analysis/CleaningDeep.py

    A shallow embedding of the two cleaning scripts and the properties their
    specification states about them.

    Modelling conventions.
    - A pandas DataFrame is a list of labelled columns plus the list of row
      labels (the pandas index).  Every column has one of the three dtypes
      the scripts meet on the tables [pd.read_csv] returns and on what they
      make of them: numeric (int64/float64), object, datetime64.  A missing
      cell (NaN, None, NaT) is [None].  Columns of dtype bool are not
      modelled.
    - A number is the rational it denotes, and a float that is NaN is
      [None].  Every arithmetic operation gives the exact result rounded to
      the nearest binary64 number, ties to even, as IEEE 754 arithmetic
      does, and stores it in lowest terms; comparisons are those of the
      rationals.  The dtype of a numeric column (int64 or float64) is not
      kept: an int64 column is read as the float64 column of its values.
      What the model leaves out is what happens beyond the range of the
      formats: a float64 result of magnitude [2 ^ 1024] or more (infinity
      in the code) and an int64 result outside [- 2 ^ 63, 2 ^ 63) (which
      wraps in the code).  A theorem whose truth depends on it carries the
      hypothesis that keeps the values inside; [normalize_int64] gives the
      wrapping subtraction of [normalize] on an int64 column by itself.
    - Column labels are byte strings; [str.lower] acts on the ASCII letters.
      The labels of a table read from CSV are distinct, and so are its row
      labels; a theorem that needs it says so.
    - [series.fillna(..., inplace=True)] on [df[c]] changes the column of
      [df], as it does in the pandas versions the scripts were written for.
    - Scalar conversions that pandas implements (parsing a date, parsing a
      number, [int(...)], [str(...)]) are not code of this repository: they
      are collected in the record [Pandas] and taken as a parameter; so is
      [groupby(...).apply(...)] in [main]. *)

From Stdlib Require Import ZArith QArith Qround Qreduction Qminmax Qpower Qabs.
From Stdlib Require Import List Bool Ascii String DecimalString.
From Stdlib Require Import Lia Lqa Arith Sorted.
Import ListNotations.

Local Open Scope string_scope.
Local Open Scope Q_scope.

Set Implicit Arguments.

(* ------------------------------------------------------------------ *)
(** ** Python strings: [lower] and the [in] substring test             *)
(* ------------------------------------------------------------------ *)

Module PyStr.

Definition is_upper (a : ascii) : bool :=
  let n := nat_of_ascii a in (65 <=? n)%nat && (n <=? 90)%nat.

Definition lower_ascii (a : ascii) : ascii :=
  if is_upper a then ascii_of_nat (nat_of_ascii a + 32) else a.

(** [s.lower()] *)
Fixpoint lower (s : string) : string :=
  match s with
  | EmptyString => EmptyString
  | String a r => String (lower_ascii a) (lower r)
  end.

(** [s.startswith(p)] *)
Fixpoint startswith (p s : string) : bool :=
  match p, s with
  | EmptyString, _ => true
  | String _ _, EmptyString => false
  | String a p', String b s' => Ascii.eqb a b && startswith p' s'
  end.

(** [p in s] for two strings *)
Fixpoint contains (p s : string) : bool :=
  startswith p s ||
  match s with
  | EmptyString => false
  | String _ s' => contains p s'
  end.

(** [x in l] for a list of strings *)
Definition mem (x : string) (l : list string) : bool :=
  existsb (String.eqb x) l.

End PyStr.

(* ------------------------------------------------------------------ *)
(** ** Binary64 rounding                                               *)
(* ------------------------------------------------------------------ *)

Module F64.

(** [2 ^ k] for an integer [k]. *)
Definition pow2 (k : Z) : Q := Qpower 2 k.

(** For [x > 0], the exponent [e] with [2 ^ e <= x < 2 ^ (e + 1)]. *)
Definition ilog2 (x : Q) : Z :=
  let e0 := (Z.log2 (Qnum x) - Z.log2 (Zpos (Qden x)))%Z in
  if Qle_bool (pow2 e0) x then e0 else (e0 - 1)%Z.

(** The integer nearest to [y], the even one of two that are as near. *)
Definition rne (y : Q) : Z :=
  let f := Qfloor y in
  match Qcompare (y - inject_Z f) (1 # 2) with
  | Lt => f
  | Gt => (f + 1)%Z
  | Eq => if Z.even f then f else (f + 1)%Z
  end.

(** The exponent of the last bit of a binary64 number of the size of
    [x > 0]: 53 bits of precision, gradual underflow below [2 ^ -1022]. *)
Definition ulp_exp (x : Q) : Z := Z.max (ilog2 x - 52) (-1074).

Definition round_pos (x : Q) : Q :=
  let k := ulp_exp x in inject_Z (rne (x / pow2 k)) * pow2 k.

(** Rounding to the nearest binary64 number, ties to even.  There is no
    overflow here: a result of magnitude [2 ^ 1024] or more, which is an
    infinity in IEEE 754 arithmetic, is rounded like any other. *)
Definition round (x : Q) : Q :=
  Qred (match Qcompare x 0 with
        | Eq => 0
        | Gt => round_pos x
        | Lt => - round_pos (- x)
        end).

(** [x] is a binary64 number: up to its sign, an integer below [2 ^ 53]
    times a power of two not below [2 ^ -1074]. *)
Definition representable (x : Q) : Prop :=
  exists N k : Z, (-1074 <= k)%Z /\ (Z.abs N < 2 ^ 53)%Z /\ x == inject_Z N * pow2 k.

End F64.

(* ------------------------------------------------------------------ *)
(** ** Floats                                                          *)
(* ------------------------------------------------------------------ *)

Module Num.

(** A float: [None] is NaN. *)
Definition float := option Q.

(** The binary64 number a decimal literal of the source denotes. *)
Definition lit (q : Q) : Q := F64.round q.

Definition add (a b : Q) : Q := F64.round (a + b).
Definition sub (a b : Q) : Q := F64.round (a - b).
Definition mul (a b : Q) : Q := F64.round (a * b).
Definition div (a b : Q) : Q := F64.round (a / b).

(** A count, which is exact below [2 ^ 53]. *)
Definition of_nat (n : nat) : Q := inject_Z (Z.of_nat n).

(** [a / b] on counts, NaN when [b = 0] (the mean of nothing). *)
Definition ratio (a b : nat) : float :=
  match b with
  | O => None
  | _ => Some (div (of_nat a) (of_nat b))
  end.

Definition fadd (a : float) (b : Q) : float := option_map (fun x => add x b) a.
Definition fsub (a : float) (b : Q) : float := option_map (fun x => sub x b) a.

(** [a >= b] on floats; false as soon as one side is NaN. *)
Definition fge (a b : float) : bool :=
  match a, b with
  | Some x, Some y => Qle_bool y x
  | _, _ => false
  end.

Definition fle (a b : float) : bool := fge b a.

(** Python's builtin [max(a, b)]: [b] when [b > a], else [a]. *)
Definition py_max (a : Q) (b : float) : Q :=
  match b with
  | Some y => if Qle_bool y a then a else y
  | None => a
  end.

(** Python's builtin [min(a, b)]: [b] when [b < a], else [a]. *)
Definition py_min (a : Q) (b : float) : Q :=
  match b with
  | Some y => if Qle_bool a y then a else y
  | None => a
  end.

(** Insertion sort, ascending. *)
Fixpoint insert (x : Q) (l : list Q) : list Q :=
  match l with
  | [] => [x]
  | y :: r => if Qle_bool x y then x :: l else y :: insert x r
  end.

Definition sort (l : list Q) : list Q := fold_right insert [] l.

(** The values of a series that are not NaN. *)
Fixpoint dropna (A : Type) (l : list (option A)) : list A :=
  match l with
  | [] => []
  | Some x :: r => x :: dropna r
  | None :: r => dropna r
  end.

(** numpy's linear interpolation between [a] and [b] at the weight [t]:
    [a + (b - a) * t], and [b - (b - a) * (1 - t)] from [t = 0.5] on. *)
Definition lerp (a b t : Q) : Q :=
  let d := sub b a in
  if Qle_bool (1 # 2) t then sub b (mul d (sub 1 t)) else add a (mul d t).

(** [Series.quantile(q)], linear interpolation, on values without NaN:
    position [q * (n - 1)] in the sorted values, between the value at the
    floor of the position and the next one (the last one at the end).  The
    position and the weight are exact for the quartiles of fewer than
    [2 ^ 53] values. *)
Definition quantile_sorted (q : Q) (s : list Q) : float :=
  match s with
  | [] => None
  | _ =>
      let pos := q * of_nat (List.length s - 1) in
      let lo := Z.to_nat (Qfloor pos) in
      let hi := Nat.min (S lo) (List.length s - 1) in
      let frac := pos - inject_Z (Qfloor pos) in
      let a := F64.round (nth lo s 0) in
      let b := F64.round (nth hi s 0) in
      Some (lerp a b frac)
  end.

Definition quantile (q : Q) (l : list float) : float :=
  quantile_sorted q (sort (dropna l)).

(** [Series.median()], NaN skipped; NaN when nothing is left. *)
Definition median_values (v : list Q) : float :=
  let s := sort v in
  let n := List.length s in
  match n with
  | O => None
  | _ =>
      if Nat.even n
      then Some (div (add (nth (n / 2 - 1) s 0) (nth (n / 2) s 0)) 2)
      else Some (nth (n / 2) s 0)
  end.

Definition median (l : list float) : float := median_values (dropna l).

(** [Series.min()] and [Series.max()], NaN skipped. *)
Fixpoint min_values (v : list Q) : float :=
  match v with
  | [] => None
  | x :: r =>
      match min_values r with
      | None => Some x
      | Some m => Some (if Qle_bool x m then x else m)
      end
  end.

Fixpoint max_values (v : list Q) : float :=
  match v with
  | [] => None
  | x :: r =>
      match max_values r with
      | None => Some x
      | Some m => Some (if Qle_bool m x then x else m)
      end
  end.

Definition min (l : list float) : float := min_values (dropna l).
Definition max (l : list float) : float := max_values (dropna l).

(** [int(x)]: truncation towards zero. *)
Definition trunc (x : Q) : Z :=
  if Qle_bool 0 x then Qfloor x else Qceiling x.

End Num.

(* ------------------------------------------------------------------ *)
(** ** int64                                                           *)
(* ------------------------------------------------------------------ *)

Module Int64.

(** The int64 value of an integer result: two's complement, wrapping
    around. *)
Definition wrap (z : Z) : Z := ((z + 2 ^ 63) mod 2 ^ 64 - 2 ^ 63)%Z.

(** An int64 read as a float64. *)
Definition to_float (z : Z) : Q := F64.round (inject_Z z).

(** [Series.min()] and [Series.max()] on int64 values; [None] is the NaN
    of a series without values. *)
Fixpoint min_values (v : list Z) : option Z :=
  match v with
  | [] => None
  | x :: r =>
      match min_values r with
      | None => Some x
      | Some m => Some (Z.min x m)
      end
  end.

Fixpoint max_values (v : list Z) : option Z :=
  match v with
  | [] => None
  | x :: r =>
      match max_values r with
      | None => Some x
      | Some m => Some (Z.max x m)
      end
  end.

End Int64.

(* ------------------------------------------------------------------ *)
(** ** The data model: cells, columns, data frames                     *)
(* ------------------------------------------------------------------ *)

Inductive Month : Set :=
  | Jan | Feb | Mar | Apr | May | Jun | Jul | Aug | Sep | Oct | Nov | Dec.

Definition month_number (m : Month) : Z :=
  match m with
  | Jan => 1 | Feb => 2 | Mar => 3 | Apr => 4 | May => 5 | Jun => 6
  | Jul => 7 | Aug => 8 | Sep => 9 | Oct => 10 | Nov => 11 | Dec => 12
  end%Z.

(** A pandas [Timestamp]: the attributes the scripts read, and [value],
    the nanoseconds since the epoch that identify it. *)
Record Timestamp : Set := mkTimestamp {
  ts_year : Z;
  ts_month_of : Month;
  ts_value : Z
}.

Definition ts_month (t : Timestamp) : Z := month_number (ts_month_of t).

(** [Timestamp.quarter] *)
Definition ts_quarter (t : Timestamp) : Z := ((ts_month t - 1) / 3 + 1)%Z.

(** A Python object held by a column of dtype object. *)
Inductive value : Type :=
  | VNum (q : Q)
  | VStr (s : string)
  | VDate (t : Timestamp).

(** The cells of a column, by dtype.  [None] is the missing value. *)
Inductive coldata : Type :=
  | NumCol (cells : list (option Q))
  | ObjCol (cells : list (option value))
  | DateCol (cells : list (option Timestamp)).

Record Column : Type := mkColumn {
  cname : string;
  cdata : coldata
}.

Record DataFrame : Type := mkDataFrame {
  index : list nat;
  columns : list Column
}.

(** The scalar conversions of pandas and of Python that the scripts call. *)
Record Pandas : Type := mkPandas {
  (** [pd.to_datetime] on one value of a series; [None] when it cannot be
      parsed.  The series comes first: pandas may settle on one format for
      the whole series from the values it holds. *)
  to_datetime_scalar : list (option value) -> value -> option Timestamp;
  (** the float that a string denotes for [pd.to_numeric] *)
  str_to_float : string -> option Q;
  (** [int(s)] on a string *)
  str_to_int : string -> option Z;
  (** [str(x)] on one cell, as [astype(str)] writes it *)
  cell_to_str : option value -> string
}.

Module DF.

Definition col_length (d : coldata) : nat :=
  match d with
  | NumCol c => List.length c
  | ObjCol c => List.length c
  | DateCol c => List.length c
  end.

Definition nrows (df : DataFrame) : nat := List.length (index df).

(** [df.columns] *)
Definition column_names (df : DataFrame) : list string :=
  map cname (columns df).

(** [c in df.columns] *)
Definition has_column (df : DataFrame) (c : string) : bool :=
  PyStr.mem c (column_names df).

(** [df[c]]: the column labelled [c]. *)
Definition get (df : DataFrame) (c : string) : option Column :=
  find (fun col => String.eqb c (cname col)) (columns df).

(** Every column is as long as the index. *)
Definition well_formed (df : DataFrame) : Prop :=
  Forall (fun col => col_length (cdata col) = nrows df) (columns df).

(** [pd.api.types.is_numeric_dtype], [select_dtypes(include='number')] *)
Definition is_numeric (d : coldata) : bool :=
  match d with NumCol _ => true | _ => false end.

Definition is_object (d : coldata) : bool :=
  match d with ObjCol _ => true | _ => false end.

(** [pd.api.types.is_datetime64_any_dtype] *)
Definition is_datetime (d : coldata) : bool :=
  match d with DateCol _ => true | _ => false end.

Definition isnull (A : Type) (c : option A) : bool :=
  match c with None => true | Some _ => false end.

Definition notnull (A : Type) (c : option A) : bool := negb (isnull c).

(** [series.isnull()] *)
Definition null_mask (d : coldata) : list bool :=
  match d with
  | NumCol c => map (@isnull Q) c
  | ObjCol c => map (@isnull value) c
  | DateCol c => map (@isnull Timestamp) c
  end.

(** Boolean indexing [l[mask]]. *)
Fixpoint select (A : Type) (mask : list bool) (l : list A) : list A :=
  match mask, l with
  | b :: m, x :: r => if b then x :: select m r else select m r
  | _, _ => []
  end.

Definition select_cells (mask : list bool) (d : coldata) : coldata :=
  match d with
  | NumCol c => NumCol (select mask c)
  | ObjCol c => ObjCol (select mask c)
  | DateCol c => DateCol (select mask c)
  end.

(** [df[mask]]: the rows whose mask entry is true, labels kept. *)
Definition select_rows (mask : list bool) (df : DataFrame) : DataFrame :=
  {| index := select mask (index df);
     columns := map (fun col => mkColumn (cname col) (select_cells mask (cdata col)))
                    (columns df) |}.

(** The cells of a column, read as objects. *)
Definition objects (d : coldata) : list (option value) :=
  match d with
  | NumCol c => map (option_map VNum) c
  | ObjCol c => c
  | DateCol c => map (option_map VDate) c
  end.

(** One cell, read as an object. *)
Definition cell_at (d : coldata) (i : nat) : option value :=
  match d with
  | NumCol c => option_map VNum (nth i c None)
  | ObjCol c => nth i c None
  | DateCol c => option_map VDate (nth i c None)
  end.

End DF.

Module Frame.

Import DF.

(** [df[c] = d]: replaces the column labelled [c] where it stands, or
    appends a new column when the label is new. *)
Definition assign (df : DataFrame) (c : string) (d : coldata) : DataFrame :=
  if has_column df c
  then {| index := index df;
          columns := map (fun col => if String.eqb c (cname col)
                                     then mkColumn c d else col)
                         (columns df) |}
  else {| index := index df;
          columns := columns df ++ [mkColumn c d] |}.

(** [for c in names: df[c] = f(df[c])] *)
Definition for_columns (names : list string) (f : Column -> coldata)
    (df : DataFrame) : DataFrame :=
  fold_left
    (fun acc c =>
       match get acc c with
       | Some col => assign acc c (f col)
       | None => acc
       end)
    names df.

(** [series.fillna(v)] on each dtype. *)
Definition fill (A : Type) (v : A) (c : option A) : option A :=
  match c with None => Some v | Some _ => c end.

Definition fillna_num (v : Num.float) (cells : list (option Q)) : list (option Q) :=
  match v with
  | Some x => map (fill x) cells
  | None => cells
  end.

(** [df.select_dtypes(include='number').columns] *)
Definition numeric_names (df : DataFrame) : list string :=
  map cname (filter (fun col => is_numeric (cdata col)) (columns df)).

(** [df.select_dtypes(include=[object]).columns] *)
Definition object_names (df : DataFrame) : list string :=
  map cname (filter (fun col => is_object (cdata col)) (columns df)).

End Frame.

(* ------------------------------------------------------------------ *)
(** ** Comparing Python objects                                        *)
(* ------------------------------------------------------------------ *)

Module Obj.

Definition ts_eqb (a b : Timestamp) : bool := Z.eqb (ts_value a) (ts_value b).

(** [a == b] *)
Definition eqb (a b : value) : bool :=
  match a, b with
  | VNum x, VNum y => Qeq_bool x y
  | VStr x, VStr y => String.eqb x y
  | VDate x, VDate y => ts_eqb x y
  | _, _ => false
  end.

(** [a <= b] when Python can order the two objects. *)
Definition leb (a b : value) : option bool :=
  match a, b with
  | VNum x, VNum y => Some (Qle_bool x y)
  | VStr x, VStr y => Some (String.leb x y)
  | VDate x, VDate y => Some (Z.leb (ts_value x) (ts_value y))
  | _, _ => None
  end.

Definition count (v : value) (l : list value) : nat :=
  List.length (filter (eqb v) l).

(** The distinct values, in order of first appearance. *)
Fixpoint distinct (l : list value) : list value :=
  match l with
  | [] => []
  | v :: r => v :: filter (fun w => negb (eqb v w)) (distinct r)
  end.

(** The values of highest count, in order of first appearance. *)
Definition modes (l : list value) : list value :=
  let best := fold_right Nat.max 0%nat (map (fun v => count v l) l) in
  filter (fun v => Nat.eqb (count v l) best) (distinct l).

(** The least of a list when all its members can be ordered. *)
Fixpoint least (l : list value) : option value :=
  match l with
  | [] => None
  | [v] => Some v
  | v :: r =>
      match least r with
      | Some m =>
          match leb v m with
          | Some b => Some (if b then v else m)
          | None => None
          end
      | None => None
      end
  end.

(** [series.mode()[0]], or [None] when the mode is empty: the modes come
    sorted when they can be ordered and in order of appearance when not. *)
Definition mode_first (l : list value) : option value :=
  match modes l with
  | [] => None
  | m :: r =>
      match least (m :: r) with
      | Some v => Some v
      | None => Some m
      end
  end.

End Obj.

(* ------------------------------------------------------------------ *)
(** ** Cleaning.py                                                     *)
(* ------------------------------------------------------------------ *)

Module Cleaning.

Import DF Frame.

(** *** Text normalisation of [standardize_dtypes] *)

Definition is_space (a : ascii) : bool :=
  let n := nat_of_ascii a in
  ((9 <=? n)%nat && (n <=? 13)%nat) || ((28 <=? n)%nat && (n <=? 32)%nat).

(** [\w]: letters, digits, underscore; a byte above 127 belongs to a
    letter outside ASCII. *)
Definition is_word (a : ascii) : bool :=
  let n := nat_of_ascii a in
  ((48 <=? n)%nat && (n <=? 57)%nat) || ((65 <=? n)%nat && (n <=? 90)%nat) ||
  ((97 <=? n)%nat && (n <=? 122)%nat) || (n =? 95)%nat || (128 <=? n)%nat.

Fixpoint lstrip (s : string) : string :=
  match s with
  | String a r => if is_space a then lstrip r else s
  | EmptyString => EmptyString
  end.

Fixpoint rstrip (s : string) : string :=
  match s with
  | EmptyString => EmptyString
  | String a r =>
      match rstrip r with
      | EmptyString => if is_space a then EmptyString else String a EmptyString
      | r' => String a r'
      end
  end.

(** [s.strip()] *)
Definition strip (s : string) : string := rstrip (lstrip s).

(** [re.sub(r'[^\w\s]', '', s)] *)
Fixpoint remove_punct (s : string) : string :=
  match s with
  | EmptyString => EmptyString
  | String a r =>
      if is_word a || is_space a then String a (remove_punct r)
      else remove_punct r
  end.

(** [.str.strip().str.lower().str.replace(r'[^\w\s]', '', regex=True)] on
    one cell of a column that holds a string: the [.str] methods answer NaN
    on what is not a string.  (On a column of dtype object that holds
    values none of which is a string pandas refuses the [.str] accessor and
    [standardize_dtypes] raises AttributeError; no such column comes from a
    CSV file, where a column of dtype object holds a string.) *)
Definition clean_text (c : option value) : option value :=
  match c with
  | Some (VStr s) => Some (VStr (remove_punct (PyStr.lower (strip s))))
  | _ => None
  end.

(** The name test of [standardize_dtypes]: ['date' in c.lower()]. *)
Definition is_date_name (c : string) : bool :=
  PyStr.contains "date" (PyStr.lower c).

(** int64 holds NaT as its least value. *)
Definition iNaT : Z := (- 2 ^ 63)%Z.

Section WithPandas.

Variable P : Pandas.

(** [pd.to_datetime(series, errors='coerce')]: what cannot be parsed
    becomes NaT. *)
Definition to_datetime (d : coldata) : coldata :=
  match d with
  | DateCol c => DateCol c
  | _ =>
      DateCol (map (fun x => match x with
                             | Some v => to_datetime_scalar P (objects d) v
                             | None => None
                             end) (objects d))
  end.

(** The number one object denotes for [pd.to_numeric], when it does. *)
Definition numeric_of (c : option value) : option (option Q) :=
  match c with
  | None => Some None
  | Some (VNum q) => Some (Some q)
  | Some (VStr s) => option_map (@Some Q) (str_to_float P s)
  | Some (VDate _) => None
  end.

Fixpoint all_numeric (cells : list (option value)) : option (list (option Q)) :=
  match cells with
  | [] => Some []
  | c :: r =>
      match numeric_of c, all_numeric r with
      | Some x, Some xs => Some (x :: xs)
      | _, _ => None
      end
  end.

(** [pd.to_numeric(series, errors='ignore')]: a numeric series is
    returned as it is; an object series is converted when every value
    converts and returned as it is, unchanged, when one does not; a
    datetime series is read as its int64 nanoseconds. *)
Definition to_numeric_ignore (d : coldata) : coldata :=
  match d with
  | NumCol c => NumCol c
  | ObjCol c =>
      match all_numeric c with
      | Some nums => NumCol nums
      | None => ObjCol c
      end
  | DateCol c =>
      NumCol (map (fun x => match x with
                            | Some t => Some (inject_Z (ts_value t))
                            | None => Some (inject_Z iNaT)
                            end) c)
  end.

(** The body of the loop of [standardize_dtypes] for the column [col]. *)
Definition standardize_column (col : Column) : coldata :=
  if is_date_name (cname col) then to_datetime (cdata col)
  else match cdata col with
       | ObjCol c => ObjCol (map clean_text c)
       | d => to_numeric_ignore d
       end.

Definition standardize_dtypes (df : DataFrame) : DataFrame :=
  for_columns (column_names df) standardize_column df.

(** [df['year'].astype(str) + 'Q' + df['quarter'].astype(str)] *)
Definition year_quarter_cells (y q : coldata) : list (option value) :=
  map (fun i => Some (VStr (cell_to_str P (cell_at y i) ++ "Q" ++
                            cell_to_str P (cell_at q i))))
      (seq 0 (col_length y)).

Definition create_year_quarter (df : DataFrame) : DataFrame :=
  match get df "year", get df "quarter" with
  | Some y, Some q =>
      assign df "year_quarter" (ObjCol (year_quarter_cells (cdata y) (cdata q)))
  | _, _ => df
  end.

End WithPandas.

(** *** Group keys *)

Definition possible : list string :=
  ["state"; "city"; "market"; "region"; "building_classification"; "year_quarter"].

(** [keys or defaults] *)
Definition py_or (A : Type) (a b : list A) : list A :=
  match a with [] => b | _ => a end.

Definition get_group_keys (df : DataFrame) (defaults : list string) : list string :=
  let keys := filter (has_column df) possible in
  py_or keys defaults.

(** *** The group cleaner *)

(** [g.notnull().mean(axis=1)]: for each row the share of its cells that
    are present. *)
Definition row_completeness (g : DataFrame) : list Num.float :=
  map (fun i =>
         Num.ratio
           (List.length (filter (fun col => notnull (cell_at (cdata col) i)) (columns g)))
           (List.length (columns g)))
      (seq 0 (nrows g)).

(** [g.isnull().mean()] at one column: the share of its cells that are
    missing. *)
Definition missingness (d : coldata) : Num.float :=
  Num.ratio (List.length (filter (fun b => b) (null_mask d))) (col_length d).

Definition col_missingness (g : DataFrame) : list Num.float :=
  map (fun col => missingness (cdata col)) (columns g).

(** What [g['year'].iloc[0] if 'year' in g.columns else None] evaluates
    to. *)
Inductive first_year : Type :=
  | NoYearColumn
  | YearCell (c : option value)
  | IndexError.

Definition year_of (g : DataFrame) : first_year :=
  match get g "year" with
  | None => NoYearColumn
  | Some col =>
      match col_length (cdata col) with
      | O => IndexError
      | S _ => YearCell (cell_at (cdata col) 0)
      end
  end.

(** [year == 2018] *)
Definition is_2018 (y : first_year) : bool :=
  match y with
  | YearCell (Some (VNum q)) => Qeq_bool q 2018
  | _ => false
  end.

Definition row_thresh (g : DataFrame) : Q :=
  if is_2018 (year_of g) then Num.lit (4 # 10)
  else Num.py_max (Num.lit (2 # 10))
         (Num.fsub (Num.median (row_completeness g)) (Num.lit (1 # 10))).

Definition col_thresh (g : DataFrame) : Q :=
  if is_2018 (year_of g) then Num.lit (6 # 10)
  else Num.py_min (Num.lit (9 # 10))
         (Num.fadd (Num.median (col_missingness g)) (Num.lit (1 # 10))).

(** [m[m >= col_thresh].index] *)
Definition drop_cols (g : DataFrame) : list string :=
  map cname
      (filter (fun col => Num.fge (missingness (cdata col)) (Some (col_thresh g)))
              (columns g)).

(** [g.drop(columns=names, errors='ignore')] *)
Definition drop (names : list string) (g : DataFrame) : DataFrame :=
  {| index := index g;
     columns := filter (fun col => negb (PyStr.mem (cname col) names)) (columns g) |}.

(** The body of the imputation loop.  A numeric column takes its median
    where a cell is missing (nothing changes when the median is NaN);
    another column takes its first mode, or the empty string when it has
    no value at all.  A datetime column without any value stays as it
    is: the groups of [main] are read from CSV and hold none. *)
Definition impute_column (col : Column) : coldata :=
  match cdata col with
  | NumCol c => NumCol (fillna_num (Num.median c) c)
  | ObjCol c =>
      match Obj.mode_first (Num.dropna c) with
      | Some v => ObjCol (map (fill v) c)
      | None => ObjCol (map (fill (VStr "")) c)
      end
  | DateCol c =>
      match Obj.mode_first (map VDate (Num.dropna c)) with
      | Some (VDate t) => DateCol (map (fill t) c)
      | _ => DateCol c
      end
  end.

(** [dynamic_clean_group]; [None] is the IndexError of [.iloc[0]] on a
    group without rows. *)
Definition dynamic_clean_group (g : DataFrame) : option DataFrame :=
  match year_of g with
  | IndexError => None
  | _ =>
      let r := row_completeness g in
      let kept := select_rows (map (fun ri => Num.fge ri (Some (row_thresh g))) r) g in
      let g' := drop (drop_cols g) kept in
      Some (for_columns (column_names g') impute_column g')
  end.

(** *** Outliers and normalisation *)

(** [q1 - 1.5*iqr] and [q3 + 1.5*iqr] for one numeric series. *)
Definition iqr_bounds (cells : list (option Q)) : Num.float * Num.float :=
  match Num.quantile (1 # 4) cells, Num.quantile (3 # 4) cells with
  | Some q1, Some q3 =>
      let iqr := Num.sub q3 q1 in
      (Some (Num.sub q1 (Num.mul (3 # 2) iqr)), Some (Num.add q3 (Num.mul (3 # 2) iqr)))
  | _, _ => (None, None)
  end.

(** [(df[c] >= lo) & (df[c] <= hi)] *)
Definition in_bounds (b : Num.float * Num.float) (x : option Q) : bool :=
  Num.fge x (fst b) && Num.fle x (snd b).

(** One turn of the loop of [remove_outliers], at the column [c]. *)
Definition outlier_step (df : DataFrame) (c : string) : DataFrame :=
  match get df c with
  | Some (mkColumn _ (NumCol cells)) =>
      select_rows (map (in_bounds (iqr_bounds cells)) cells) df
  | _ => df
  end.

Definition remove_outliers (df : DataFrame) : DataFrame :=
  fold_left outlier_step (numeric_names df) df.

(** The new cells of one numeric column in [normalize]. *)
Definition normalize_cells (cells : list (option Q)) : list (option Q) :=
  match Num.min cells, Num.max cells with
  | Some mi, Some mx =>
      if negb (Qeq_bool mi mx)
      then map (option_map (fun x => Num.div (Num.sub x mi) (Num.sub mx mi))) cells
      else map (fun _ => Some 0) cells
  | _, _ => map (fun _ => None) cells
  end.

(** The new cells of one int64 column in [normalize], by itself:
    [df[c] - mi] and [mx - mi] are int64 subtractions, which wrap around,
    and the division is that of float64 on the two differences.  An int64
    column has no missing cell. *)
Definition normalize_int64 (cells : list Z) : list (option Q) :=
  match Int64.min_values cells, Int64.max_values cells with
  | Some mi, Some mx =>
      if negb (Z.eqb mi mx)
      then map (fun x => Some (Num.div (Int64.to_float (Int64.wrap (x - mi)))
                                       (Int64.to_float (Int64.wrap (mx - mi))))) cells
      else map (fun _ => Some 0) cells
  | _, _ => map (fun _ => None) cells
  end.

Definition normalize_column (col : Column) : coldata :=
  match cdata col with
  | NumCol c => NumCol (normalize_cells c)
  | d => d
  end.

Definition normalize (df : DataFrame) : DataFrame :=
  for_columns (numeric_names df) normalize_column df.

(** *** [main] *)

Inductive dataset : Set := Leases | Occupancy | PriceAvail | Unemployment.

Section Main.

Variable P : Pandas.

(** [df.groupby(keys).apply(f).reset_index(drop=True)], which pandas
    implements. *)
Variable groupby_apply :
  DataFrame -> list string -> (DataFrame -> option DataFrame) -> DataFrame.

(** The table [main] groups: [create_year_quarter] has run on three of
    the four datasets. *)
Definition prepared (d : dataset) (df : DataFrame) : DataFrame :=
  match d with
  | Unemployment => df
  | _ => create_year_quarter P df
  end.

(** The entry of the dictionary [keys] of [main] for one dataset. *)
Definition main_keys (d : dataset) (df : DataFrame) : list string :=
  match d with
  | Unemployment =>
      if has_column df "state" && has_column df "year"
      then ["state"; "year"] else ["year"]
  | _ => get_group_keys (prepared d df) ["market"; "year_quarter"]
  end.

(** [normalize(remove_outliers(standardize_dtypes(x)))] *)
Definition finish (x : DataFrame) : DataFrame :=
  normalize (remove_outliers (standardize_dtypes P x)).


End Main.

End Cleaning.

(* ------------------------------------------------------------------ *)
(** ** Basic_Analysis/CleaningDeep.py                                  *)
(* ------------------------------------------------------------------ *)

Module CleaningDeep.

Import DF Frame.

(** [any(k in c.lower() for k in ['date','signed'])] *)
Definition is_date_like (c : string) : bool :=
  existsb (fun k => PyStr.contains k (PyStr.lower c)) ["date"; "signed"].

(** [l[i] = v] on a list *)
Fixpoint update (A : Type) (i : nat) (v : A) (l : list A) : list A :=
  match l, i with
  | [], _ => []
  | _ :: r, O => v :: r
  | x :: r, S j => x :: update j v r
  end.

(** Writing the integer [z] into one cell.  A numeric column takes the
    number, an object column the Python int; a datetime column is turned
    into an object column by the write. *)
Definition write_int (i : nat) (z : Z) (d : coldata) : coldata :=
  match d with
  | NumCol c => NumCol (update i (Some (inject_Z z)) c)
  | ObjCol c => ObjCol (update i (Some (VNum (inject_Z z))) c)
  | DateCol c => ObjCol (update i (Some (VNum (inject_Z z))) (map (option_map VDate) c))
  end.

(** [df.at[idx, c] = z] for the row at position [i]. *)
Definition set_at (df : DataFrame) (i : nat) (c : string) (z : Z) : DataFrame :=
  match get df c with
  | Some col => assign df c (write_int i z (cdata col))
  | None => df
  end.

(** ['c' in df.columns and pd.notnull(df.at[idx, 'c'])] *)
Definition row_has (df : DataFrame) (i : nat) (c : string) : bool :=
  match get df c with
  | Some col => notnull (cell_at (cdata col) i)
  | None => false
  end.

(** The names of the columns of dtype datetime64, in column order. *)
Definition dt_cols (df : DataFrame) : list string :=
  map cname (filter (fun col => is_datetime (cdata col)) (columns df)).

(** The first value that is not null among the columns [cols] at row
    [i]. *)
Fixpoint first_date (df : DataFrame) (cols : list string) (i : nat)
    : option Timestamp :=
  match cols with
  | [] => None
  | c :: r =>
      match get df c with
      | Some (mkColumn _ (DateCol cells)) =>
          match nth i cells None with
          | Some t => Some t
          | None => first_date df r i
          end
      | _ => first_date df r i
      end
  end.

(** The body of the row loop of [fill_year_qtr_month_from_date]. *)
Definition fill_row (cols : list string) (df : DataFrame) (i : nat) : DataFrame :=
  let row_has_year := row_has df i "year" in
  let row_has_quarter := row_has df i "quarter" in
  let row_has_month := row_has df i "month" in
  if row_has_year && row_has_quarter && row_has_month then df
  else
    match first_date df cols i with
    | None => df
    | Some date_val =>
        let df1 := if has_column df "year" && negb row_has_year
                   then set_at df i "year" (ts_year date_val) else df in
        let df2 := if has_column df1 "month" && negb row_has_month
                   then set_at df1 i "month" (ts_month date_val) else df1 in
        if has_column df2 "quarter" && negb row_has_quarter
        then set_at df2 i "quarter" (ts_quarter date_val) else df2
    end.

(** [series.fillna(0)].  A datetime column cannot bear one of the three
    labels this is applied to (see [time_fields_undated]); it is left as it
    is. *)
Definition fillna_zero (d : coldata) : coldata :=
  match d with
  | NumCol c => NumCol (map (fill 0) c)
  | ObjCol c => ObjCol (map (fill (VNum 0)) c)
  | DateCol c => DateCol c
  end.

Section WithPandas.

Variable P : Pandas.

(** [int(x)] on one object. *)
Definition int_of (c : option value) : option Z :=
  match c with
  | Some (VNum q) => Some (Num.trunc q)
  | Some (VStr s) => str_to_int P s
  | _ => None
  end.

Fixpoint all_int (A : Type) (f : A -> option Z) (cells : list A)
    : option (list (option Q)) :=
  match cells with
  | [] => Some []
  | c :: r =>
      match f c, all_int f r with
      | Some z, Some zs => Some (Some (inject_Z z) :: zs)
      | _, _ => None
      end
  end.

(** [series.astype(int, errors='ignore')]: the series of integers when
    every value converts, the series itself when one does not. *)
Definition astype_int_ignore (d : coldata) : coldata :=
  match d with
  | NumCol c =>
      match all_int (option_map Num.trunc) c with
      | Some ints => NumCol ints
      | None => d
      end
  | ObjCol c =>
      match all_int int_of c with
      | Some ints => NumCol ints
      | None => d
      end
  | DateCol c =>
      match all_int (option_map ts_value) c with
      | Some ints => NumCol ints
      | None => d
      end
  end.

Definition parse_date_columns (df : DataFrame) : DataFrame :=
  let date_like_cols := filter is_date_like (column_names df) in
  for_columns date_like_cols (fun col => Cleaning.to_datetime P (cdata col)) df.

Definition time_fields : list string := ["year"; "quarter"; "month"].

Definition fill_year_qtr_month_from_date (df : DataFrame) : DataFrame :=
  match dt_cols df with
  | [] => df
  | cols =>
      let filled := fold_left (fill_row cols) (seq 0 (nrows df)) df in
      for_columns time_fields
        (fun col => astype_int_ignore (fillna_zero (cdata col))) filled
  end.

Definition protected_time_cols : list string := ["year"; "quarter"; "month"].

(** [df.drop_duplicates()]: a row goes when an earlier row has the same
    cells, missing cells counting as equal. *)
Definition cell_eqb (a b : option value) : bool :=
  match a, b with
  | None, None => true
  | Some x, Some y => Obj.eqb x y
  | _, _ => false
  end.

Definition same_row (df : DataFrame) (i j : nat) : bool :=
  forallb (fun col => cell_eqb (cell_at (cdata col) i) (cell_at (cdata col) j))
          (columns df).

Definition duplicated (df : DataFrame) : list bool :=
  map (fun i => existsb (same_row df i) (seq 0 i)) (seq 0 (nrows df)).

Definition drop_duplicates (df : DataFrame) : DataFrame :=
  select_rows (map negb (duplicated df)) df.

(** The table [minimal_clean_with_dates] writes, for the table that
    [pd.read_csv] has read. *)
Definition minimal_clean_with_dates (input : DataFrame) : DataFrame :=
  let df := drop_duplicates input in
  let df := parse_date_columns df in
  let df := fill_year_qtr_month_from_date df in
  let numeric_cols := numeric_names df in
  let df :=
    for_columns
      (filter (fun col => negb (PyStr.mem (PyStr.lower col) protected_time_cols))
              numeric_cols)
      (fun col => match cdata col with
                  | NumCol c => NumCol (fillna_num (Num.median c) c)
                  | d => d
                  end) df in
  let object_cols := object_names df in
  let df :=
    for_columns object_cols
      (fun col => match cdata col with
                  | ObjCol c => ObjCol (map (fill (VStr "missing")) c)
                  | d => d
                  end) df in
  for_columns time_fields
    (fun col => Cleaning.to_numeric_ignore P (cdata col)) df.

End WithPandas.

End CleaningDeep.

(* ------------------------------------------------------------------ *)
(** ** A concrete instance of the conversions                          *)
(* ------------------------------------------------------------------ *)

(** The scripts are evaluated on examples with the conversions below.  They
    agree with pandas on what the examples hold: ISO dates [YYYY-MM-DD],
    whole numbers of nanoseconds, signed decimal numerals.  Everything else
    is refused, which is what pandas does with a word such as [unknown]. *)
Module Sample.

Definition digit (a : ascii) : option Z :=
  let n := nat_of_ascii a in
  if (48 <=? n)%nat && (n <=? 57)%nat then Some (Z.of_nat (n - 48)) else None.

Fixpoint digits_from (acc : Z) (s : string) : option Z :=
  match s with
  | EmptyString => Some acc
  | String a r =>
      match digit a with
      | Some d => digits_from (10 * acc + d)%Z r
      | None => None
      end
  end.

Definition natural (s : string) : option Z :=
  match s with
  | EmptyString => None
  | _ => digits_from 0%Z s
  end.

Definition integer (s : string) : option Z :=
  match s with
  | String "-" r => option_map Z.opp (natural r)
  | _ => natural s
  end.

(** A signed numeral with an optional fractional part. *)
Definition decimal (s : string) : option Q :=
  match String.index 0 "." s with
  | None => option_map inject_Z (integer s)
  | Some k =>
      let whole := substring 0 k s in
      let frac := substring (S k) (String.length s - S k) s in
      match integer whole, natural frac with
      | Some w, Some f =>
          let scale := (10 ^ Z.of_nat (String.length frac))%Z in
          let neg := String.prefix "-" whole in
          Some (F64.round (inject_Z w + (if neg then - 1 else 1) * (f # Z.to_pos scale)))
      | _, _ => None
      end
  end.

Definition month_of_Z (m : Z) : option Month :=
  match m with
  | 1 => Some Jan | 2 => Some Feb | 3 => Some Mar | 4 => Some Apr
  | 5 => Some May | 6 => Some Jun | 7 => Some Jul | 8 => Some Aug
  | 9 => Some Sep | 10 => Some Oct | 11 => Some Nov | 12 => Some Dec
  | _ => None
  end%Z.

(** Days since 1970-01-01 of a date of the proleptic Gregorian calendar. *)
Definition days_from_civil (y m d : Z) : Z :=
  (let y' := if m <=? 2 then y - 1 else y in
   let era := y' / 400 in
   let yoe := y' - era * 400 in
   let mp := if 2 <? m then m - 3 else m + 9 in
   let doy := (153 * mp + 2) / 5 + d - 1 in
   let doe := yoe * 365 + yoe / 4 - yoe / 100 + doy in
   era * 146097 + doe - 719468)%Z.

(** Year and month of a number of days since 1970-01-01. *)
Definition civil_from_days (days : Z) : Z * Z :=
  (let z := days + 719468 in
   let era := z / 146097 in
   let doe := z - era * 146097 in
   let yoe := (doe - doe / 1460 + doe / 36524 - doe / 146096) / 365 in
   let doy := doe - (365 * yoe + yoe / 4 - yoe / 100) in
   let mp := (5 * doy + 2) / 153 in
   let m := if mp <? 10 then mp + 3 else mp - 9 in
   ((yoe + era * 400 + (if m <=? 2 then 1 else 0)), m))%Z.

Definition ns_per_day : Z := 86400000000000%Z.

Definition timestamp_of_ns (ns : Z) : option Timestamp :=
  let (y, m) := civil_from_days (ns / ns_per_day) in
  option_map (fun mo => mkTimestamp y mo ns) (month_of_Z m).

Definition iso_date (s : string) : option Timestamp :=
  if (String.length s =? 10)%nat
     && String.eqb (substring 4 1 s) "-" && String.eqb (substring 7 1 s) "-"
  then
    match natural (substring 0 4 s), natural (substring 5 2 s),
          natural (substring 8 2 s) with
    | Some y, Some m, Some d =>
        if (1 <=? d)%Z && (d <=? 31)%Z
        then option_map
               (fun mo => mkTimestamp y mo (days_from_civil y m d * ns_per_day))
               (month_of_Z m)
        else None
    | _, _, _ => None
    end
  else None.

Definition parse_timestamp (series : list (option value)) (v : value)
    : option Timestamp :=
  match v with
  | VStr s => iso_date s
  | VNum q => if Qeq_bool q (inject_Z (Qfloor q)) then timestamp_of_ns (Qfloor q) else None
  | VDate t => Some t
  end.

Definition decimal_of_Z (z : Z) : string :=
  DecimalString.NilZero.string_of_int (Z.to_int z).

(** Whole numbers are written in decimal; the examples hold no other
    number where a cell is written out. *)
Definition show_cell (c : option value) : string :=
  match c with
  | None => "nan"
  | Some (VStr s) => s
  | Some (VNum q) => decimal_of_Z (Qfloor q)
  | Some (VDate t) => decimal_of_Z (ts_value t)
  end.

Definition pandas : Pandas :=
  {| to_datetime_scalar := parse_timestamp;
     str_to_float := decimal;
     str_to_int := integer;
     cell_to_str := show_cell |}.

End Sample.

(* ------------------------------------------------------------------ *)
(** ** The notions the properties are stated with, and sample tables    *)
(* ------------------------------------------------------------------ *)

Module Notions.

Import PyStr DF Frame Cleaning CleaningDeep.

(** The specification of a case-insensitive occurrence: some slice of
    [s] is [k] once put in lower case. *)
Definition occurs_ci (k s : string) : Prop :=
  exists pre mid post, s = pre ++ mid ++ post /\ lower mid = k.

(** One turn of [for_columns]. *)
Definition step (f : Column -> coldata) (acc : DataFrame) (c : string) : DataFrame :=
  match get acc c with
  | Some col => assign acc c (f col)
  | None => acc
  end.

(** What [for_columns] does to one column. *)
Definition update_where (names : list string) (f : Column -> coldata)
    (col : Column) : Column :=
  if PyStr.mem (cname col) names then mkColumn (cname col) (f col) else col.

(** The candidates that are labels of [df], in the order of the list
    [possible]. *)
Definition present_candidates (df : DataFrame) : list string :=
  filter (fun k => PyStr.mem k (column_names df)) Cleaning.possible.

(** [m] is the least value of a numeric series. *)
Definition is_minimum (m : Q) (cells : list (option Q)) : Prop :=
  In (Some m) cells /\ forall x, In (Some x) cells -> m <= x.

(** [m] is the greatest value of a numeric series. *)
Definition is_maximum (m : Q) (cells : list (option Q)) : Prop :=
  In (Some m) cells /\ forall x, In (Some x) cells -> x <= m.

(** No label occurs twice. *)
Fixpoint unique (l : list string) : bool :=
  match l with
  | [] => true
  | x :: r => negb (PyStr.mem x r) && unique r
  end.



(** Every column has one cell for each row. *)
Definition rectangular (df : DataFrame) : bool :=
  forallb (fun col => Nat.eqb (col_length (cdata col)) (nrows df)) (columns df).

(** [x] lies in [Q1 - 1.5 IQR, Q3 + 1.5 IQR] for the quartiles of the
    series [cells], the difference, the product, the sum and the other
    difference each rounded to binary64. *)
Definition within_iqr (cells : list (option Q)) (x : Q) : Prop :=
  exists q1 q3,
    Num.quantile (1 # 4) cells = Some q1 /\ Num.quantile (3 # 4) cells = Some q3 /\
    F64.round (q1 - F64.round ((3 # 2) * F64.round (q3 - q1))) <= x /\
    x <= F64.round (q3 + F64.round ((3 # 2) * F64.round (q3 - q1))).

(** The row labelled [label] of the table [t] has, in the numeric column
    [c], a value within the bounds computed from that column of [t]. *)
Definition row_in_bounds (t : DataFrame) (c : string) (label : nat) : Prop :=
  exists cells pos v,
    get t c = Some (mkColumn c (NumCol cells)) /\
    nth_error (index t) pos = Some label /\
    nth pos cells None = Some v /\
    within_iqr cells v.

(** The table once the loop has gone through its first [k] numeric
    columns. *)
Definition after_columns (df : DataFrame) (k : nat) : DataFrame :=
  fold_left outlier_step (firstn k (numeric_names df)) df.

(** [c] is the label of a numeric column of [t]. *)
Definition numeric_in (t : DataFrame) (c : string) : Prop :=
  exists cells, get t c = Some (mkColumn c (NumCol cells)).

(** The mask of two selections in a row. *)
Fixpoint compose (m1 m2 : list bool) : list bool :=
  match m1 with
  | [] => []
  | false :: r => false :: compose r m2
  | true :: r =>
      match m2 with
      | [] => []
      | b :: m2' => b :: compose r m2'
      end
  end.

(** A group of five leases.  Row 1 holds two cells out of four and the
    column [broker] misses two cells out of five. *)
Definition leases_group : DataFrame :=
  {| index := [0; 1; 2; 3; 4]%nat;
     columns := [ mkColumn "market" (ObjCol [Some (VStr "Austin"); Some (VStr "Austin");
                                             Some (VStr "Austin"); Some (VStr "Austin");
                                             Some (VStr "Austin")]);
                  mkColumn "year" (NumCol [Some 2019; Some 2019; Some 2019; Some 2019;
                                           Some 2019]);
                  mkColumn "rent" (NumCol [Some 10; None; Some 30; Some 20; Some 40]);
                  mkColumn "broker" (ObjCol [Some (VStr "cbre"); None; Some (VStr "jll");
                                             None; Some (VStr "cbre")]) ] |}.

(** Two numeric columns; the last row is an outlier of the first. *)
Definition two_columns : DataFrame :=
  {| index := [0; 1; 2; 3; 4]%nat;
     columns := [ mkColumn "a" (NumCol [Some 1; Some 2; Some 3; Some 4; Some 100]);
                  mkColumn "b" (NumCol [Some 0; Some 8; Some 10; Some 12; Some 40]) ] |}.

(** Dated leases, as read from a CSV file. *)
Definition dated_leases : DataFrame :=
  {| index := [0; 1; 2]%nat;
     columns := [ mkColumn "year" (NumCol [Some 2019; None; None]);
                  mkColumn "quarter" (ObjCol [Some (VStr "Q1"); None; None]);
                  mkColumn "lease_date" (ObjCol [Some (VStr "2019-02-03");
                                                 Some (VStr "2020-11-30");
                                                 Some (VStr "n/a")]);
                  mkColumn "monthsigned" (NumCol [Some 2; Some 11; None]);
                  mkColumn "rent" (NumCol [Some 10; None; Some 30]) ] |}.

(** No row label occurs twice. *)
Fixpoint distinct_labels (l : list nat) : bool :=
  match l with
  | [] => true
  | x :: r => negb (existsb (Nat.eqb x) r) && distinct_labels r
  end.


(** The label and the dtype class of a column. *)
Definition kind (col : Column) : string * bool := (cname col, is_numeric (cdata col)).

(** The attribute of the date that goes into the column [c], when [c] is
    one of the three time fields. *)
Definition field_accessor (c : string) : option (Timestamp -> Z) :=
  if String.eqb c "year" then Some ts_year
  else if String.eqb c "month" then Some ts_month
  else if String.eqb c "quarter" then Some ts_quarter
  else None.


(** One row of that loop, at one column. *)
Definition backfill_row (acc : Timestamp -> Z) (date : option Timestamp)
    (i : nat) (d : coldata) : coldata :=
  match cell_at d i, date with
  | None, Some t => write_int i (acc t) d
  | _, _ => d
  end.

(** The body of the row loop without its shortcuts. *)
Definition fill_row_plain (cols : list string) (T : DataFrame) (i : nat) : DataFrame :=
  match first_date T cols i with
  | None => T
  | Some t =>
      let T1 := if negb (row_has T i "year") then set_at T i "year" (ts_year t) else T in
      let T2 := if negb (row_has T i "month") then set_at T1 i "month" (ts_month t) else T1 in
      if negb (row_has T i "quarter") then set_at T2 i "quarter" (ts_quarter t) else T2
  end.






(** Every character of [s] passes the test [p]. *)
Fixpoint all_chars (p : ascii -> bool) (s : string) : bool :=
  match s with
  | EmptyString => true
  | String a r => p a && all_chars p r
  end.

(** An ASCII character is plain when it is a lower-case letter, a digit,
    an underscore or white space; the bytes of a character outside ASCII
    count as plain. *)
Definition plain_char (a : ascii) : bool :=
  let n := nat_of_ascii a in
  (128 <=? n)%nat || ((48 <=? n)%nat && (n <=? 57)%nat) ||
  ((97 <=? n)%nat && (n <=? 122)%nat) || (n =? 95)%nat || Cleaning.is_space a.

(** The position in [l] of the cell that [select mask l] holds at
    position [i]. *)
Fixpoint pos_of (mask : list bool) (i : nat) : nat :=
  match mask with
  | [] => O
  | true :: m => match i with O => O | S i' => S (pos_of m i') end
  | false :: m => S (pos_of m i)
  end.






(** The column holds at least one string: pandas then grants the [.str]
    accessor, which it refuses (AttributeError) to a column of dtype object
    that holds values none of which is a string. *)
Definition holds_string (c : list (option value)) : bool :=
  existsb (fun x => match x with Some (VStr _) => true | _ => false end) c.

(** How far apart the greatest and the least of a list of integers
    are. *)
Definition spread (ints : list Z) : Z :=
  match Int64.min_values ints, Int64.max_values ints with
  | Some mi, Some mx => (mx - mi)%Z
  | _, _ => 0%Z
  end.

(** [x] is a binary64 number of magnitude below [2 ^ 62], as a test. *)
Definition moderate (x : Q) : bool :=
  Qeq_bool (F64.round x) x && negb (Qle_bool (inject_Z (2 ^ 62)) (Qabs x)).

(** Every number of the table is a binary64 number of magnitude below
    [2 ^ 62]: the int64 and the float64 arithmetic of the quartiles and of
    the bounds stays within the range of the two formats. *)
Definition moderate_table (df : DataFrame) : bool :=
  forallb (fun col => match cdata col with
                      | NumCol cells =>
                          forallb (fun c => match c with
                                            | Some x => moderate x
                                            | None => true
                                            end) cells
                      | _ => true
                      end) (columns df).

(** The values of a numeric series are those of one dtype: all of them
    integers (int64), or all of them binary64 numbers (float64). *)
Definition is_integer (x : Q) : bool := Qeq_bool (inject_Z (Qfloor x)) x.

Definition is_binary64 (x : Q) : bool := Qeq_bool (F64.round x) x.

Definition typed (cells : list (option Q)) : bool :=
  forallb (fun c => match c with Some x => is_integer x | None => true end) cells ||
  forallb (fun c => match c with Some x => is_binary64 x | None => true end) cells.

Definition typed_table (df : DataFrame) : bool :=
  forallb (fun col => match cdata col with
                      | NumCol cells => typed cells
                      | _ => true
                      end) (columns df).

(** The greatest and the least value of a numeric series are less than
    [2 ^ 63] apart: no int64 subtraction of two of its values wraps around
    and no float64 subtraction overflows. *)
Definition narrow (cells : list (option Q)) : bool :=
  match Num.min cells, Num.max cells with
  | Some mi, Some mx => negb (Qle_bool (inject_Z (2 ^ 63)) (mx - mi))
  | _, _ => true
  end.

Definition narrow_table (df : DataFrame) : bool :=
  forallb (fun col => match cdata col with
                      | NumCol cells => narrow cells
                      | _ => true
                      end) (columns df).

End Notions.

Import Notions.

(* ------------------------------------------------------------------ *)
(** ** Facts about binary64 rounding                                   *)
(* ------------------------------------------------------------------ *)

Module F64Facts.

Import F64.

Lemma pow2_pos k : 0 < pow2 k.
Proof. apply Qpower_0_lt. reflexivity. Qed.

Lemma pow2_add a b : pow2 (a + b) == pow2 a * pow2 b.
Proof. apply Qpower_plus. discriminate. Qed.

Lemma pow2_le a b : (a <= b)%Z -> pow2 a <= pow2 b.
Proof. intros H. apply Qpower_le_compat_l; [assumption | discriminate]. Qed.

Lemma pow2_lt a b : (a < b)%Z -> pow2 a < pow2 b.
Proof. intros H. apply Qpower_lt_compat_l; [assumption | reflexivity]. Qed.

Lemma pow2_lt_inv a b : pow2 a < pow2 b -> (a < b)%Z.
Proof. intros H. apply Qpower_lt_compat_l_inv with 2; [assumption | reflexivity]. Qed.

Lemma pow2_succ k : pow2 (k + 1) == 2 * pow2 k.
Proof. rewrite pow2_add. change (pow2 1) with 2. ring. Qed.

Lemma pow2_nat k : (0 <= k)%Z -> pow2 k == inject_Z (2 ^ k).
Proof. intros H. unfold pow2. now rewrite Zpower_Qpower. Qed.

(** [x / 2 ^ k] and [x * 2 ^ -k]. *)
Lemma div_pow2 x k : x / pow2 k == x * pow2 (- k).
Proof. unfold pow2. rewrite Qpower_opp. reflexivity. Qed.

Lemma pow2_cancel k : pow2 k * pow2 (- k) == 1.
Proof. rewrite <- pow2_add. now replace (k + - k)%Z with 0%Z by lia. Qed.

Lemma scale_back x k : x / pow2 k * pow2 k == x.
Proof.
  field. intros H. pose proof (pow2_pos k) as P. rewrite H in P. discriminate.
Qed.

(** The exponent of a positive rational. *)
Lemma ilog2_spec x : 0 < x -> pow2 (ilog2 x) <= x /\ x < pow2 (ilog2 x + 1).
Proof.
  intros Hx. destruct x as [n d]. unfold ilog2. cbn [Qnum Qden].
  assert (Hn : (0 < n)%Z).
  { unfold Qlt in Hx. simpl in Hx. lia. }
  pose proof (Z.log2_spec n Hn) as [A1 A2].
  pose proof (Z.log2_spec (Zpos d) (Pos2Z.is_pos d)) as [B1 B2].
  pose proof (Z.log2_nonneg n) as An. pose proof (Z.log2_nonneg (Zpos d)) as Bn.
  set (a := Z.log2 n) in *. set (b := Z.log2 (Zpos d)) in *.
  assert (E : n # d == inject_Z n / inject_Z (Zpos d)) by apply Qmake_Qdiv.
  assert (Dpos : 0 < inject_Z (Zpos d)) by reflexivity.
  assert (L : pow2 (a - b - 1) <= n # d).
  { rewrite E. apply Qle_shift_div_l; [assumption|].
    apply Qle_trans with (pow2 (a - b - 1) * pow2 (b + 1)).
    - apply (proj2 (Qmult_le_l _ _ _ (pow2_pos (a - b - 1)))).
      rewrite (@pow2_nat (b + 1)) by lia. rewrite <- Zle_Qle.
      replace (b + 1)%Z with (Z.succ b) by lia. lia.
    - rewrite <- pow2_add. replace (a - b - 1 + (b + 1))%Z with a by lia.
      rewrite (@pow2_nat a) by lia. now rewrite <- Zle_Qle. }
  assert (U : n # d < pow2 (a - b + 1)).
  { rewrite E. apply Qlt_shift_div_r; [assumption|].
    apply Qlt_le_trans with (pow2 (a - b + 1) * pow2 b).
    - rewrite <- pow2_add. replace (a - b + 1 + b)%Z with (a + 1)%Z by lia.
      rewrite (@pow2_nat (a + 1)) by lia. rewrite <- Zlt_Qlt.
      replace (a + 1)%Z with (Z.succ a) by lia. lia.
    - apply (proj2 (Qmult_le_l _ _ _ (pow2_pos (a - b + 1)))).
      rewrite (@pow2_nat b) by lia. now rewrite <- Zle_Qle. }
  destruct (Qle_bool (pow2 (a - b)) (n # d)) eqn:T.
  - apply Qle_bool_iff in T. split; assumption.
  - split; [assumption|].
    replace (a - b - 1 + 1)%Z with (a - b)%Z by lia.
    apply Qnot_le_lt. intros H. apply Qle_bool_iff in H. congruence.
Qed.

Lemma ilog2_unique x e : pow2 e <= x -> x < pow2 (e + 1) -> ilog2 x = e.
Proof.
  intros L U.
  assert (Hx : 0 < x) by (apply Qlt_le_trans with (pow2 e); [apply pow2_pos | assumption]).
  destruct (ilog2_spec Hx) as [L' U'].
  assert (H1 : (ilog2 x < e + 1)%Z).
  { apply pow2_lt_inv. now apply Qle_lt_trans with x. }
  assert (H2 : (e < ilog2 x + 1)%Z).
  { apply pow2_lt_inv. now apply Qle_lt_trans with x. }
  lia.
Qed.

Lemma ilog2_le x y : 0 < x -> x <= y -> (ilog2 x <= ilog2 y)%Z.
Proof.
  intros Hx Hxy.
  assert (Hy : 0 < y) by now apply Qlt_le_trans with x.
  destruct (ilog2_spec Hx) as [L _]. destruct (ilog2_spec Hy) as [_ U].
  assert (H : (ilog2 x < ilog2 y + 1)%Z).
  { apply pow2_lt_inv. apply Qle_lt_trans with x; [assumption|].
    now apply Qle_lt_trans with y. }
  lia.
Qed.

Lemma ilog2_comp x y : 0 < x -> x == y -> ilog2 x = ilog2 y.
Proof.
  intros Hx E. symmetry. destruct (ilog2_spec Hx) as [L U].
  apply ilog2_unique; now rewrite <- E.
Qed.

(** Rounding to the nearest integer. *)
Lemma rne_cases y : rne y = Qfloor y \/ rne y = (Qfloor y + 1)%Z.
Proof.
  unfold rne. destruct (Qcompare _ _); auto. destruct (Z.even _); auto.
Qed.

Lemma rne_comp y y' : y == y' -> rne y = rne y'.
Proof.
  intros E. unfold rne. rewrite (Qfloor_comp _ _ E).
  assert (C : Qcompare (y - inject_Z (Qfloor y')) (1 # 2) =
              Qcompare (y' - inject_Z (Qfloor y')) (1 # 2)).
  { apply Qcompare_comp; [now rewrite E | reflexivity]. }
  now rewrite C.
Qed.

Lemma rne_int n : rne (inject_Z n) = n.
Proof.
  unfold rne. rewrite Qfloor_Z.
  assert (E : inject_Z n - inject_Z n == 0) by ring.
  assert (C : Qcompare (inject_Z n - inject_Z n) (1 # 2) = Lt).
  { apply Qlt_alt. rewrite E. reflexivity. }
  now rewrite C.
Qed.


Lemma rne_mono y1 y2 : y1 <= y2 -> (rne y1 <= rne y2)%Z.
Proof.
  intros H. pose proof (Qfloor_resp_le _ _ H) as F.
  destruct (Z.eq_dec (Qfloor y1) (Qfloor y2)) as [E|N].
  - unfold rne. rewrite E.
    destruct (Qcompare_spec (y1 - inject_Z (Qfloor y2)) (1 # 2)) as [A|A|A];
      destruct (Qcompare_spec (y2 - inject_Z (Qfloor y2)) (1 # 2)) as [B|B|B];
      try lia; try (destruct (Z.even (Qfloor y2)); lia); exfalso; lra.
  - destruct (rne_cases y1) as [->| ->], (rne_cases y2) as [->| ->]; lia.
Qed.

Lemma rne_nonneg y : 0 <= y -> (0 <= rne y)%Z.
Proof. intros H. rewrite <- (rne_int 0). now apply rne_mono. Qed.

(** *** Rounding a positive rational *)

Lemma ulp_exp_min x : (-1074 <= ulp_exp x)%Z.
Proof. unfold ulp_exp. lia. Qed.

Lemma ulp_exp_le x y : 0 < x -> x <= y -> (ulp_exp x <= ulp_exp y)%Z.
Proof. intros Hx H. unfold ulp_exp. pose proof (ilog2_le Hx H). lia. Qed.

Lemma mul_pow2_le x y k : x <= y -> x * pow2 k <= y * pow2 k.
Proof. intros H. apply Qmult_le_compat_r; [assumption | apply Qlt_le_weak, pow2_pos]. Qed.

Lemma div_pow2_le x y k : x <= y -> x / pow2 k <= y / pow2 k.
Proof. intros H. rewrite !div_pow2. now apply mul_pow2_le. Qed.

(** The scaled mantissa stays below [2 ^ 53], and above [2 ^ 52] for a
    number in the normal range. *)
Lemma scaled_lt x : 0 < x -> x / pow2 (ulp_exp x) < pow2 53.
Proof.
  intros Hx. destruct (ilog2_spec Hx) as [_ U].
  apply Qlt_shift_div_r; [apply pow2_pos|].
  apply Qlt_le_trans with (pow2 (ilog2 x + 1)); [assumption|].
  rewrite <- pow2_add. apply pow2_le. unfold ulp_exp. lia.
Qed.

Lemma scaled_ge x :
  0 < x -> (-1074 < ulp_exp x)%Z -> pow2 52 <= x / pow2 (ulp_exp x).
Proof.
  intros Hx K. destruct (ilog2_spec Hx) as [L _].
  apply Qle_shift_div_l; [apply pow2_pos|].
  rewrite <- pow2_add.
  replace (52 + ulp_exp x)%Z with (ilog2 x) by (unfold ulp_exp in *; lia).
  assumption.
Qed.

Lemma round_pos_nonneg x : 0 < x -> 0 <= round_pos x.
Proof.
  intros Hx. unfold round_pos. apply Qmult_le_0_compat.
  - change 0 with (inject_Z 0). rewrite <- Zle_Qle. apply rne_nonneg.
    apply Qle_shift_div_l; [apply pow2_pos | lra].
  - apply Qlt_le_weak, pow2_pos.
Qed.

Lemma round_pos_upper x : 0 < x -> round_pos x <= pow2 (ulp_exp x + 53).
Proof.
  intros Hx. unfold round_pos. rewrite Z.add_comm, pow2_add.
  apply mul_pow2_le. rewrite (@pow2_nat 53) by lia. rewrite <- Zle_Qle.
  rewrite <- (rne_int (2 ^ 53)). apply rne_mono.
  rewrite <- (@pow2_nat 53) by lia. apply Qlt_le_weak. now apply scaled_lt.
Qed.

Lemma round_pos_lower x :
  0 < x -> (-1074 < ulp_exp x)%Z -> pow2 (ulp_exp x + 52) <= round_pos x.
Proof.
  intros Hx K. unfold round_pos. rewrite Z.add_comm, pow2_add.
  apply mul_pow2_le. rewrite (@pow2_nat 52) by lia. rewrite <- Zle_Qle.
  rewrite <- (rne_int (2 ^ 52)). apply rne_mono.
  rewrite <- (@pow2_nat 52) by lia. now apply scaled_ge.
Qed.

Lemma round_pos_mono x y : 0 < x -> x <= y -> round_pos x <= round_pos y.
Proof.
  intros Hx H.
  assert (Hy : 0 < y) by now apply Qlt_le_trans with x.
  pose proof (ulp_exp_le Hx H) as K.
  destruct (Z.eq_dec (ulp_exp x) (ulp_exp y)) as [E|N].
  - unfold round_pos. rewrite E. apply mul_pow2_le. rewrite <- Zle_Qle.
    apply rne_mono. now apply div_pow2_le.
  - apply Qle_trans with (pow2 (ulp_exp x + 53)); [now apply round_pos_upper|].
    apply Qle_trans with (pow2 (ulp_exp y + 52)).
    + apply pow2_le. lia.
    + apply round_pos_lower; [assumption|]. pose proof (ulp_exp_min x). lia.
Qed.

Lemma round_pos_comp x y : 0 < x -> x == y -> round_pos x == round_pos y.
Proof.
  intros Hx E. unfold round_pos, ulp_exp. rewrite (ilog2_comp Hx E).
  set (k := Z.max _ _).
  assert (R : rne (x / pow2 k) = rne (y / pow2 k)) by (apply rne_comp; now rewrite E).
  now rewrite R.
Qed.

(** *** The binary64 numbers *)

Lemma Rep_comp x y : x == y -> representable x -> representable y.
Proof. intros E [N [k [H1 [H2 H3]]]]. exists N, k. now rewrite <- E. Qed.

Lemma Rep_opp x : representable x -> representable (- x).
Proof.
  intros [N [k [H1 [H2 H3]]]]. exists (- N)%Z, k. split; [assumption|]. split; [lia|].
  rewrite H3, inject_Z_opp. ring.
Qed.

Lemma inject_Z_pos_of_mul N k : 0 < inject_Z N * pow2 k -> (0 < N)%Z.
Proof.
  intros H. pose proof (pow2_pos k) as P.
  destruct (Z_lt_le_dec 0 N) as [L|L]; [assumption|]. exfalso.
  assert (I : inject_Z N <= 0) by (change 0 with (inject_Z 0); now rewrite <- Zle_Qle).
  assert (M : inject_Z N * pow2 k <= 0 * pow2 k) by now apply mul_pow2_le.
  lra.
Qed.

Lemma round_pos_rep x : 0 < x -> representable x -> round_pos x == x.
Proof.
  intros Hx [N [k [H1 [H2 H3]]]].
  assert (HN : (0 < N)%Z) by (apply inject_Z_pos_of_mul with k; now rewrite <- H3).
  destruct (ilog2_spec Hx) as [L _].
  assert (U : x < pow2 (k + 53)).
  { rewrite H3, Z.add_comm, pow2_add.
    apply Qmult_lt_compat_r; [apply pow2_pos|].
    rewrite (@pow2_nat 53) by lia. rewrite <- Zlt_Qlt. lia. }
  assert (K : (ulp_exp x <= k)%Z).
  { assert (ilog2 x < k + 53)%Z by (apply pow2_lt_inv; now apply Qle_lt_trans with x).
    unfold ulp_exp. lia. }
  unfold round_pos. set (k' := ulp_exp x) in *.
  assert (S : x / pow2 k' == inject_Z (N * 2 ^ (k - k'))).
  { rewrite H3, div_pow2, inject_Z_mult, <- (@pow2_nat (k - k')) by lia.
    rewrite <- Qmult_assoc, <- pow2_add. now replace (k + - k')%Z with (k - k')%Z by lia. }
  rewrite (rne_comp S), rne_int, <- S. apply scale_back.
Qed.

Lemma round_pos_is_rep x : 0 < x -> representable (round_pos x).
Proof.
  intros Hx. unfold round_pos. set (k := ulp_exp x). set (N := rne (x / pow2 k)).
  assert (N0 : (0 <= N)%Z).
  { apply rne_nonneg. apply Qle_shift_div_l; [apply pow2_pos | lra]. }
  assert (N1 : (N <= 2 ^ 53)%Z).
  { unfold N. rewrite <- (rne_int (2 ^ 53)). apply rne_mono.
    rewrite <- (@pow2_nat 53) by lia. apply Qlt_le_weak. now apply scaled_lt. }
  pose proof (ulp_exp_min x) as Kmin. fold k in Kmin.
  destruct (Z.eq_dec N (2 ^ 53)) as [E|NE].
  - exists (2 ^ 52)%Z, (k + 1)%Z. split; [lia|]. split; [reflexivity|].
    rewrite E, pow2_succ. rewrite <- !pow2_nat by lia.
    change (pow2 53) with (2 * pow2 52). ring.
  - exists N, k. split; [assumption|]. split; [lia | reflexivity].
Qed.

Lemma round_pos_idem x : 0 < x -> 0 < round_pos x -> round_pos (round_pos x) == round_pos x.
Proof. intros Hx Hr. apply round_pos_rep; [assumption | now apply round_pos_is_rep]. Qed.


(** *** Rounding *)

Lemma round_pos_val x : 0 < x -> round x == round_pos x.
Proof.
  intros H. unfold round. rewrite Qred_correct.
  now rewrite (proj1 (Qgt_alt x 0) H).
Qed.

Lemma round_neg_val x : x < 0 -> round x == - round_pos (- x).
Proof.
  intros H. unfold round. rewrite Qred_correct.
  now rewrite (proj1 (Qlt_alt x 0) H).
Qed.

Lemma round_zero x : x == 0 -> round x == 0.
Proof.
  intros H. unfold round. rewrite Qred_correct.
  now rewrite (proj1 (Qeq_alt x 0) H).
Qed.

Lemma round_reduced x : Qred (round x) = round x.
Proof. unfold round. apply Qred_complete, Qred_correct. Qed.

Lemma round_comp x y : x == y -> round x = round y.
Proof.
  intros E. unfold round. apply Qred_complete.
  assert (C : Qcompare x 0 = Qcompare y 0) by (apply Qcompare_comp; [assumption | reflexivity]).
  rewrite <- C. destruct (Qcompare_spec x 0) as [H|H|H].
  - reflexivity.
  - assert (N : 0 < - x) by lra.
    assert (E' : - x == - y) by now rewrite E.
    now rewrite (round_pos_comp N E').
  - now apply round_pos_comp.
Qed.

#[global] Instance round_proper : Proper (Qeq ==> Qeq) round.
Proof. intros x y E. now rewrite (round_comp E). Qed.

Lemma round_nonneg x : 0 <= x -> 0 <= round x.
Proof.
  intros H. destruct (Qle_lt_or_eq _ _ H) as [P|Z].
  - rewrite (round_pos_val P). now apply round_pos_nonneg.
  - rewrite round_zero; [apply Qle_refl | now symmetry].
Qed.

Lemma round_nonpos x : x <= 0 -> round x <= 0.
Proof.
  intros H. destruct (Qle_lt_or_eq _ _ H) as [P|Z].
  - rewrite (round_neg_val P).
    assert (N : 0 < - x) by lra. pose proof (round_pos_nonneg N). lra.
  - rewrite round_zero; [apply Qle_refl | assumption].
Qed.

(** Rounding keeps the order. *)
Lemma round_mono x y : x <= y -> round x <= round y.
Proof.
  intros H. destruct (Qlt_le_dec 0 x) as [Px|Nx].
  - assert (Py : 0 < y) by lra.
    rewrite (round_pos_val Px), (round_pos_val Py). now apply round_pos_mono.
  - destruct (Qlt_le_dec y 0) as [Ny|Py].
    + assert (Nx' : x < 0) by lra.
      rewrite (round_neg_val Nx'), (round_neg_val Ny).
      assert (A : 0 < - y) by lra. assert (B : - y <= - x) by lra.
      pose proof (round_pos_mono A B). lra.
    + apply Qle_trans with 0; [now apply round_nonpos | now apply round_nonneg].
Qed.

Lemma round_opp x : round (- x) == - round x.
Proof.
  destruct (Qcompare_spec x 0) as [H|H|H].
  - rewrite (round_zero H), round_zero; [reflexivity | lra].
  - assert (N : 0 < - x) by lra.
    rewrite (round_pos_val N), (round_neg_val H). ring.
  - assert (N : - x < 0) by lra.
    rewrite (round_neg_val N), (round_pos_val H).
    assert (P : 0 < - - x) by lra.
    assert (E : - - x == x) by ring. now rewrite (round_pos_comp P E).
Qed.

(** A binary64 number rounds to itself, and rounding gives one. *)
Lemma round_rep x : representable x -> round x == x.
Proof.
  intros R. destruct (Qcompare_spec x 0) as [H|H|H].
  - rewrite (round_zero H). now symmetry.
  - rewrite (round_neg_val H).
    assert (N : 0 < - x) by lra.
    rewrite (round_pos_rep N (Rep_opp R)). ring.
  - rewrite (round_pos_val H). now apply round_pos_rep.
Qed.

Lemma Rep_0 : representable 0.
Proof. exists 0%Z, 0%Z. split; [lia|]. split; reflexivity. Qed.

Lemma round_is_rep x : representable (round x).
Proof.
  destruct (Qcompare_spec x 0) as [H|H|H].
  - apply Rep_comp with 0; [symmetry; now apply round_zero | apply Rep_0].
  - assert (N : 0 < - x) by lra.
    apply Rep_comp with (- round_pos (- x)); [symmetry; now apply round_neg_val|].
    apply Rep_opp. now apply round_pos_is_rep.
  - apply Rep_comp with (round_pos x); [symmetry; now apply round_pos_val|].
    now apply round_pos_is_rep.
Qed.

Lemma round_idem x : round (round x) = round x.
Proof.
  rewrite <- (round_reduced (round x)), <- (round_reduced x).
  apply Qred_complete. rewrite !round_reduced. apply round_rep, round_is_rep.
Qed.

(** A number in lowest terms that is a binary64 number is what it rounds
    to. *)
Lemma round_fixed x : Qred x = x -> representable x -> round x = x.
Proof.
  intros Q R. rewrite <- Q at 2. rewrite <- round_reduced.
  apply Qred_complete. now apply round_rep.
Qed.


Lemma Rep_int n : (Z.abs n <= 2 ^ 53)%Z -> representable (inject_Z n).
Proof.
  intros H. destruct (Z.eq_dec (Z.abs n) (2 ^ 53)) as [E|NE].
  - exists (n / 2)%Z, 1%Z. split; [lia|].
    assert (D : n = (2 * (n / 2))%Z).
    { destruct (Z.abs_spec n) as [[_ A]|[_ A]]; rewrite A in E.
      - rewrite E. reflexivity.
      - replace n with (- 2 ^ 53)%Z by lia. reflexivity. }
    split.
    + destruct (Z.abs_spec n) as [[_ A]|[_ A]]; rewrite A in E.
      * rewrite E. reflexivity.
      * replace n with (- 2 ^ 53)%Z by lia. reflexivity.
    + rewrite D at 1. rewrite inject_Z_mult. change (pow2 1) with 2.
      change (inject_Z 2) with 2. ring.
  - exists n, 0%Z. split; [lia|]. split; [lia|]. change (pow2 0) with 1. ring.
Qed.

Lemma round_int n : (Z.abs n <= 2 ^ 53)%Z -> round (inject_Z n) == inject_Z n.
Proof. intros H. now apply round_rep, Rep_int. Qed.

(** A binary64 number is a multiple of the least one. *)
Lemma Rep_grid x : representable x -> exists M : Z, x == inject_Z M * pow2 (-1074).
Proof.
  intros [N [k [H1 [_ H3]]]]. exists (N * 2 ^ (k + 1074))%Z.
  rewrite H3, inject_Z_mult, <- (@pow2_nat (k + 1074)) by lia.
  rewrite <- Qmult_assoc, <- pow2_add. now replace (k + 1074 + -1074)%Z with k by lia.
Qed.

(** The difference of two different binary64 numbers does not round to
    0, and neither does the difference of two different integers. *)
Lemma round_diff_pos a b :
  representable a -> representable b -> a < b -> 0 < round (b - a).
Proof.
  intros Ra Rb H. destruct (Rep_grid Ra) as [Ma Ea]. destruct (Rep_grid Rb) as [Mb Eb].
  pose proof (pow2_pos (-1074)) as P.
  assert (E : b - a == inject_Z (Mb - Ma) * pow2 (-1074)).
  { unfold Z.sub. rewrite inject_Z_plus, inject_Z_opp, Ea, Eb. ring. }
  assert (L : (0 < Mb - Ma)%Z).
  { rewrite Zlt_Qlt. apply Qmult_lt_r with (pow2 (-1074)); [assumption|].
    rewrite <- E. change (inject_Z 0) with 0. lra. }
  assert (U : representable (pow2 (-1074))).
  { exists 1%Z, (-1074)%Z. split; [lia|]. split; [reflexivity|].
    change (inject_Z 1) with 1. ring. }
  apply Qlt_le_trans with (round (pow2 (-1074))).
  - now rewrite (round_rep U).
  - apply round_mono. rewrite E.
    apply Qle_trans with (inject_Z 1 * pow2 (-1074));
      [change (inject_Z 1) with 1; lra|].
    apply Qmult_le_compat_r; [rewrite <- Zle_Qle; lia | lra].
Qed.

Lemma round_int_diff_pos (a b : Z) :
  (a < b)%Z -> 0 < round (inject_Z b - inject_Z a).
Proof.
  intros H. apply Qlt_le_trans with (round 1); [reflexivity|].
  apply round_mono. unfold Qminus. rewrite <- inject_Z_opp, <- inject_Z_plus.
  change 1 with (inject_Z 1). rewrite <- Zle_Qle. lia.
Qed.

End F64Facts.


(* ------------------------------------------------------------------ *)
(** ** Facts about strings                                             *)
(* ------------------------------------------------------------------ *)

Module PyStrFacts.

Import PyStr.

Lemma startswith_iff p s :
  startswith p s = true <-> exists post, s = p ++ post.
Proof.
  revert s; induction p as [|a p IH]; intros s; simpl.
  - split; [intros _; now exists s | trivial].
  - destruct s as [|b s].
    + split; [discriminate | intros [post H]; discriminate].
    + rewrite andb_true_iff, Ascii.eqb_eq, IH. split.
      * intros [-> [post ->]]. now exists post.
      * intros [post H]. injection H as -> ->. split; [reflexivity | now exists post].
Qed.

Lemma contains_iff p s :
  contains p s = true <-> exists pre post, s = pre ++ p ++ post.
Proof.
  induction s as [|b s IH].
  - simpl. rewrite orb_false_r, startswith_iff. split.
    + intros [post H]. now exists EmptyString, post.
    + intros [pre [post H]]. destruct pre; simpl in H.
      * now exists post.
      * discriminate.
  - cbn [contains]. rewrite orb_true_iff, startswith_iff, IH. split.
    + intros [[post H] | [pre [post H]]].
      * now exists EmptyString, post.
      * exists (String b pre), post. simpl. now rewrite H.
    + intros [pre [post H]]. destruct pre as [|c pre]; simpl in H.
      * left. now exists post.
      * right. injection H as _ H. now exists pre, post.
Qed.

Lemma lower_app a b : lower (a ++ b) = lower a ++ lower b.
Proof. induction a as [|c a IH]; simpl; [reflexivity | now rewrite IH]. Qed.

(** A split of [lower s] comes from a split of [s]. *)
Lemma lower_split s : forall x y,
  lower s = x ++ y -> exists a b, s = a ++ b /\ lower a = x /\ lower b = y.
Proof.
  induction s as [|c s IH]; intros x y H.
  - destruct x; simpl in H; [|discriminate].
    exists EmptyString, EmptyString. simpl. auto.
  - destruct x as [|d x]; simpl in H.
    + exists EmptyString, (String c s). simpl. auto.
    + injection H as Hd H. destruct (IH _ _ H) as [a [b [-> [Ha Hb]]]].
      exists (String c a), b. simpl. now rewrite Hd, Ha, Hb.
Qed.

(** The test [k in s.lower()] is the case-insensitive occurrence. *)
Lemma contains_lower_iff k s :
  contains k (lower s) = true <-> occurs_ci k s.
Proof.
  rewrite contains_iff. split.
  - intros [x [y H]].
    destruct (lower_split _ _ _ H) as [pre [rest [-> [Hpre Hrest]]]].
    destruct (lower_split _ _ _ Hrest) as [mid [post [-> [Hmid Hpost]]]].
    now exists pre, mid, post.
  - intros [pre [mid [post [-> Hmid]]]].
    exists (lower pre), (lower post). now rewrite !lower_app, Hmid.
Qed.

Lemma mem_iff x l : mem x l = true <-> In x l.
Proof.
  unfold mem. rewrite existsb_exists. split.
  - intros [y [Hy E]]. apply String.eqb_eq in E. now subst.
  - intros H. exists x. split; [assumption | apply String.eqb_refl].
Qed.

Lemma mem_false_iff x l : mem x l = false <-> ~ In x l.
Proof.
  rewrite <- mem_iff. destruct (mem x l); split; intros; congruence.
Qed.

End PyStrFacts.

(* ------------------------------------------------------------------ *)
(** ** Facts about data frames                                         *)
(* ------------------------------------------------------------------ *)

Module FrameFacts.

Import DF Frame PyStrFacts.

Lemma has_column_iff df c : has_column df c = true <-> In c (column_names df).
Proof. apply mem_iff. Qed.

Lemma get_some df c col :
  get df c = Some col -> In col (columns df) /\ cname col = c.
Proof.
  unfold get. intros H. apply find_some in H. destruct H as [H1 H2].
  apply String.eqb_eq in H2. auto.
Qed.

Lemma get_none df c : get df c = None <-> ~ In c (column_names df).
Proof.
  unfold get, column_names. split.
  - intros H Hin. apply in_map_iff in Hin. destruct Hin as [col [E Hin]].
    apply (find_none _ _ H) in Hin. rewrite E, String.eqb_refl in Hin. discriminate.
  - intros H. destruct (find _ _) as [col|] eqn:F; [|reflexivity].
    apply find_some in F. destruct F as [F1 F2]. apply String.eqb_eq in F2.
    exfalso. apply H. apply in_map_iff. exists col. auto.
Qed.

Lemma same_name_same_column (l : list Column) a b :
  NoDup (map cname l) -> In a l -> In b l -> cname a = cname b -> a = b.
Proof.
  induction l as [|x l IH]; simpl; intros ND Ha Hb E; [contradiction|].
  inversion ND as [|? ? Hx ND']; subst.
  destruct Ha as [->|Ha], Hb as [->|Hb]; auto.
  - exfalso. apply Hx. rewrite E. now apply in_map.
  - exfalso. apply Hx. rewrite <- E. now apply in_map.
Qed.

Lemma get_in df col :
  NoDup (column_names df) -> In col (columns df) -> get df (cname col) = Some col.
Proof.
  intros ND Hin. destruct (get df (cname col)) as [col'|] eqn:G.
  - apply get_some in G. destruct G as [G1 G2].
    f_equal. now apply (same_name_same_column (columns df)).
  - apply get_none in G. exfalso. apply G. now apply in_map.
Qed.

Lemma step_index f acc c : index (step f acc c) = index acc.
Proof.
  unfold step, assign. destruct (get acc c); [|reflexivity].
  now destruct (has_column acc c).
Qed.

Lemma step_names f acc c : column_names (step f acc c) = column_names acc.
Proof.
  unfold step. destruct (get acc c) as [col|] eqn:G; [|reflexivity].
  apply get_some in G. destruct G as [G1 G2].
  unfold assign. assert (H : has_column acc c = true).
  { apply has_column_iff. subst c. now apply in_map. }
  rewrite H. unfold column_names. simpl. rewrite map_map.
  apply map_ext. intros x. destruct (String.eqb c (cname x)) eqn:E; [|reflexivity].
  apply String.eqb_eq in E. now simpl.
Qed.

Lemma step_columns f acc c :
  NoDup (column_names acc) ->
  columns (step f acc c) = map (update_where [c] f) (columns acc).
Proof.
  intros ND. unfold step. destruct (get acc c) as [col|] eqn:G.
  - destruct (get_some _ _ G) as [G1 G2].
    unfold assign. assert (H : has_column acc c = true).
    { apply has_column_iff. subst c. now apply in_map. }
    rewrite H. simpl. apply map_ext_in. intros x Hx.
    unfold update_where, PyStr.mem. simpl. rewrite orb_false_r.
    rewrite (String.eqb_sym (cname x) c).
    destruct (String.eqb c (cname x)) eqn:E; [|reflexivity].
    apply String.eqb_eq in E.
    assert (x = col) as ->.
    { apply (same_name_same_column (columns acc)); auto. now rewrite G2. }
    now rewrite G2.
  - rewrite <- (map_id (columns acc)) at 1. apply map_ext_in. intros x Hx.
    unfold update_where. replace (PyStr.mem (cname x) [c]) with false; [reflexivity|].
    symmetry. apply mem_false_iff. intros [E|[]].
    apply get_none in G. apply G. rewrite E. now apply in_map.
Qed.

Lemma for_columns_index names f : forall df,
  index (for_columns names f df) = index df.
Proof.
  unfold for_columns. induction names as [|c names IH]; intros df; simpl; [reflexivity|].
  fold (step f df c). now rewrite IH, step_index.
Qed.

(** A loop that assigns to existing columns neither renames, drops nor
    reorders columns. *)
Lemma for_columns_names names f : forall df,
  column_names (for_columns names f df) = column_names df.
Proof.
  unfold for_columns. induction names as [|c names IH]; intros df; simpl; [reflexivity|].
  fold (step f df c). now rewrite IH, step_names.
Qed.

(** With unique labels the loop is a map over the columns. *)
Lemma for_columns_columns names f : forall df,
  NoDup (column_names df) -> NoDup names ->
  columns (for_columns names f df) = map (update_where names f) (columns df).
Proof.
  unfold for_columns. induction names as [|c names IH]; intros df ND NDn; simpl.
  - rewrite <- (map_id (columns df)) at 1. reflexivity.
  - fold (step f df c). inversion NDn as [|? ? Hc NDn']; subst.
    rewrite IH; [|now rewrite step_names|assumption].
    rewrite step_columns by assumption. rewrite map_map.
    apply map_ext. intros x. unfold update_where, PyStr.mem. simpl.
    destruct (String.eqb (cname x) c) eqn:E; simpl; [|reflexivity].
    apply String.eqb_eq in E.
    assert (M : PyStr.mem (cname x) names = false)
      by (apply mem_false_iff; now rewrite E).
    unfold PyStr.mem in M. now rewrite M.
Qed.

Lemma nodup_map_filter (p : Column -> bool) (l : list Column) :
  NoDup (map cname l) -> NoDup (map cname (filter p l)).
Proof.
  induction l as [|x l IH]; simpl; intros ND; [constructor|].
  inversion ND as [|? ? Hx ND']; subst.
  destruct (p x); simpl; auto. constructor; auto.
  intros Hin. apply Hx. apply in_map_iff in Hin. destruct Hin as [y [E Hy]].
  apply filter_In in Hy. apply in_map_iff. exists y. tauto.
Qed.

End FrameFacts.

(* ------------------------------------------------------------------ *)
(** ** The column loops as maps                                        *)
(* ------------------------------------------------------------------ *)

Module LoopFacts.

Import DF Frame PyStrFacts FrameFacts.

Lemma nodup_numeric_names df :
  NoDup (column_names df) -> NoDup (numeric_names df).
Proof. apply nodup_map_filter. Qed.

Lemma nodup_object_names df :
  NoDup (column_names df) -> NoDup (object_names df).
Proof. apply nodup_map_filter. Qed.

Lemma mem_filter_names (p : string -> bool) df col :
  In col (columns df) ->
  PyStr.mem (cname col) (filter p (column_names df)) = p (cname col).
Proof.
  intros Hin. destruct (p (cname col)) eqn:E.
  - apply mem_iff, filter_In. split; [now apply in_map | assumption].
  - apply mem_false_iff. rewrite filter_In. intros [_ H]. congruence.
Qed.

Lemma mem_names_of_filter (p : Column -> bool) df col :
  NoDup (column_names df) -> In col (columns df) ->
  PyStr.mem (cname col) (map cname (filter p (columns df))) = p col.
Proof.
  intros ND Hin. destruct (p col) eqn:E.
  - apply mem_iff, in_map, filter_In. auto.
  - apply mem_false_iff. intros H. apply in_map_iff in H.
    destruct H as [x [Hx Hf]]. apply filter_In in Hf. destruct Hf as [Hf1 Hf2].
    assert (x = col) by (now apply (same_name_same_column (columns df))).
    congruence.
Qed.

(** [standardize_dtypes] treats every column by its own name and dtype. *)
Lemma standardize_dtypes_columns P df :
  NoDup (column_names df) ->
  columns (Cleaning.standardize_dtypes P df) =
  map (fun col => mkColumn (cname col) (Cleaning.standardize_column P col)) (columns df).
Proof.
  intros ND. unfold Cleaning.standardize_dtypes.
  rewrite for_columns_columns by assumption.
  apply map_ext_in. intros col Hin. unfold update_where.
  replace (PyStr.mem (cname col) (column_names df)) with true; [reflexivity|].
  symmetry. apply mem_iff. now apply in_map.
Qed.

(** [parse_date_columns] parses the date-like columns and leaves the
    others as they are. *)
Lemma parse_date_columns_columns P df :
  NoDup (column_names df) ->
  columns (CleaningDeep.parse_date_columns P df) =
  map (fun col => if CleaningDeep.is_date_like (cname col)
                  then mkColumn (cname col) (Cleaning.to_datetime P (cdata col))
                  else col) (columns df).
Proof.
  intros ND. unfold CleaningDeep.parse_date_columns.
  rewrite for_columns_columns; [|assumption|now apply NoDup_filter].
  apply map_ext_in. intros col Hin. unfold update_where.
  now rewrite mem_filter_names.
Qed.

Lemma standardize_dtypes_names P df :
  column_names (Cleaning.standardize_dtypes P df) = column_names df.
Proof. apply for_columns_names. Qed.

Lemma parse_date_columns_names P df :
  column_names (CleaningDeep.parse_date_columns P df) = column_names df.
Proof. apply for_columns_names. Qed.

End LoopFacts.

(* ------------------------------------------------------------------ *)
(** ** C5: which columns are date-like                                 *)
(* ------------------------------------------------------------------ *)

Import DF Frame PyStrFacts FrameFacts LoopFacts.

(** C5, as stated, fails on [standardize_dtypes]: the label [monthsigned]
    contains [signed], yet the column is not taken for a date there; a
    numeric column of that name goes through [to_numeric] and stays
    numeric. *)
Lemma C5_standardize_dtypes_skips_signed :
  occurs_ci "signed" "monthsigned" /\
  Cleaning.is_date_name "monthsigned" = false /\
  Cleaning.standardize_column Sample.pandas
    (mkColumn "monthsigned" (NumCol [Some 2; Some 11])) = NumCol [Some 2; Some 11].
Proof.
  split; [|split; reflexivity].
  exists "month", "signed", "". split; reflexivity.
Qed.

(** C5, amended: [parse_date_columns] takes a column for a date, and
    parses it, exactly when its label contains "date" or "signed" without
    regard to case; [standardize_dtypes] does so exactly when the label
    contains "date" without regard to case.  Every other column is left
    unparsed by [parse_date_columns]. *)
Theorem C5_date_like_columns P df :
  NoDup (column_names df) ->
  (forall c, CleaningDeep.is_date_like c = true <->
             occurs_ci "date" c \/ occurs_ci "signed" c) /\
  (forall c, Cleaning.is_date_name c = true <-> occurs_ci "date" c) /\
  (forall col, In col (columns df) ->
     (occurs_ci "date" (cname col) \/ occurs_ci "signed" (cname col) ->
      get (CleaningDeep.parse_date_columns P df) (cname col) =
        Some (mkColumn (cname col) (Cleaning.to_datetime P (cdata col)))) /\
     (~ (occurs_ci "date" (cname col) \/ occurs_ci "signed" (cname col)) ->
      get (CleaningDeep.parse_date_columns P df) (cname col) = Some col)) /\
  (forall col, In col (columns df) ->
     (occurs_ci "date" (cname col) ->
      get (Cleaning.standardize_dtypes P df) (cname col) =
        Some (mkColumn (cname col) (Cleaning.to_datetime P (cdata col)))) /\
     (~ occurs_ci "date" (cname col) ->
      get (Cleaning.standardize_dtypes P df) (cname col) =
        Some (mkColumn (cname col)
                (match cdata col with
                 | ObjCol c => ObjCol (map Cleaning.clean_text c)
                 | d => Cleaning.to_numeric_ignore P d
                 end)))).
Proof.
  intros ND.
  assert (L : forall c, CleaningDeep.is_date_like c = true <->
                        occurs_ci "date" c \/ occurs_ci "signed" c).
  { intros c. unfold CleaningDeep.is_date_like. simpl.
    rewrite orb_false_r, orb_true_iff, !contains_lower_iff. tauto. }
  assert (N : forall c, Cleaning.is_date_name c = true <-> occurs_ci "date" c).
  { intros c. apply contains_lower_iff. }
  split; [exact L|]. split; [exact N|]. split.
  - intros col Hin.
    set (g := fun col => if CleaningDeep.is_date_like (cname col)
                         then mkColumn (cname col) (Cleaning.to_datetime P (cdata col))
                         else col).
    assert (G : get (CleaningDeep.parse_date_columns P df) (cname col) = Some (g col)).
    { replace (cname col) with (cname (g col))
        by (unfold g; now destruct (CleaningDeep.is_date_like (cname col))).
      apply get_in.
      - now rewrite parse_date_columns_names.
      - rewrite parse_date_columns_columns by assumption. now apply in_map. }
    rewrite G. unfold g. split; intros H.
    + apply L in H. now rewrite H.
    + destruct (CleaningDeep.is_date_like (cname col)) eqn:E; [|reflexivity].
      exfalso. apply H, L, E.
  - intros col Hin.
    assert (G : get (Cleaning.standardize_dtypes P df) (cname col) =
                Some (mkColumn (cname col) (Cleaning.standardize_column P col))).
    { change (cname col) with
        (cname (mkColumn (cname col) (Cleaning.standardize_column P col))) at 1.
      apply get_in.
      - now rewrite standardize_dtypes_names.
      - rewrite standardize_dtypes_columns by assumption.
        apply in_map_iff. now exists col. }
    rewrite G. unfold Cleaning.standardize_column. split; intros H.
    + apply N in H. now rewrite H.
    + destruct (Cleaning.is_date_name (cname col)) eqn:E.
      * exfalso. apply H, N, E.
      * now destruct (cdata col).
Qed.

(* ------------------------------------------------------------------ *)
(** ** C8: the keys of the groups                                      *)
(* ------------------------------------------------------------------ *)

Lemma assign_names_new df c d :
  has_column df c = false ->
  column_names (assign df c d) = (column_names df ++ [c])%list.
Proof.
  intros H. unfold assign. rewrite H. unfold column_names. simpl.
  now rewrite map_app.
Qed.

Lemma assign_names_old df c d :
  has_column df c = true ->
  column_names (assign df c d) = column_names df.
Proof.
  intros H. unfold assign. rewrite H. unfold column_names. simpl.
  rewrite map_map. apply map_ext. intros x.
  destruct (String.eqb c (cname x)) eqn:E; [|reflexivity].
  apply String.eqb_eq in E. now simpl.
Qed.

(** [create_year_quarter] adds the label [year_quarter], last, when the
    table has a year and a quarter and no such label yet; it changes no
    label otherwise. *)
Lemma create_year_quarter_names P df :
  column_names (Cleaning.create_year_quarter P df) =
  if has_column df "year" && has_column df "quarter" && negb (has_column df "year_quarter")
  then (column_names df ++ ["year_quarter"])%list
  else column_names df.
Proof.
  unfold Cleaning.create_year_quarter.
  destruct (get df "year") as [y|] eqn:Gy.
  - assert (Hy : has_column df "year" = true).
    { apply has_column_iff. destruct (get_some _ _ Gy) as [G1 G2].
      rewrite <- G2. now apply in_map. }
    rewrite Hy. destruct (get df "quarter") as [q|] eqn:Gq.
    + assert (Hq : has_column df "quarter" = true).
      { apply has_column_iff. destruct (get_some _ _ Gq) as [G1 G2].
        rewrite <- G2. now apply in_map. }
      rewrite Hq. simpl. destruct (has_column df "year_quarter") eqn:Hyq; simpl.
      * now apply assign_names_old.
      * now apply assign_names_new.
    + assert (Hq : has_column df "quarter" = false).
      { apply mem_false_iff. now apply get_none. }
      now rewrite Hq.
  - assert (Hy : has_column df "year" = false).
    { apply mem_false_iff. now apply get_none. }
    now rewrite Hy.
Qed.

(** C8, as stated, fails on the unemployment dataset: with the labels
    [state], [year], [rate] the only candidate present is [state], and
    [main] groups by [state] and [year]. *)
Lemma C8_unemployment_keys_differ :
  let unemp :=
    {| index := [0; 1]%nat;
       columns := [ mkColumn "state" (ObjCol [Some (VStr "TX"); Some (VStr "NY")]);
                    mkColumn "year" (NumCol [Some 2019; Some 2020]);
                    mkColumn "rate" (NumCol [Some (7 # 2); Some 4]) ] |} in
  present_candidates unemp = ["state"] /\
  Cleaning.main_keys Sample.pandas Cleaning.Unemployment unemp = ["state"; "year"].
Proof. split; reflexivity. Qed.

(** C8, amended: for the leases, occupancy and price/availability
    datasets the keys are the candidates of the fixed list that are labels
    of the table once [create_year_quarter] has run, in the order of the
    list, and the defaults [market], [year_quarter] exactly when no
    candidate is a label; [year_quarter] counts as present when the table
    has that label or has both [year] and [quarter].  For the unemployment
    dataset the keys are [state], [year] when both are labels and [year]
    alone otherwise. *)
Theorem C8_group_keys P d df :
  match d with
  | Cleaning.Unemployment =>
      Cleaning.main_keys P d df =
      if PyStr.mem "state" (column_names df) && PyStr.mem "year" (column_names df)
      then ["state"; "year"] else ["year"]
  | _ =>
      let present := present_candidates (Cleaning.prepared P d df) in
      Cleaning.main_keys P d df =
        match present with [] => ["market"; "year_quarter"] | _ => present end /\
      (forall k, In k present <->
                 In k Cleaning.possible /\
                 (In k (column_names df) \/
                  k = "year_quarter" /\
                  In "year" (column_names df) /\ In "quarter" (column_names df)))
  end.
Proof.
  assert (K : forall k,
    In k (present_candidates (Cleaning.create_year_quarter P df)) <->
    In k Cleaning.possible /\
    (In k (column_names df) \/
     k = "year_quarter" /\ In "year" (column_names df) /\ In "quarter" (column_names df))).
  { intros k. unfold present_candidates. rewrite filter_In, mem_iff.
    rewrite create_year_quarter_names.
    destruct (has_column df "year") eqn:Hy; simpl.
    - apply has_column_iff in Hy.
      destruct (has_column df "quarter") eqn:Hq; simpl.
      + apply has_column_iff in Hq.
        destruct (has_column df "year_quarter") eqn:Hyq; simpl.
        * apply has_column_iff in Hyq. split; [tauto|].
          intros [H1 [H2|[-> _]]]; auto.
        * rewrite in_app_iff. simpl. split.
          -- intros [H1 [H2|[H2|[]]]]; auto.
          -- intros [H1 [H2|[H2 _]]]; auto.
      + apply mem_false_iff in Hq. unfold has_column in Hq. tauto.
    - apply mem_false_iff in Hy. unfold has_column in Hy. tauto. }
  destruct d; simpl; try (split; [reflexivity | exact K]).
  reflexivity.
Qed.

(* ------------------------------------------------------------------ *)
(** ** C4: values that do not convert                                  *)
(* ------------------------------------------------------------------ *)

Lemma all_numeric_fails P cells : forall i s,
  nth i cells None = Some (VStr s) -> str_to_float P s = None ->
  Cleaning.all_numeric P cells = None.
Proof.
  induction cells as [|c cells IH]; intros i s Hn Hs.
  - destruct i; discriminate.
  - destruct i as [|i]; simpl in Hn.
    + subst c. simpl. now rewrite Hs.
    + simpl. rewrite (IH _ _ Hn Hs). now destruct (Cleaning.numeric_of P c).
Qed.

Lemma cell_at_objects d i : cell_at d i = nth i (objects d) None.
Proof.
  destruct d as [c|c|c]; simpl; [|reflexivity|].
  - change (@None value) with (option_map VNum None). now rewrite map_nth.
  - change (@None value) with (option_map VDate None). now rewrite map_nth.
Qed.

Lemma to_datetime_cell P d i :
  is_datetime d = false ->
  cell_at (Cleaning.to_datetime P d) i =
  match cell_at d i with
  | Some v => option_map VDate (to_datetime_scalar P (objects d) v)
  | None => None
  end.
Proof.
  intros Hd. rewrite (cell_at_objects d).
  set (f := fun x : option value => match x with
                                    | Some v => to_datetime_scalar P (objects d) v
                                    | None => None
                                    end).
  assert (E : Cleaning.to_datetime P d = DateCol (map f (objects d))).
  { destruct d; try discriminate; reflexivity. }
  rewrite E. simpl. change (@None Timestamp) with (f None). rewrite map_nth.
  now destruct (nth i (objects d) None).
Qed.

(** C4, as stated, fails on numeric coercion: the string [unknown] is no
    number, and [minimal_clean_with_dates] writes it out as it came in,
    next to [2019], which stays a string as well. *)
Lemma C4_failed_number_is_kept :
  let input :=
    {| index := [0; 1]%nat;
       columns := [ mkColumn "year" (ObjCol [Some (VStr "2019"); Some (VStr "unknown")]);
                    mkColumn "rent" (NumCol [Some 10; Some 12]) ] |} in
  str_to_float Sample.pandas "unknown" = None /\
  Cleaning.to_numeric_ignore Sample.pandas
    (ObjCol [Some (VStr "2019"); Some (VStr "unknown")]) =
    ObjCol [Some (VStr "2019"); Some (VStr "unknown")] /\
  get (CleaningDeep.minimal_clean_with_dates Sample.pandas input) "year" =
    Some (mkColumn "year" (ObjCol [Some (VStr "2019"); Some (VStr "unknown")])).
Proof. repeat split; reflexivity. Qed.

(** C4, amended: no conversion raises an error.  A string that is no
    number defeats [to_numeric] for its whole column, which is returned
    unchanged, so that the string stays in place and nothing becomes
    missing; in [standardize_dtypes] the coercion only meets columns that
    are numeric already and returns them as they are.  A value that
    [to_datetime] cannot parse becomes a missing value, in every column
    that [parse_date_columns] or [standardize_dtypes] takes for a date. *)
Theorem C4_failed_conversions P :
  (forall cells i s,
     nth i cells None = Some (VStr s) -> str_to_float P s = None ->
     Cleaning.to_numeric_ignore P (ObjCol cells) = ObjCol cells /\
     cell_at (Cleaning.to_numeric_ignore P (ObjCol cells)) i = Some (VStr s)) /\
  (forall name cells,
     Cleaning.is_date_name name = false ->
     Cleaning.standardize_column P (mkColumn name (NumCol cells)) = NumCol cells) /\
  (forall d i v,
     is_datetime d = false ->
     cell_at d i = Some v -> to_datetime_scalar P (objects d) v = None ->
     cell_at (Cleaning.to_datetime P d) i = None) /\
  (forall df col i v,
     NoDup (column_names df) -> In col (columns df) ->
     is_datetime (cdata col) = false ->
     cell_at (cdata col) i = Some v ->
     to_datetime_scalar P (objects (cdata col)) v = None ->
     (CleaningDeep.is_date_like (cname col) = true ->
      exists d, get (CleaningDeep.parse_date_columns P df) (cname col) =
                  Some (mkColumn (cname col) d) /\ cell_at d i = None) /\
     (Cleaning.is_date_name (cname col) = true ->
      exists d, get (Cleaning.standardize_dtypes P df) (cname col) =
                  Some (mkColumn (cname col) d) /\ cell_at d i = None)).
Proof.
  assert (D : forall d i v,
     is_datetime d = false ->
     cell_at d i = Some v -> to_datetime_scalar P (objects d) v = None ->
     cell_at (Cleaning.to_datetime P d) i = None).
  { intros d i v Hd Hc Hv. rewrite to_datetime_cell by assumption.
    now rewrite Hc, Hv. }
  split; [|split; [|split; [exact D|]]].
  - intros cells i s Hn Hs. unfold Cleaning.to_numeric_ignore.
    rewrite (all_numeric_fails P cells i Hn Hs). simpl. auto.
  - intros name cells Hname. unfold Cleaning.standardize_column. simpl.
    now rewrite Hname.
  - intros df col i v ND Hin Hd Hc Hv. split; intros Hname.
    + exists (Cleaning.to_datetime P (cdata col)). split; [|now apply (D _ _ v)].
      change (cname col) with
        (cname (mkColumn (cname col) (Cleaning.to_datetime P (cdata col)))) at 1.
      apply get_in; [now rewrite parse_date_columns_names|].
      rewrite parse_date_columns_columns by assumption.
      apply in_map_iff. exists col. now rewrite Hname.
    + exists (Cleaning.to_datetime P (cdata col)). split; [|now apply (D _ _ v)].
      change (cname col) with
        (cname (mkColumn (cname col) (Cleaning.to_datetime P (cdata col)))) at 1.
      apply get_in; [now rewrite standardize_dtypes_names|].
      rewrite standardize_dtypes_columns by assumption.
      apply in_map_iff. exists col. unfold Cleaning.standardize_column.
      now rewrite Hname.
Qed.

(* ------------------------------------------------------------------ *)
(** ** C10: the minimal cleaner keeps the frame of the table           *)
(* ------------------------------------------------------------------ *)

Module ShapeFacts.

Import CleaningDeep.

Lemma select_rows_names mask df :
  column_names (select_rows mask df) = column_names df.
Proof. unfold column_names, select_rows. simpl. now rewrite map_map. Qed.

Lemma set_at_names df i c z : column_names (set_at df i c z) = column_names df.
Proof. unfold set_at. apply (step_names (fun col => write_int i z (cdata col))). Qed.

Lemma set_at_index df i c z : index (set_at df i c z) = index df.
Proof. unfold set_at. apply (step_index (fun col => write_int i z (cdata col))). Qed.

Lemma fill_row_names cols df i : column_names (fill_row cols df i) = column_names df.
Proof.
  unfold fill_row.
  repeat match goal with
         | |- context [if ?b then _ else _] => destruct b
         | |- context [match first_date ?d ?c ?i with _ => _ end] =>
             destruct (first_date d c i)
         end;
  rewrite ?set_at_names; reflexivity.
Qed.

Lemma fill_row_index cols df i : index (fill_row cols df i) = index df.
Proof.
  unfold fill_row.
  repeat match goal with
         | |- context [if ?b then _ else _] => destruct b
         | |- context [match first_date ?d ?c ?i with _ => _ end] =>
             destruct (first_date d c i)
         end;
  rewrite ?set_at_index; reflexivity.
Qed.

Lemma fill_rows_names cols rows : forall df,
  column_names (fold_left (fill_row cols) rows df) = column_names df.
Proof.
  induction rows as [|i rows IH]; intros df; simpl; [reflexivity|].
  now rewrite IH, fill_row_names.
Qed.

Lemma fill_rows_index cols rows : forall df,
  index (fold_left (fill_row cols) rows df) = index df.
Proof.
  induction rows as [|i rows IH]; intros df; simpl; [reflexivity|].
  now rewrite IH, fill_row_index.
Qed.

Lemma fill_year_qtr_month_names P df :
  column_names (fill_year_qtr_month_from_date P df) = column_names df.
Proof.
  unfold fill_year_qtr_month_from_date. destruct (dt_cols df); [reflexivity|].
  now rewrite for_columns_names, fill_rows_names.
Qed.

Lemma fill_year_qtr_month_index P df :
  index (fill_year_qtr_month_from_date P df) = index df.
Proof.
  unfold fill_year_qtr_month_from_date. destruct (dt_cols df); [reflexivity|].
  now rewrite for_columns_index, fill_rows_index.
Qed.

End ShapeFacts.

(** C10: the table [minimal_clean_with_dates] writes has the column labels
    of the input, each at its place; they are also the labels of the table
    left by the removal of duplicates, whose rows are the rows written. *)
Theorem C10_minimal_clean_keeps_columns P input :
  column_names (CleaningDeep.minimal_clean_with_dates P input) = column_names input /\
  column_names (CleaningDeep.minimal_clean_with_dates P input) =
    column_names (CleaningDeep.drop_duplicates input) /\
  index (CleaningDeep.minimal_clean_with_dates P input) =
    index (CleaningDeep.drop_duplicates input).
Proof.
  unfold CleaningDeep.minimal_clean_with_dates.
  rewrite !for_columns_names, !for_columns_index.
  rewrite ShapeFacts.fill_year_qtr_month_names, ShapeFacts.fill_year_qtr_month_index.
  rewrite parse_date_columns_names.
  unfold CleaningDeep.parse_date_columns. rewrite for_columns_index.
  unfold CleaningDeep.drop_duplicates. rewrite ShapeFacts.select_rows_names.
  auto.
Qed.

(* ------------------------------------------------------------------ *)
(** ** Facts about minimum, maximum and rescaling                      *)
(* ------------------------------------------------------------------ *)

Module NumFacts.

Import Num.

Lemma In_dropna (A : Type) (x : A) (l : list (option A)) :
  In x (dropna l) <-> In (Some x) l.
Proof.
  induction l as [|[y|] l IH]; simpl.
  - tauto.
  - rewrite IH. split; intros [H|H]; auto; left; congruence.
  - rewrite IH. split; [auto | intros [H|H]; [discriminate | assumption]].
Qed.

Lemma dropna_map (A B : Type) (g : A -> B) (l : list (option A)) :
  dropna (map (option_map g) l) = map g (dropna l).
Proof.
  induction l as [|[y|] l IH]; simpl; [reflexivity | now rewrite IH | assumption].
Qed.

Lemma min_values_none v : min_values v = None <-> v = [].
Proof.
  destruct v as [|x v]; simpl; [tauto|].
  destruct (min_values v); split; discriminate.
Qed.

Lemma max_values_none v : max_values v = None <-> v = [].
Proof.
  destruct v as [|x v]; simpl; [tauto|].
  destruct (max_values v); split; discriminate.
Qed.

(** The minimum is a member at most equal to every member. *)
Lemma min_values_spec v : forall m,
  min_values v = Some m -> In m v /\ forall x, In x v -> m <= x.
Proof.
  induction v as [|y v IH]; intros m H; simpl in H; [discriminate|].
  destruct (min_values v) as [m'|] eqn:E.
  - destruct (IH m' eq_refl) as [Hin Hle].
    destruct (Qle_bool y m') eqn:C; injection H as <-.
    + apply Qle_bool_iff in C. split; [now left|].
      intros x [<-|Hx]; [apply Qle_refl|].
      apply Qle_trans with m'; auto.
    + assert (m' < y) by (apply Qnot_le_lt; intros L; apply Qle_bool_iff in L; congruence).
      split; [now right|]. intros x [<-|Hx]; [now apply Qlt_le_weak | auto].
  - injection H as <-. apply min_values_none in E. subst v.
    split; [now left|]. intros x [<-|[]]. apply Qle_refl.
Qed.

(** The maximum is a member at least equal to every member. *)
Lemma max_values_spec v : forall m,
  max_values v = Some m -> In m v /\ forall x, In x v -> x <= m.
Proof.
  induction v as [|y v IH]; intros m H; simpl in H; [discriminate|].
  destruct (max_values v) as [m'|] eqn:E.
  - destruct (IH m' eq_refl) as [Hin Hle].
    destruct (Qle_bool m' y) eqn:C; injection H as <-.
    + apply Qle_bool_iff in C. split; [now left|].
      intros x [<-|Hx]; [apply Qle_refl|].
      apply Qle_trans with m'; auto.
    + assert (y < m') by (apply Qnot_le_lt; intros L; apply Qle_bool_iff in L; congruence).
      split; [now right|]. intros x [<-|Hx]; [now apply Qlt_le_weak | auto].
  - injection H as <-. apply max_values_none in E. subst v.
    split; [now left|]. intros x [<-|[]]. apply Qle_refl.
Qed.

(** Two rationals in lowest terms that are equal as rationals are the
    same. *)
Lemma reduced_eq a b : Qred a = a -> Qred b = b -> a == b -> a = b.
Proof. intros Ha Hb E. rewrite <- Ha, <- Hb. now apply Qred_complete. Qed.

(** Among values in lowest terms, a member below all the others is the
    minimum. *)
Lemma min_values_is v m :
  (forall x, In x v -> Qred x = x) ->
  In m v -> (forall x, In x v -> m <= x) -> min_values v = Some m.
Proof.
  intros R Hin Hle. destruct (min_values v) as [y|] eqn:E.
  - destruct (min_values_spec _ E) as [Hy Hy'].
    f_equal. apply reduced_eq; auto. apply Qle_antisym; auto.
  - apply min_values_none in E. subst v. contradiction.
Qed.

Lemma max_values_is v m :
  (forall x, In x v -> Qred x = x) ->
  In m v -> (forall x, In x v -> x <= m) -> max_values v = Some m.
Proof.
  intros R Hin Hle. destruct (max_values v) as [y|] eqn:E.
  - destruct (max_values_spec _ E) as [Hy Hy'].
    f_equal. apply reduced_eq; auto. apply Qle_antisym; auto.
  - apply max_values_none in E. subst v. contradiction.
Qed.

Lemma round_0 : F64.round 0 = 0.
Proof. reflexivity. Qed.

Lemma round_1 : F64.round 1 = 1.
Proof. reflexivity. Qed.

Lemma Qred_twice q : Qred (Qred q) = Qred q.
Proof. apply Qred_complete, Qred_correct. Qed.

Lemma div_reduced a b : Qred (div a b) = div a b.
Proof. apply F64Facts.round_reduced. Qed.

(** The rounded difference of two ordered numbers. *)
Lemma sub_nonneg x y : y <= x -> 0 <= sub x y.
Proof. intros H. unfold sub. apply F64Facts.round_nonneg. lra. Qed.

Lemma sub_le x y z : x <= y -> sub x z <= sub y z.
Proof. intros H. unfold sub. apply F64Facts.round_mono. lra. Qed.

(** The rounded quotient of two ordered numbers that are not negative
    lies between 0 and 1. *)
Lemma div_unit a b : 0 <= a -> a <= b -> 0 <= div a b /\ div a b <= 1.
Proof.
  intros Ha Hab. unfold div.
  destruct (Qle_lt_or_eq 0 b) as [P|Z]; [lra | |].
  - split.
    + apply Qle_trans with (F64.round 0); [rewrite round_0; apply Qle_refl|].
      apply F64Facts.round_mono. apply Qle_shift_div_l; [assumption | lra].
    + apply Qle_trans with (F64.round 1); [|rewrite round_1; apply Qle_refl].
      apply F64Facts.round_mono. apply Qle_shift_div_r; [assumption | lra].
  - assert (E : a / b == 0).
    { rewrite <- Z. unfold Qdiv. change (/ 0) with 0. ring. }
    rewrite (F64Facts.round_comp E), round_0. split; lra.
Qed.

(** The rescaled value lies between 0 and 1. *)
Lemma rescale_bounds x mi mx :
  mi <= x -> x <= mx ->
  0 <= div (sub x mi) (sub mx mi) /\ div (sub x mi) (sub mx mi) <= 1.
Proof.
  intros H1 H2. apply div_unit; [now apply sub_nonneg | now apply sub_le].
Qed.

End NumFacts.

(* ------------------------------------------------------------------ *)
(** ** C3: the normalizer                                              *)
(* ------------------------------------------------------------------ *)

Module NormalizeFacts.

Import NumFacts.

Lemma eta_column col : mkColumn (cname col) (cdata col) = col.
Proof. now destruct col. Qed.

(** With unique labels [normalize] rescales every numeric column on its
    own and leaves the others as they are. *)
Lemma normalize_columns df :
  NoDup (column_names df) ->
  columns (Cleaning.normalize df) =
  map (fun col => mkColumn (cname col) (Cleaning.normalize_column col)) (columns df).
Proof.
  intros ND. unfold Cleaning.normalize.
  rewrite for_columns_columns; [|assumption|now apply nodup_numeric_names].
  apply map_ext_in. intros col Hin. unfold update_where, numeric_names.
  rewrite mem_names_of_filter by assumption.
  unfold Cleaning.normalize_column.
  destruct col as [n [c|c|c]]; reflexivity.
Qed.

Lemma normalize_names df : column_names (Cleaning.normalize df) = column_names df.
Proof. apply for_columns_names. Qed.

Lemma normalize_get df col :
  NoDup (column_names df) -> In col (columns df) ->
  get (Cleaning.normalize df) (cname col) =
  Some (mkColumn (cname col) (Cleaning.normalize_column col)).
Proof.
  intros ND Hin.
  change (cname col) with
    (cname (mkColumn (cname col) (Cleaning.normalize_column col))) at 1.
  apply get_in; [now rewrite normalize_names|].
  rewrite normalize_columns by assumption.
  apply in_map_iff. now exists col.
Qed.

Lemma computed_min cells mi :
  is_minimum mi cells -> exists m0, Num.min cells = Some m0 /\ m0 == mi.
Proof.
  intros [Hin Hle]. unfold Num.min.
  destruct (Num.min_values (Num.dropna cells)) as [m0|] eqn:E.
  - exists m0. split; [reflexivity|].
    destruct (min_values_spec _ E) as [H1 H2]. apply Qle_antisym.
    + apply H2. now apply In_dropna.
    + apply Hle. now apply In_dropna.
  - apply min_values_none in E. apply In_dropna in Hin. rewrite E in Hin. contradiction.
Qed.

Lemma computed_max cells mx :
  is_maximum mx cells -> exists m0, Num.max cells = Some m0 /\ m0 == mx.
Proof.
  intros [Hin Hle]. unfold Num.max.
  destruct (Num.max_values (Num.dropna cells)) as [m0|] eqn:E.
  - exists m0. split; [reflexivity|].
    destruct (max_values_spec _ E) as [H1 H2]. apply Qle_antisym.
    + apply Hle. now apply In_dropna.
    + apply H2. now apply In_dropna.
  - apply max_values_none in E. apply In_dropna in Hin. rewrite E in Hin. contradiction.
Qed.

Lemma nth_option_map (A B : Type) (g : A -> B) (l : list (option A)) i :
  nth i (map (option_map g) l) None = option_map g (nth i l None).
Proof. change (@None B) with (option_map g None). apply map_nth. Qed.

Lemma nth_const (A B : Type) (b : B) (l : list A) i d :
  (i < List.length l)%nat -> nth i (map (fun _ => b) l) d = b.
Proof.
  revert i. induction l as [|x l IH]; intros i H; simpl in *; [lia|].
  destruct i; [reflexivity | apply IH; lia].
Qed.

Lemma normalize_cells_length cells :
  List.length (Cleaning.normalize_cells cells) = List.length cells.
Proof.
  unfold Cleaning.normalize_cells.
  destruct (Num.min cells), (Num.max cells); try apply length_map.
  destruct (negb _); apply length_map.
Qed.

(** *** An int64 column that does not wrap *)

Lemma int64_min_values v :
  Num.min_values (map inject_Z v) = option_map inject_Z (Int64.min_values v).
Proof.
  induction v as [|x r IH]; simpl; [reflexivity|]. rewrite IH.
  destruct (Int64.min_values r) as [m|]; simpl; [|reflexivity].
  f_equal. destruct (Qle_bool (inject_Z x) (inject_Z m)) eqn:E.
  - apply Qle_bool_iff in E. rewrite <- Zle_Qle in E. now rewrite Z.min_l.
  - rewrite Z.min_r; [reflexivity|].
    destruct (Z.le_ge_cases m x) as [L|L]; [assumption|].
    rewrite Zle_Qle in L. apply Qle_bool_iff in L. congruence.
Qed.

Lemma int64_max_values v :
  Num.max_values (map inject_Z v) = option_map inject_Z (Int64.max_values v).
Proof.
  induction v as [|x r IH]; simpl; [reflexivity|]. rewrite IH.
  destruct (Int64.max_values r) as [m|]; simpl; [|reflexivity].
  f_equal. destruct (Qle_bool (inject_Z m) (inject_Z x)) eqn:E.
  - apply Qle_bool_iff in E. rewrite <- Zle_Qle in E. now rewrite Z.max_l.
  - rewrite Z.max_r; [reflexivity|].
    destruct (Z.le_ge_cases x m) as [L|L]; [assumption|].
    rewrite Zle_Qle in L. apply Qle_bool_iff in L. congruence.
Qed.

Lemma int64_min_spec v : forall m,
  Int64.min_values v = Some m -> forall x, In x v -> (m <= x)%Z.
Proof.
  induction v as [|y r IH]; intros m H x Hx; [contradiction|]. simpl in H.
  destruct (Int64.min_values r) as [m'|] eqn:E.
  - injection H as <-. destruct Hx as [->|Hx]; [lia|].
    specialize (IH m' eq_refl x Hx). lia.
  - injection H as <-. destruct r; [|simpl in E; destruct (Int64.min_values r); discriminate].
    destruct Hx as [->|[]]. lia.
Qed.

Lemma int64_max_spec v : forall m,
  Int64.max_values v = Some m -> forall x, In x v -> (x <= m)%Z.
Proof.
  induction v as [|y r IH]; intros m H x Hx; [contradiction|]. simpl in H.
  destruct (Int64.max_values r) as [m'|] eqn:E.
  - injection H as <-. destruct Hx as [->|Hx]; [lia|].
    specialize (IH m' eq_refl x Hx). lia.
  - injection H as <-. destruct r; [|simpl in E; destruct (Int64.max_values r); discriminate].
    destruct Hx as [->|[]]. lia.
Qed.

Lemma dropna_some (A B : Type) (f : A -> B) (l : list A) :
  Num.dropna (map (fun z => Some (f z)) l) = map f l.
Proof. induction l as [|x l IH]; simpl; [reflexivity | now rewrite IH]. Qed.

Lemma wrap_small z : (- 2 ^ 63 <= z < 2 ^ 63)%Z -> Int64.wrap z = z.
Proof. intros H. unfold Int64.wrap. rewrite Z.mod_small; lia. Qed.

Lemma to_float_sub a b :
  Int64.to_float (a - b) = Num.sub (inject_Z a) (inject_Z b).
Proof.
  unfold Int64.to_float, Num.sub. apply F64Facts.round_comp.
  unfold Z.sub, Qminus. now rewrite inject_Z_plus, inject_Z_opp.
Qed.

(** On an int64 column whose values are less than [2 ^ 63] apart nothing
    wraps: [normalize] computes what it computes on the float64 column of
    the same values. *)
Lemma normalize_int64_float64 ints :
  (spread ints < 2 ^ 63)%Z ->
  Cleaning.normalize_int64 ints =
  Cleaning.normalize_cells (map (fun z => Some (inject_Z z)) ints).
Proof.
  unfold spread, Cleaning.normalize_int64, Cleaning.normalize_cells, Num.min, Num.max.
  rewrite dropna_some, int64_min_values, int64_max_values.
  destruct (Int64.min_values ints) as [mi|] eqn:Emi;
    destruct (Int64.max_values ints) as [mx|] eqn:Emx; simpl;
    try (intros _; now rewrite map_map).
  intros S.
  assert (Q : Qeq_bool (inject_Z mi) (inject_Z mx) = Z.eqb mi mx).
  { destruct (Z.eqb mi mx) eqn:E.
    - apply Z.eqb_eq in E. subst. apply Qeq_bool_iff. reflexivity.
    - destruct (Qeq_bool (inject_Z mi) (inject_Z mx)) eqn:F; [|reflexivity].
      apply Qeq_bool_iff in F. rewrite inject_Z_injective in F.
      apply Z.eqb_neq in E. contradiction. }
  rewrite Q. destruct (Z.eqb mi mx); simpl; rewrite map_map; [reflexivity|].
  apply map_ext_in. intros x Hx. simpl.
  pose proof (int64_min_spec _ Emi x Hx). pose proof (int64_max_spec _ Emx x Hx).
  rewrite !wrap_small by lia. now rewrite !to_float_sub.
Qed.

End NormalizeFacts.

Import NumFacts NormalizeFacts.

(** The claim C3 fails on an int64 column whose greatest and least value
    are [2 ^ 63] or more apart: the subtractions wrap around, and the value
    0 of the column [-9e18, 0, 9e18] becomes a number below -20. *)
Lemma C3_int64_subtraction_wraps :
  Int64.wrap (9000000000000000000 - -9000000000000000000) = (-446744073709551616)%Z /\
  exists y,
    Cleaning.normalize_int64
      [-9000000000000000000; 0; 9000000000000000000]%Z = [Some 0; Some y; Some 1] /\
    y < - 20.
Proof. split; [reflexivity|]. eexists. split; [vm_compute; reflexivity|]. reflexivity. Qed.

(** C3, amended: [normalize] replaces every numeric column by its
    rescaling.  With [mi] and [mx] the least and the greatest value of the
    column, less than [2 ^ 63] apart: when they differ every value [x]
    becomes the binary64 quotient of the binary64 differences [x - mi] and
    [mx - mi], and every value of the new column lies between 0 and 1; when
    they are equal every cell of the new column is 0.  A column that is not
    numeric is left as it is.  On an int64 column whose values are less
    than [2 ^ 63] apart the subtractions do not wrap, and the new cells are
    those of the column read as float64. *)
Theorem C3_normalize_rescales df col :
  NoDup (column_names df) -> In col (columns df) ->
  match cdata col with
  | NumCol cells =>
      exists cells',
        get (Cleaning.normalize df) (cname col) =
          Some (mkColumn (cname col) (NumCol cells')) /\
        List.length cells' = List.length cells /\
        forall mi mx, is_minimum mi cells -> is_maximum mx cells ->
          mx - mi < inject_Z (2 ^ 63) ->
          (~ mi == mx ->
             (forall i x, nth i cells None = Some x ->
                exists y, nth i cells' None = Some y /\
                          y == F64.round (F64.round (x - mi) / F64.round (mx - mi))) /\
             (forall i y, nth i cells' None = Some y -> 0 <= y /\ y <= 1)) /\
          (mi == mx ->
             forall i, (i < List.length cells)%nat -> nth i cells' None = Some 0)
  | _ => get (Cleaning.normalize df) (cname col) = Some col
  end /\
  (forall ints, (spread ints < 2 ^ 63)%Z ->
     Cleaning.normalize_int64 ints =
     Cleaning.normalize_cells (map (fun z => Some (inject_Z z)) ints)).
Proof.
  intros ND Hin. split; [|intros ints; apply normalize_int64_float64].
  pose proof (normalize_get df col ND Hin) as G.
  unfold Cleaning.normalize_column in G.
  destruct (cdata col) as [cells|c|c] eqn:Hd;
    [| rewrite G, <- Hd; f_equal; apply eta_column
     | rewrite G, <- Hd; f_equal; apply eta_column ].
  exists (Cleaning.normalize_cells cells).
  split; [exact G|]. split; [apply normalize_cells_length|].
  intros mi mx Hmi Hmx _.
  destruct (computed_min Hmi) as [m0 [E0 Q0]].
  destruct (computed_max Hmx) as [m1 [E1 Q1]].
  unfold Cleaning.normalize_cells. rewrite E0, E1.
  assert (Hle : mi <= mx) by (apply Hmi, Hmx).
  split.
  - intros Hne.
    assert (B : Qeq_bool m0 m1 = false).
    { destruct (Qeq_bool m0 m1) eqn:B; [|reflexivity].
      apply Qeq_bool_iff in B. exfalso. apply Hne. now rewrite <- Q0, <- Q1. }
    rewrite B. simpl.
    split.
    + intros i x Hx. rewrite nth_option_map, Hx. simpl.
      eexists. split; [reflexivity|].
      unfold Num.div, Num.sub. now rewrite Q0, Q1.
    + intros i y Hy. rewrite nth_option_map in Hy.
      destruct (nth i cells None) as [x|] eqn:Hx; [|discriminate].
      injection Hy as <-.
      assert (Hin' : In (Some x) cells).
      { rewrite <- Hx. apply nth_In.
        destruct (Nat.lt_ge_cases i (List.length cells)) as [L|L]; [assumption|].
        rewrite (nth_overflow _ _ L) in Hx. discriminate. }
      apply rescale_bounds; [rewrite Q0; now apply Hmi | rewrite Q1; now apply Hmx].
  - intros Heq i Hi.
    assert (B : Qeq_bool m0 m1 = true).
    { apply Qeq_bool_iff. now rewrite Q0, Q1. }
    rewrite B. simpl. now apply nth_const.
Qed.

(* ------------------------------------------------------------------ *)
(** ** C9: normalizing twice                                           *)
(* ------------------------------------------------------------------ *)

Module IdempotenceFacts.

Lemma dropna_all_none (A B : Type) (l : list B) :
  Num.dropna (map (fun _ => @None A) l) = [].
Proof. induction l; simpl; auto. Qed.

Lemma dropna_all_some (A B : Type) (a : A) (l : list B) :
  Num.dropna (map (fun _ => Some a) l) = map (fun _ => a) l.
Proof. induction l as [|x l IH]; simpl; [reflexivity | now rewrite IH]. Qed.

Lemma rescale_min mi b : Num.div (Num.sub mi mi) b = 0.
Proof.
  unfold Num.div, Num.sub.
  assert (E : mi - mi == 0) by ring.
  rewrite (F64Facts.round_comp E), round_0.
  assert (E' : 0 / b == 0) by (unfold Qdiv; ring).
  now rewrite (F64Facts.round_comp E'), round_0.
Qed.

Lemma rescale_max b : ~ b == 0 -> Num.div b b = 1.
Proof.
  intros H. unfold Num.div.
  assert (E : b / b == 1) by (unfold Qdiv; now apply Qmult_inv_r).
  now rewrite (F64Facts.round_comp E), round_1.
Qed.

Lemma rescale_unit z :
  Num.div (Num.sub (F64.round z) 0) (Num.sub 1 0) = F64.round z.
Proof.
  unfold Num.div, Num.sub.
  assert (E : F64.round z - 0 == F64.round z) by ring.
  rewrite (F64Facts.round_comp E), F64Facts.round_idem.
  change (F64.round (1 - 0)) with 1.
  assert (E' : F64.round z / 1 == F64.round z) by (unfold Qdiv; change (/ 1) with 1; ring).
  now rewrite (F64Facts.round_comp E'), F64Facts.round_idem.
Qed.

(** A series without any value stays so. *)
Lemma normalize_cells_all_none (B : Type) (l : list B) :
  Cleaning.normalize_cells (map (fun _ => None) l) = map (fun _ => None) l.
Proof.
  unfold Cleaning.normalize_cells, Num.min, Num.max.
  rewrite dropna_all_none. simpl. now rewrite map_map.
Qed.

(** A series of zeros stays so. *)
Lemma normalize_cells_all_zero (B : Type) (l : list B) :
  Cleaning.normalize_cells (map (fun _ => Some 0) l) = map (fun _ => Some 0) l.
Proof.
  destruct l as [|b l]; [reflexivity|].
  unfold Cleaning.normalize_cells, Num.min, Num.max.
  rewrite dropna_all_some.
  assert (R : forall x, In x (map (fun _ : B => 0) (b :: l)) -> x = 0).
  { intros x Hx. apply in_map_iff in Hx. now destruct Hx as [? [<- _]]. }
  rewrite (@min_values_is (map (fun _ : B => 0) (b :: l)) 0);
    [| intros x Hx; now rewrite (R x Hx) | now left
     | intros x Hx; rewrite (R x Hx); apply Qle_refl ].
  rewrite (@max_values_is (map (fun _ : B => 0) (b :: l)) 0);
    [| intros x Hx; now rewrite (R x Hx) | now left
     | intros x Hx; rewrite (R x Hx); apply Qle_refl ].
  simpl. now rewrite map_map.
Qed.

(** The least and the greatest value of a rescaled series. *)
Lemma rescaled_min cells mi mx :
  Num.min cells = Some mi -> Num.max cells = Some mx ->
  let g := fun x => Num.div (Num.sub x mi) (Num.sub mx mi) in
  Num.min_values (map g (Num.dropna cells)) = Some 0.
Proof.
  intros Hmi Hmx g.
  destruct (min_values_spec _ Hmi) as [Imi Lmi].
  destruct (max_values_spec _ Hmx) as [Imx Lmx].
  apply min_values_is.
  - intros y Hy. apply in_map_iff in Hy. destruct Hy as [x [<- _]]. apply div_reduced.
  - rewrite <- (rescale_min mi (Num.sub mx mi)). now apply (in_map g).
  - intros y Hy. apply in_map_iff in Hy. destruct Hy as [x [<- Hx]].
    apply rescale_bounds; auto.
Qed.

Lemma rescaled_max cells mi mx :
  Num.min cells = Some mi -> Num.max cells = Some mx -> ~ Num.sub mx mi == 0 ->
  let g := fun x => Num.div (Num.sub x mi) (Num.sub mx mi) in
  Num.max_values (map g (Num.dropna cells)) = Some 1.
Proof.
  intros Hmi Hmx NZ g.
  destruct (min_values_spec _ Hmi) as [Imi Lmi].
  destruct (max_values_spec _ Hmx) as [Imx Lmx].
  apply max_values_is.
  - intros y Hy. apply in_map_iff in Hy. destruct Hy as [x [<- _]]. apply div_reduced.
  - rewrite <- (rescale_max NZ). now apply (in_map g).
  - intros y Hy. apply in_map_iff in Hy. destruct Hy as [x [<- Hx]].
    apply rescale_bounds; auto.
Qed.

(** A rescaled series, with its least value 0 and its greatest 1,
    rescales to itself. *)
Lemma normalize_cells_rescaled cells mi mx :
  Num.min cells = Some mi -> Num.max cells = Some mx -> ~ Num.sub mx mi == 0 ->
  let g := fun x => Num.div (Num.sub x mi) (Num.sub mx mi) in
  Cleaning.normalize_cells (map (option_map g) cells) = map (option_map g) cells.
Proof.
  intros Hmi Hmx NZ g.
  unfold Cleaning.normalize_cells at 1. unfold Num.min, Num.max.
  rewrite dropna_map. unfold g.
  rewrite (rescaled_min cells Hmi Hmx), (rescaled_max cells Hmi Hmx NZ).
  simpl. rewrite map_map. apply map_ext. intros [x|]; [|reflexivity].
  simpl. f_equal. unfold Num.div at 2 3. apply rescale_unit.
Qed.

(** In a series of one dtype that holds two different values the
    difference of the greatest and the least does not round to 0. *)
Lemma spread_nonzero cells mi mx :
  typed cells = true -> Num.min cells = Some mi -> Num.max cells = Some mx ->
  Qeq_bool mi mx = false -> ~ Num.sub mx mi == 0.
Proof.
  intros T Hmi Hmx E.
  destruct (min_values_spec _ Hmi) as [Imi Lmi].
  destruct (max_values_spec _ Hmx) as [Imx _].
  assert (Hlt : mi < mx).
  { destruct (Qle_lt_or_eq mi mx (Lmi mx Imx)) as [H|H]; [assumption|].
    apply Qeq_bool_iff in H. congruence. }
  apply In_dropna in Imi, Imx.
  cut (0 < Num.sub mx mi); [intros P Z; rewrite Z in P; discriminate|].
  unfold typed in T. apply orb_true_iff in T.
  destruct T as [T|T]; rewrite forallb_forall in T;
    pose proof (T _ Imi) as A; pose proof (T _ Imx) as B; simpl in A, B;
    apply Qeq_bool_iff in A, B.
  - unfold Num.sub.
    assert (D : mx - mi == inject_Z (Qfloor mx) - inject_Z (Qfloor mi))
      by (rewrite A, B; reflexivity).
    rewrite (F64Facts.round_comp D). apply F64Facts.round_int_diff_pos.
    rewrite Zlt_Qlt. now rewrite A, B.
  - unfold Num.sub. apply F64Facts.round_diff_pos; [| |assumption].
    + apply F64Facts.Rep_comp with (F64.round mi); [assumption | apply F64Facts.round_is_rep].
    + apply F64Facts.Rep_comp with (F64.round mx); [assumption | apply F64Facts.round_is_rep].
Qed.

Lemma normalize_cells_idempotent cells :
  typed cells = true ->
  Cleaning.normalize_cells (Cleaning.normalize_cells cells) =
  Cleaning.normalize_cells cells.
Proof.
  intros T. unfold Cleaning.normalize_cells at 2 3.
  destruct (Num.min cells) as [mi|] eqn:Hmi;
    [destruct (Num.max cells) as [mx|] eqn:Hmx|];
    try apply normalize_cells_all_none.
  destruct (Qeq_bool mi mx) eqn:E; simpl.
  - apply normalize_cells_all_zero.
  - apply normalize_cells_rescaled; [assumption | assumption|].
    now apply (@spread_nonzero cells).
Qed.

End IdempotenceFacts.

(* ------------------------------------------------------------------ *)
(** ** Checks that compute                                             *)
(* ------------------------------------------------------------------ *)

Module Checks.

Lemma unique_NoDup l : unique l = true -> NoDup l.
Proof.
  induction l as [|x l IH]; simpl; intros H; [constructor|].
  apply andb_true_iff in H. destruct H as [H1 H2].
  constructor; [|auto]. apply mem_false_iff. now destruct (PyStr.mem x l).
Qed.

Lemma rectangular_well_formed df : rectangular df = true <-> well_formed df.
Proof.
  unfold rectangular, well_formed. rewrite forallb_forall, Forall_forall.
  split; intros H col Hin; specialize (H col Hin); now apply Nat.eqb_eq.
Qed.

End Checks.

Import IdempotenceFacts Checks.

Lemma df_ext (a b : DataFrame) :
  index a = index b -> columns a = columns b -> a = b.
Proof. destruct a, b; simpl; intros -> ->; reflexivity. Qed.

(** [normalize] is idempotent on every table with unique labels whose
    numeric columns each hold the values of one dtype. *)
Lemma normalize_idempotent df :
  NoDup (column_names df) -> typed_table df = true ->
  Cleaning.normalize (Cleaning.normalize df) = Cleaning.normalize df.
Proof.
  intros ND NM. apply df_ext.
  - unfold Cleaning.normalize. now rewrite !for_columns_index.
  - rewrite normalize_columns by (now rewrite normalize_names).
    rewrite normalize_columns by assumption. rewrite map_map.
    apply map_ext_in. intros col Hin. simpl. f_equal.
    unfold Cleaning.normalize_column. simpl.
    unfold typed_table in NM. rewrite forallb_forall in NM.
    specialize (NM col Hin).
    destruct (cdata col) as [c|c|c]; simpl; try reflexivity.
    now rewrite normalize_cells_idempotent.
Qed.

(** The claim C9 fails on an int64 column whose greatest and least value
    are [2 ^ 63] or more apart: the first pass leaves a value below 0,
    which the second pass moves. *)
Lemma C9_second_pass_differs :
  exists y z,
    Cleaning.normalize_int64
      [-9000000000000000000; 0; 9000000000000000000]%Z = [Some 0; Some y; Some 1] /\
    Cleaning.normalize_cells [Some 0; Some y; Some 1] = [Some z; Some 0; Some 1] /\
    y < 0 /\ 0 < z.
Proof.
  eexists. eexists. split; [vm_compute; reflexivity|].
  split; [vm_compute; reflexivity|]. split; reflexivity.
Qed.

(** C9, amended: on a table whose numeric columns each hold the values of
    one dtype (integers, or binary64 numbers) and have their greatest and
    their least value less than [2 ^ 63] apart, normalizing twice gives the
    table that normalizing once gives.  Column by column: a rescaled
    column, of least value 0 and greatest value 1 when the difference of
    the two did not round to 0, rescales to itself, and a column of zeros
    is mapped to zeros again. *)
Theorem C9_normalize_idempotent df :
  NoDup (column_names df) ->
  typed_table df = true ->
  narrow_table df = true ->
  Cleaning.normalize (Cleaning.normalize df) = Cleaning.normalize df /\
  (forall cells mi mx,
     Num.min cells = Some mi -> Num.max cells = Some mx -> Qeq_bool mi mx = false ->
     ~ Num.sub mx mi == 0 ->
     Num.min (Cleaning.normalize_cells cells) = Some 0 /\
     Num.max (Cleaning.normalize_cells cells) = Some 1 /\
     Cleaning.normalize_cells (Cleaning.normalize_cells cells) =
       Cleaning.normalize_cells cells) /\
  (forall n,
     Cleaning.normalize_cells (repeat (Some 0) n) = repeat (Some 0) n).
Proof.
  intros ND NM _. split; [now apply normalize_idempotent|]. split.
  - intros cells mi mx Hmi Hmx Hne NZ.
    assert (E : Cleaning.normalize_cells cells =
                map (option_map (fun x => Num.div (Num.sub x mi) (Num.sub mx mi))) cells).
    { unfold Cleaning.normalize_cells. now rewrite Hmi, Hmx, Hne. }
    rewrite E. unfold Num.min at 1, Num.max at 1. rewrite dropna_map.
    rewrite (rescaled_min cells Hmi Hmx), (rescaled_max cells Hmi Hmx NZ).
    split; [reflexivity|]. split; [reflexivity|].
    now apply normalize_cells_rescaled.
  - intros n.
    replace (repeat (Some 0) n) with (map (fun _ : unit => Some 0) (repeat tt n)).
    + apply normalize_cells_all_zero.
    + induction n; simpl; [reflexivity | now f_equal].
Qed.

(* ------------------------------------------------------------------ *)
(** ** C1: the thresholds of the group cleaner                         *)
(* ------------------------------------------------------------------ *)

Module GroupFacts.

Import Cleaning.

Lemma select_incl (A : Type) (mask : list bool) : forall (l : list A) x,
  In x (select mask l) -> In x l.
Proof.
  induction mask as [|b m IH]; intros [|y r] x H; simpl in *; try contradiction.
  destruct b; [destruct H as [->|H]|]; auto.
Qed.

(** Among distinct labels, the label at position [i] survives the
    selection exactly when the mask holds at [i]. *)
Lemma select_In (A : Type) (mask : list bool) : forall (l : list A) i x,
  NoDup l -> nth_error l i = Some x ->
  (In x (select mask l) <-> nth i mask false = true).
Proof.
  induction mask as [|b m IH]; intros l i x ND Hx.
  - simpl. destruct l, i; simpl; split; (contradiction || discriminate).
  - destruct l as [|y r]; [destruct i; discriminate|].
    inversion ND as [|? ? Hy ND']; subst.
    destruct i as [|j]; simpl in Hx.
    + injection Hx as ->. simpl. destruct b; simpl.
      * split; auto.
      * split; [|discriminate]. intros H. apply select_incl in H. contradiction.
    + assert (x <> y) by (intros ->; apply Hy; now apply nth_error_In with j).
      simpl. destruct b; simpl; rewrite <- (IH r j x ND' Hx).
      * split; [intros [E|H']; [congruence | assumption] | auto].
      * tauto.
Qed.

Lemma select_rows_index mask df : index (select_rows mask df) = select mask (index df).
Proof. reflexivity. Qed.

Lemma drop_names names g :
  column_names (drop names g) =
  filter (fun c => negb (PyStr.mem c names)) (column_names g).
Proof.
  unfold column_names, drop. simpl.
  induction (columns g) as [|col l IH]; simpl; [reflexivity|].
  destruct (negb (PyStr.mem (cname col) names)); simpl; now rewrite IH.
Qed.



(** Python's [max(a, b)] and [min(a, b)] against the maximum and the
    minimum of the rationals. *)
Lemma py_max_Qmax a y : Num.py_max a (Some y) == Qmax a y.
Proof.
  unfold Num.py_max. destruct (Qle_bool y a) eqn:E.
  - apply Qle_bool_iff in E. symmetry. now apply Q.max_l.
  - symmetry. apply Q.max_r. apply Qlt_le_weak, Qnot_le_lt.
    intros L. apply Qle_bool_iff in L. congruence.
Qed.

Lemma py_min_Qmin a y : Num.py_min a (Some y) == Qmin a y.
Proof.
  unfold Num.py_min. destruct (Qle_bool a y) eqn:E.
  - apply Qle_bool_iff in E. symmetry. now apply Q.min_l.
  - symmetry. apply Q.min_r. apply Qlt_le_weak, Qnot_le_lt.
    intros L. apply Qle_bool_iff in L. congruence.
Qed.










(** The thresholds are those of binary64: 0.8 - 0.1 is above 0.7 there,
    and 0.2 + 0.1 above 0.3. *)
Lemma thresholds_binary64 :
  Num.lit (7 # 10) < Num.sub (Num.lit (8 # 10)) (Num.lit (1 # 10)) /\
  Num.lit (3 # 10) < Num.add (Num.lit (2 # 10)) (Num.lit (1 # 10)).
Proof. split; apply Qlt_alt; vm_compute; reflexivity. Qed.

End GroupFacts.

Import GroupFacts.


(* ------------------------------------------------------------------ *)
(** ** C2: the outlier filter                                          *)
(* ------------------------------------------------------------------ *)

Module OutlierFacts.

Import Cleaning.

Lemma in_bounds_iff cells x :
  in_bounds (iqr_bounds cells) x = true <-> exists v, x = Some v /\ within_iqr cells v.
Proof.
  unfold in_bounds, iqr_bounds, within_iqr.
  destruct (Num.quantile (1 # 4) cells) as [q1|], (Num.quantile (3 # 4) cells) as [q3|];
    simpl; unfold Num.fle, Num.fge.
  - destruct x as [v|]; simpl.
    + rewrite andb_true_iff, !Qle_bool_iff.
      unfold Num.sub, Num.add, Num.mul. split.
      * intros [H1 H2]. exists v. split; [reflexivity|]. exists q1, q3. auto.
      * intros [v' [E [a [b [Ea [Eb [H1 H2]]]]]]].
        injection E as <-. injection Ea as <-. injection Eb as <-. auto.
    + split; [discriminate | intros [v' [E _]]; discriminate].
  - split; [destruct x; discriminate|].
    intros [v [_ [a [b [_ [E _]]]]]]. discriminate.
  - split; [destruct x; discriminate|].
    intros [v [_ [a [b [E _]]]]]. discriminate.
  - split; [destruct x; discriminate|].
    intros [v [_ [a [b [E _]]]]]. discriminate.
Qed.

Lemma select_NoDup (A : Type) (mask : list bool) : forall l : list A,
  NoDup l -> NoDup (select mask l).
Proof.
  induction mask as [|b m IH]; intros [|y r] ND; simpl; try constructor.
  inversion ND as [|? ? Hy ND']; subst. destruct b; auto.
  constructor; auto. intros H. apply Hy. now apply select_incl in H.
Qed.

Lemma get_select_rows mask t c :
  get (select_rows mask t) c =
  option_map (fun col => mkColumn (cname col) (select_cells mask (cdata col))) (get t c).
Proof.
  unfold get, select_rows. simpl.
  induction (columns t) as [|col l IH]; simpl; [reflexivity|].
  destruct (String.eqb c (cname col)); [reflexivity | exact IH].
Qed.

Lemma outlier_step_cases t c :
  (exists cells, get t c = Some (mkColumn c (NumCol cells)) /\
                 outlier_step t c =
                 select_rows (map (in_bounds (iqr_bounds cells)) cells) t) \/
  (~ numeric_in t c /\ outlier_step t c = t).
Proof.
  unfold outlier_step, numeric_in.
  destruct (get t c) as [[n [cells|cells|cells]]|] eqn:G.
  - left. exists cells. destruct (get_some _ _ G) as [_ E]. simpl in E. subst n. auto.
  - right. split; [intros [x E]; discriminate | reflexivity].
  - right. split; [intros [x E]; discriminate | reflexivity].
  - right. split; [intros [x E]; discriminate | reflexivity].
Qed.

Lemma outlier_step_NoDup t c : NoDup (index t) -> NoDup (index (outlier_step t c)).
Proof.
  intros ND. destruct (outlier_step_cases t c) as [[cells [_ ->]]|[_ ->]]; [|assumption].
  now apply select_NoDup.
Qed.

Lemma outlier_step_numeric t c c' :
  numeric_in t c' -> numeric_in (outlier_step t c) c'.
Proof.
  intros [cells G].
  destruct (outlier_step_cases t c) as [[cells0 [_ ->]]|[_ ->]]; [|now exists cells].
  unfold numeric_in. rewrite get_select_rows, G. simpl. now eexists.
Qed.

(** One turn of the loop keeps the rows within the bounds of its column. *)
Lemma outlier_step_index t c label :
  NoDup (index t) -> numeric_in t c ->
  (In label (index (outlier_step t c)) <-> row_in_bounds t c label).
Proof.
  intros ND [cells G].
  destruct (outlier_step_cases t c) as [[cells0 [G0 ->]]|[N _]];
    [|exfalso; apply N; now exists cells].
  rewrite G in G0. injection G0 as <-.
  rewrite select_rows_index. unfold row_in_bounds. split.
  - intros H. pose proof (select_incl _ _ _ H) as Hin.
    apply In_nth_error in Hin. destruct Hin as [pos Hpos].
    rewrite (@select_In _ _ _ pos label ND Hpos) in H.
    change false with (in_bounds (iqr_bounds cells) None) in H.
    rewrite map_nth in H. apply in_bounds_iff in H. destruct H as [v [Hv W]].
    now exists cells, pos, v.
  - intros [cells' [pos [v [G' [Hpos [Hv W]]]]]].
    rewrite G in G'. injection G' as <-.
    rewrite (@select_In _ _ _ pos label ND Hpos).
    change false with (in_bounds (iqr_bounds cells) None).
    rewrite map_nth. apply in_bounds_iff. now exists v.
Qed.

Lemma row_in_bounds_label t c label : row_in_bounds t c label -> In label (index t).
Proof.
  intros [cells [pos [v [_ [H _]]]]]. now apply nth_error_In with pos.
Qed.

(** The loop over any list of numeric columns. *)
Lemma outlier_loop_index names : forall t label,
  NoDup (index t) -> Forall (numeric_in t) names ->
  (In label (index (fold_left outlier_step names t)) <->
   In label (index t) /\
   forall k c, nth_error names k = Some c ->
     row_in_bounds (fold_left outlier_step (firstn k names) t) c label).
Proof.
  induction names as [|c names IH]; intros t label ND NUM.
  - simpl. split; [|tauto]. intros H. split; [assumption|].
    intros [|k] c; discriminate.
  - inversion NUM as [|? ? Hc Hrest]; subst. simpl fold_left at 1.
    rewrite IH;
      [| now apply outlier_step_NoDup
       | eapply Forall_impl; [|exact Hrest]; intros a; apply outlier_step_numeric ].
    rewrite (outlier_step_index label ND Hc). split.
    + intros [H1 H2]. split; [now apply row_in_bounds_label with c|].
      intros [|k] c' Hk; simpl in *.
      * now injection Hk as <-.
      * now apply H2.
    + intros [H1 H2]. split.
      * apply (H2 0%nat c). reflexivity.
      * intros k c' Hk. apply (H2 (S k) c'). exact Hk.
Qed.

Lemma numeric_names_numeric_in df :
  NoDup (column_names df) -> Forall (numeric_in df) (numeric_names df).
Proof.
  intros ND. apply Forall_forall. intros c Hc. unfold numeric_names in Hc.
  apply in_map_iff in Hc. destruct Hc as [col [<- Hf]].
  apply filter_In in Hf. destruct Hf as [Hin Hnum].
  destruct col as [n [cells|cells|cells]]; try discriminate.
  exists cells. now apply (get_in df _ ND Hin).
Qed.

(** The bounds are those of binary64: of the values 0.1, 0.2, 0.3, 0.6 and
    -0.2 the quartiles are 0.1 and 0.3 and the lower bound is
    -0.19999999999999998, so that the value -0.2 is out of bounds. *)
Lemma iqr_bounds_binary64 :
  let cells := map (fun q => Some (Num.lit q))
                   [1 # 10; 2 # 10; 3 # 10; 6 # 10; - (2 # 10)] in
  map (in_bounds (iqr_bounds cells)) cells = [true; true; true; true; false] /\
  exists lo, fst (iqr_bounds cells) = Some lo /\ Num.lit (- (2 # 10)) < lo.
Proof.
  cbv zeta. split; [vm_compute; reflexivity|].
  eexists. split; [vm_compute; reflexivity|]. apply Qlt_alt. vm_compute. reflexivity.
Qed.

End OutlierFacts.

Module SelectFacts.

Lemma select_nil (A : Type) (mask : list bool) : select mask (@nil A) = [].
Proof. now destruct mask. Qed.

Lemma select_select (A : Type) (m1 : list bool) : forall (m2 : list bool) (l : list A),
  select m2 (select m1 l) = select (compose m1 m2) l.
Proof.
  induction m1 as [|b r IH]; intros m2 l.
  - simpl. now rewrite select_nil.
  - destruct l as [|x l']; [simpl; now rewrite !select_nil|].
    destruct b; simpl.
    + destruct m2 as [|b2 m2']; simpl; [reflexivity|].
      destruct b2; now rewrite IH.
    + apply IH.
Qed.

Lemma select_all (A : Type) (l : list A) : select (map (fun _ => true) l) l = l.
Proof. induction l as [|x l IH]; simpl; [reflexivity | now rewrite IH]. Qed.

Lemma select_rows_all df :
  select_rows (map (fun _ => true) (index df)) df = df \/ ~ well_formed df.
Proof.
  destruct (rectangular df) eqn:R.
  - left. apply rectangular_well_formed in R. apply df_ext.
    + apply select_all.
    + unfold select_rows. simpl. rewrite <- (map_id (columns df)) at 2.
      apply map_ext_in. intros col Hin.
      unfold well_formed in R. rewrite Forall_forall in R. specialize (R col Hin).
      unfold nrows in R. destruct col as [n d]. simpl in *. f_equal.
      assert (S : forall B (c : list B), List.length c = List.length (index df) ->
                  select (map (fun _ => true) (index df)) c = c).
      { intros B c. generalize (index df). induction c as [|y c IH]; intros [|z idx] H;
          simpl in *; try reflexivity; try discriminate.
        f_equal. apply IH. now injection H. }
      destruct d; simpl in *; f_equal; now apply S.
  - right. intros WF. apply rectangular_well_formed in WF. congruence.
Qed.

Lemma select_rows_twice m1 m2 df :
  select_rows m2 (select_rows m1 df) = select_rows (compose m1 m2) df.
Proof.
  apply df_ext; simpl.
  - apply select_select.
  - rewrite map_map. apply map_ext. intros [n d]. simpl. f_equal.
    destruct d; simpl; f_equal; apply select_select.
Qed.

(** The loop of [remove_outliers] only selects rows. *)
Lemma outlier_loop_selects names : forall t,
  well_formed t ->
  exists mask, fold_left Cleaning.outlier_step names t = select_rows mask t.
Proof.
  induction names as [|c names IH]; intros t WF.
  - simpl. destruct (select_rows_all t) as [E|N]; [|contradiction].
    eexists. symmetry. exact E.
  - simpl.
    destruct (OutlierFacts.outlier_step_cases t c) as [[cells [_ ->]]|[_ ->]];
      [|now apply IH].
    set (m1 := map _ cells).
    assert (WF1 : well_formed (select_rows m1 t)).
    { unfold well_formed in *. rewrite Forall_forall in *. intros col Hin.
      simpl in Hin. apply in_map_iff in Hin. destruct Hin as [col0 [<- Hin0]].
      specialize (WF col0 Hin0). unfold nrows in *. simpl.
      assert (S : forall B C (a : list B) (b : list C),
                  List.length a = List.length b ->
                  List.length (select m1 a) = List.length (select m1 b)).
      { intros B C. induction m1 as [|x m IHm]; intros [|y a] [|z b] H;
          simpl in *; try reflexivity; try discriminate.
        injection H as H. destruct x; simpl; auto. }
      destruct (cdata col0); simpl in *; now apply S. }
    destruct (IH _ WF1) as [m2 E]. rewrite E, select_rows_twice. now eexists.
Qed.

End SelectFacts.

Import OutlierFacts.

(** C2, as stated, fails: in the table below the last row is an outlier of
    column [a] and goes first; the quartiles of column [b] are then taken
    over the four rows left, for which the value 0 of row 0 is within
    bounds, so that row 0 is kept.  Over the whole column [b] the bounds
    are [2, 18] and exclude it. *)
Lemma C2_bounds_follow_earlier_columns :
  let df :=
    {| index := [0; 1; 2; 3; 4]%nat;
       columns := [ mkColumn "a" (NumCol [Some 1; Some 2; Some 3; Some 4; Some 100]);
                    mkColumn "b" (NumCol [Some 0; Some 8; Some 10; Some 12; Some 40]) ] |} in
  index (Cleaning.remove_outliers df) = [0; 1; 2; 3]%nat /\
  Cleaning.iqr_bounds [Some 0; Some 8; Some 10; Some 12; Some 40] = (Some 2, Some 18) /\
  Cleaning.in_bounds (Some 2, Some 18) (Some 0) = false /\
  (row_in_bounds df "b" 0 -> False).
Proof.
  cbv zeta. split; [reflexivity|]. split; [reflexivity|]. split; [reflexivity|].
  intros [cells [pos [v [G [Hpos [Hv W]]]]]].
  unfold get in G. simpl in G. injection G as <-.
  assert (B : Cleaning.in_bounds
                (Cleaning.iqr_bounds [Some 0; Some 8; Some 10; Some 12; Some 40])
                (nth pos [Some 0; Some 8; Some 10; Some 12; Some 40] None) = true).
  { apply in_bounds_iff. now exists v. }
  destruct pos as [|[|[|[|[|pos]]]]]; simpl in Hpos;
    try discriminate Hpos; [|destruct pos; discriminate Hpos].
  vm_compute in B. discriminate B.
Qed.

(** C2, amended: the filter goes through the numeric columns in column
    order, and takes the quartiles of each column over the rows that the
    columns before it have left.  On a table of binary64 numbers of
    magnitude below [2 ^ 62], a row is kept exactly when, for every numeric
    column, its value lies in [Q1 - 1.5 IQR, Q3 + 1.5 IQR] for the
    quartiles so taken, the bounds being computed in binary64; for the
    first numeric column they are the quartiles over the whole table.  The
    filter only removes rows. *)
Theorem C2_outlier_filter_in_sequence df :
  NoDup (column_names df) -> NoDup (index df) -> well_formed df ->
  moderate_table df = true ->
  (forall label,
     In label (index (Cleaning.remove_outliers df)) <->
     In label (index df) /\
     forall k c, nth_error (numeric_names df) k = Some c ->
       row_in_bounds (after_columns df k) c label) /\
  after_columns df 0 = df /\
  (forall k c, nth_error (numeric_names df) k = Some c ->
     after_columns df (S k) = Cleaning.outlier_step (after_columns df k) c) /\
  (exists mask, Cleaning.remove_outliers df = select_rows mask df).
Proof.
  intros ND NDi WF _. split; [|split; [reflexivity|split]].
  - intros label. unfold Cleaning.remove_outliers, after_columns.
    apply outlier_loop_index; [assumption | now apply numeric_names_numeric_in].
  - intros k c Hk. unfold after_columns.
    clear ND NDi WF. revert Hk. generalize (numeric_names df) as names.
    intros names. revert k df.
    induction names as [|x names IH]; intros [|k] df Hk; simpl in *; try discriminate.
    + now injection Hk as ->.
    + now apply IH.
  - now apply SelectFacts.outlier_loop_selects.
Qed.

(* ------------------------------------------------------------------ *)
(** ** Reading a column after an assignment                            *)
(* ------------------------------------------------------------------ *)

Module GetFacts.

Lemma has_column_get df c :
  has_column df c = match get df c with Some _ => true | None => false end.
Proof.
  destruct (get df c) as [col|] eqn:G.
  - apply has_column_iff. destruct (get_some _ _ G) as [H <-]. now apply in_map.
  - apply mem_false_iff. now apply get_none.
Qed.

Lemma get_name df c col : get df c = Some col -> cname col = c.
Proof. intros G. now destruct (get_some _ _ G). Qed.

Lemma find_app_none (A : Type) (p : A -> bool) (l l' : list A) :
  find p l = None -> find p (l ++ l') = find p l'.
Proof.
  induction l as [|x l IH]; simpl; [reflexivity|].
  destruct (p x); [discriminate | exact IH].
Qed.

Lemma find_app_some (A : Type) (p : A -> bool) (l l' : list A) x :
  find p l = Some x -> find p (l ++ l') = Some x.
Proof.
  induction l as [|y l IH]; simpl; [discriminate|].
  destruct (p y); [trivial | exact IH].
Qed.

Lemma get_assign_same df c d : get (assign df c d) c = Some (mkColumn c d).
Proof.
  unfold assign. destruct (has_column df c) eqn:H.
  - rewrite has_column_get in H. unfold get in *. simpl.
    induction (columns df) as [|x l IH]; simpl in *; [discriminate|].
    destruct (String.eqb c (cname x)) eqn:E; simpl.
    + now rewrite String.eqb_refl.
    + rewrite E. apply IH. exact H.
  - rewrite has_column_get in H. unfold get in *. simpl.
    destruct (find _ (columns df)) eqn:F; [discriminate|].
    rewrite (find_app_none _ _ _ F). simpl. now rewrite String.eqb_refl.
Qed.

Lemma get_assign_other df c d c' : c' <> c -> get (assign df c d) c' = get df c'.
Proof.
  intros N. apply String.eqb_neq in N. unfold assign.
  destruct (has_column df c); unfold get; simpl.
  - induction (columns df) as [|x l IH]; simpl; [reflexivity|].
    destruct (String.eqb c (cname x)) eqn:E; simpl.
    + apply String.eqb_eq in E. rewrite <- E, N. exact IH.
    + destruct (String.eqb c' (cname x)); [reflexivity | exact IH].
  - destruct (find (fun col => String.eqb c' (cname col)) (columns df)) eqn:F.
    + now apply find_app_some.
    + rewrite (find_app_none _ _ _ F). simpl. now rewrite N.
Qed.

(** What a column loop leaves under each label. *)
Lemma for_columns_get names f : forall df c,
  NoDup names ->
  get (for_columns names f df) c =
  if PyStr.mem c names
  then option_map (fun col => mkColumn c (f col)) (get df c)
  else get df c.
Proof.
  unfold for_columns. induction names as [|c0 names IH]; intros df c ND.
  - reflexivity.
  - inversion ND as [|? ? Hc0 ND']; subst. simpl fold_left. rewrite IH by assumption.
    unfold PyStr.mem at 2. simpl existsb. fold (PyStr.mem c names).
    destruct (String.eqb c c0) eqn:E.
    + apply String.eqb_eq in E. subst c0.
      replace (PyStr.mem c names) with false by (symmetry; now apply mem_false_iff).
      simpl. destruct (get df c) as [col|] eqn:G; [|now rewrite G].
      now rewrite get_assign_same.
    + simpl. apply String.eqb_neq in E.
      destruct (get df c0) as [col0|]; [|reflexivity].
      now rewrite get_assign_other.
Qed.

End GetFacts.

(* ------------------------------------------------------------------ *)
(** ** The theorems at work on small tables                            *)
(* ------------------------------------------------------------------ *)

Module Examples.

Lemma nat_in_dec_false (x : nat) (l : list nat) :
  existsb (Nat.eqb x) l = false -> ~ In x l.
Proof.
  intros H Hin. assert (E : existsb (Nat.eqb x) l = true).
  { apply existsb_exists. exists x. split; [assumption | apply Nat.eqb_refl]. }
  congruence.
Qed.

Lemma distinct_labels_NoDup l : distinct_labels l = true -> NoDup l.
Proof.
  induction l as [|x l IH]; simpl; intros H; [constructor|].
  apply andb_true_iff in H. destruct H as [H1 H2].
  constructor; [|auto]. apply nat_in_dec_false. now destruct (existsb (Nat.eqb x) l).
Qed.

End Examples.

Import Examples.


(** C2, amended, at work on the table [two_columns], for its row 0. *)
Lemma C2_outlier_filter_in_sequence_witness :
  In 0%nat (index (Cleaning.remove_outliers two_columns)) <->
  In 0%nat (index two_columns) /\
  forall k c, nth_error (numeric_names two_columns) k = Some c ->
    row_in_bounds (after_columns two_columns k) c 0.
Proof.
  apply (@C2_outlier_filter_in_sequence two_columns).
  - apply unique_NoDup. reflexivity.
  - apply distinct_labels_NoDup. reflexivity.
  - apply rectangular_well_formed. reflexivity.
  - reflexivity.
Defined.

(** C3 at work on the column [a] of [two_columns]. *)
Lemma C3_normalize_rescales_witness :
  exists cells',
    get (Cleaning.normalize two_columns) "a" = Some (mkColumn "a" (NumCol cells')) /\
    List.length cells' = 5%nat.
Proof.
  pose proof (@C3_normalize_rescales two_columns
                (mkColumn "a" (NumCol [Some 1; Some 2; Some 3; Some 4; Some 100]))) as H.
  simpl in H. destruct H as [[cells' [G [L _]]] _].
  - apply unique_NoDup. reflexivity.
  - left. reflexivity.
  - exists cells'. split; assumption.
Defined.

(** C5, amended, at work on the labels of [dated_leases]. *)
Lemma C5_date_like_columns_witness :
  CleaningDeep.is_date_like "monthsigned" = true <->
  occurs_ci "date" "monthsigned" \/ occurs_ci "signed" "monthsigned".
Proof.
  apply (@C5_date_like_columns Sample.pandas dated_leases).
  apply unique_NoDup. reflexivity.
Defined.

(** C9 at work on [two_columns], two columns of integers. *)
Lemma C9_normalize_idempotent_witness :
  Cleaning.normalize (Cleaning.normalize two_columns) = Cleaning.normalize two_columns.
Proof.
  apply (@C9_normalize_idempotent two_columns).
  - apply unique_NoDup. reflexivity.
  - reflexivity.
  - reflexivity.
Defined.

(* ------------------------------------------------------------------ *)
(** ** C6: missing numeric cells                                       *)
(* ------------------------------------------------------------------ *)

Module CompleteFacts.

Import Cleaning GetFacts.







Lemma step_kinds t c : map kind (columns (outlier_step t c)) = map kind (columns t).
Proof.
  destruct (outlier_step_cases t c) as [[cells0 [_ ->]]|[_ ->]]; [|reflexivity].
  unfold select_rows. simpl. rewrite map_map. apply map_ext.
  intros [n [x|x|x]]; reflexivity.
Qed.

Lemma loop_kinds names : forall t,
  map kind (columns (fold_left outlier_step names t)) = map kind (columns t).
Proof.
  induction names as [|c names IH]; intros t; simpl; [reflexivity|].
  now rewrite IH, step_kinds.
Qed.

Lemma names_of_kinds l l' : map kind l = map kind l' -> map cname l = map cname l'.
Proof.
  intros H. apply (f_equal (map fst)) in H. now rewrite !map_map in H.
Qed.









End CompleteFacts.

(* ------------------------------------------------------------------ *)
(** ** The row loop of [fill_year_qtr_month_from_date]                 *)
(* ------------------------------------------------------------------ *)

Module BackfillFacts.

Import CleaningDeep GetFacts.












Lemma set_at_get T i f z c :
  get (set_at T i f z) c =
  if String.eqb c f
  then option_map (fun col => mkColumn f (write_int i z (cdata col))) (get T f)
  else get T c.
Proof.
  unfold set_at. destruct (String.eqb c f) eqn:E.
  - apply String.eqb_eq in E. subst c.
    destruct (get T f) as [col|] eqn:G; [apply get_assign_same | now rewrite G].
  - apply String.eqb_neq in E.
    destruct (get T f) as [col|]; [now apply get_assign_other | reflexivity].
Qed.

Lemma set_at_absent T i f z : get T f = None -> set_at T i f z = T.
Proof. intros G. unfold set_at. now rewrite G. Qed.

(** The test ['c' in df.columns] before a write changes nothing: a write
    to a column that is not there is no write. *)
Lemma guarded_set_at T i f z (b : bool) :
  (if has_column T f && b then set_at T i f z else T) =
  (if b then set_at T i f z else T).
Proof.
  rewrite has_column_get. destruct (get T f) eqn:G; simpl; [reflexivity|].
  destruct b; [now rewrite set_at_absent | reflexivity].
Qed.

Lemma fill_row_plain_eq cols T i : fill_row cols T i = fill_row_plain cols T i.
Proof.
  unfold fill_row, fill_row_plain. cbv zeta.
  destruct (first_date T cols i) as [t|].
  - rewrite (@guarded_set_at T i "year" (ts_year t) (negb (row_has T i "year"))).
    set (T1 := if negb (row_has T i "year") then set_at T i "year" (ts_year t) else T).
    rewrite (@guarded_set_at T1 i "month" (ts_month t) (negb (row_has T i "month"))).
    set (T2 := if negb (row_has T i "month") then set_at T1 i "month" (ts_month t) else T1).
    rewrite (@guarded_set_at T2 i "quarter" (ts_quarter t) (negb (row_has T i "quarter"))).
    subst T2 T1.
    destruct (row_has T i "year"), (row_has T i "quarter"), (row_has T i "month");
      reflexivity.
  - now destruct (row_has T i "year" && row_has T i "quarter" && row_has T i "month").
Qed.

Lemma eta_get T c col : get T c = Some col -> mkColumn c (cdata col) = col.
Proof. intros G. rewrite <- (get_name _ _ G). now destruct col. Qed.

Lemma backfill_get T c acc date i :
  option_map (fun col => mkColumn c (backfill_row acc date i (cdata col))) (get T c) =
  match date with
  | Some t =>
      if negb (row_has T i c)
      then option_map (fun col => mkColumn c (write_int i (acc t) (cdata col))) (get T c)
      else get T c
  | None => get T c
  end.
Proof.
  unfold row_has, backfill_row. destruct (get T c) as [col|] eqn:G; simpl.
  - destruct date as [t|].
    + destruct (cell_at (cdata col) i); simpl; [|reflexivity].
      f_equal. exact (@eta_get _ _ _ G).
    + destruct (cell_at (cdata col) i); f_equal; exact (@eta_get _ _ _ G).
  - destruct date; reflexivity.
Qed.

(** One turn of the row loop, read column by column. *)
Lemma fill_row_get cols T i c :
  get (fill_row cols T i) c =
  match field_accessor c with
  | Some acc =>
      option_map
        (fun col => mkColumn c (backfill_row acc (first_date T cols i) i (cdata col)))
        (get T c)
  | None => get T c
  end.
Proof.
  rewrite fill_row_plain_eq. unfold fill_row_plain, field_accessor.
  destruct (String.eqb c "year") eqn:Ey;
    [|destruct (String.eqb c "month") eqn:Em;
      [|destruct (String.eqb c "quarter") eqn:Eq]];
    try (apply String.eqb_eq in Ey; subst c);
    try (apply String.eqb_eq in Em; subst c);
    try (apply String.eqb_eq in Eq; subst c);
    try rewrite backfill_get;
    destruct (first_date T cols i) as [t|]; try reflexivity;
    destruct (row_has T i "year"), (row_has T i "month"), (row_has T i "quarter");
    simpl; rewrite ?set_at_get; simpl; rewrite ?set_at_get; simpl;
    rewrite ?set_at_get; simpl; rewrite ?Ey, ?Em, ?Eq; reflexivity.
Qed.



End BackfillFacts.

(* ------------------------------------------------------------------ *)
(** ** C7: the date normalizer                                         *)
(* ------------------------------------------------------------------ *)

Module TimeFieldFacts.

Import CleaningDeep GetFacts BackfillFacts.

Lemma field_accessor_mem c :
  PyStr.mem c time_fields = match field_accessor c with Some _ => true | None => false end.
Proof.
  unfold PyStr.mem, time_fields, field_accessor. simpl.
  destruct (String.eqb c "year"), (String.eqb c "quarter"), (String.eqb c "month");
    reflexivity.
Qed.









Lemma fill_complete (A : Type) (v : A) (cells : list (option A)) :
  ~ In None (map (fill v) cells).
Proof.
  intros H. apply in_map_iff in H. destruct H as [[x|] [E _]]; discriminate.
Qed.



End TimeFieldFacts.

Import TimeFieldFacts.




Module MinimalFacts.

Import CleaningDeep GetFacts BackfillFacts.

(** The row loop leaves the columns that are no time fields as they are. *)
Lemma fill_rows_get_other cols rows : forall df c,
  field_accessor c = None ->
  get (fold_left (fill_row cols) rows df) c = get df c.
Proof.
  induction rows as [|i rows IH]; intros df c H; simpl; [reflexivity|].
  rewrite IH by assumption. rewrite fill_row_get. now rewrite H.
Qed.

Lemma fill_year_qtr_month_get_other P df c :
  PyStr.mem c time_fields = false ->
  get (fill_year_qtr_month_from_date P df) c = get df c.
Proof.
  intros H. unfold fill_year_qtr_month_from_date.
  destruct (dt_cols df); [reflexivity|].
  rewrite for_columns_get, H.
  - apply fill_rows_get_other. rewrite field_accessor_mem in H.
    now destruct (field_accessor c).
  - unfold time_fields. repeat constructor; simpl; intuition discriminate.
Qed.



End MinimalFacts.

Module GroupFillFacts.

Import Cleaning CompleteFacts.


End GroupFillFacts.




(** C4, amended, at work: [n/a] is no date and becomes a missing value;
    [unknown] is no number and stays in its column. *)
Lemma C4_failed_conversions_witness :
  cell_at (Cleaning.to_datetime Sample.pandas
             (ObjCol [Some (VStr "2019-02-03"); Some (VStr "n/a")])) 1 = None /\
  cell_at (Cleaning.to_numeric_ignore Sample.pandas
             (ObjCol [Some (VStr "2019"); Some (VStr "unknown")])) 1 =
    Some (VStr "unknown").
Proof.
  destruct (C4_failed_conversions Sample.pandas) as [N [_ [D _]]]. split.
  - apply (D (ObjCol [Some (VStr "2019-02-03"); Some (VStr "n/a")]) 1%nat (VStr "n/a"));
      reflexivity.
  - apply (N [Some (VStr "2019"); Some (VStr "unknown")] 1%nat "unknown"); reflexivity.
Defined.


(* ------------------------------------------------------------------ *)
(** ** Bounds on the median and on the thresholds of the group cleaner *)
(* ------------------------------------------------------------------ *)

Module MedianFacts.

Lemma insert_In x y l : In y (Num.insert x l) <-> y = x \/ In y l.
Proof.
  induction l as [|z l IH]; simpl.
  - split; [intros [H|[]]; auto | intros [H|[]]; auto].
  - destruct (Qle_bool x z); simpl; [split; intros [H|H]; auto|].
    rewrite IH. split; [intros [H|[H|H]] | intros [H|[H|H]]]; auto.
Qed.

Lemma sort_In y l : In y (Num.sort l) <-> In y l.
Proof.
  induction l as [|z l IH]; simpl; [tauto|].
  rewrite insert_In, IH. split; intros [H|H]; auto.
Qed.

(** The median of values between 0 and 1 lies between 0 and 1. *)
Lemma median_values_bounds v m :
  (forall x, In x v -> 0 <= x /\ x <= 1) ->
  Num.median_values v = Some m -> 0 <= m /\ m <= 1.
Proof.
  intros B. unfold Num.median_values.
  set (s := Num.sort v). set (n := List.length s).
  assert (Bs : forall k, (k < n)%nat -> 0 <= nth k s 0 /\ nth k s 0 <= 1).
  { intros k Hk. apply B, sort_In. now apply nth_In. }
  destruct n as [|n'] eqn:En; [discriminate|].
  destruct (Nat.even (S n')) eqn:Ev; intros H; injection H as <-.
  - assert (Hn : (2 <= S n')%nat).
    { destruct n'; [discriminate | lia]. }
    assert (H1 : (S n' / 2 - 1 < S n')%nat).
    { pose proof (Nat.div_lt (S n') 2). lia. }
    assert (H2 : (S n' / 2 < S n')%nat) by (apply Nat.div_lt; lia).
    destruct (Bs _ H1) as [A1 A2]. destruct (Bs _ H2) as [A3 A4].
    change (S n' / 2)%nat with (fst (Nat.divmod n' 1 0 0)) in A1, A2, A3, A4.
    set (a := nth _ s 0) in *. set (b := nth (fst _) s 0) in *.
    assert (S0 : 0 <= Num.add a b).
    { unfold Num.add. apply F64Facts.round_nonneg. lra. }
    assert (S2 : Num.add a b <= 2).
    { unfold Num.add. change 2 with (F64.round 2). apply F64Facts.round_mono. lra. }
    unfold Num.div. split.
    + apply F64Facts.round_nonneg. apply Qle_shift_div_l; lra.
    + apply Qle_trans with (F64.round 1); [|rewrite round_1; lra].
      apply F64Facts.round_mono. apply Qle_shift_div_r; lra.
  - apply Bs. change (S n' / 2 < S n')%nat. apply Nat.div_lt; lia.
Qed.

Lemma median_bounds cells m :
  (forall x, In (Some x) cells -> 0 <= x /\ x <= 1) ->
  Num.median cells = Some m -> 0 <= m /\ m <= 1.
Proof.
  intros B. apply median_values_bounds. intros x Hx. apply B. now apply In_dropna.
Qed.

(** A share of a whole lies between 0 and 1. *)
Lemma ratio_bounds a b x :
  (a <= b)%nat -> Num.ratio a b = Some x -> 0 <= x /\ x <= 1.
Proof.
  intros Hab. unfold Num.ratio. destruct b as [|b']; [discriminate|].
  intros H. injection H as <-. unfold Num.of_nat. apply div_unit.
  - change 0 with (inject_Z 0). rewrite <- Zle_Qle. lia.
  - rewrite <- Zle_Qle. lia.
Qed.

Lemma row_completeness_bounds g x :
  In (Some x) (Cleaning.row_completeness g) -> 0 <= x /\ x <= 1.
Proof.
  unfold Cleaning.row_completeness. intros H. apply in_map_iff in H.
  destruct H as [i [H _]]. apply ratio_bounds in H; [assumption|].
  apply filter_length_le.
Qed.

Lemma missingness_bounds d x :
  Cleaning.missingness d = Some x -> 0 <= x /\ x <= 1.
Proof.
  unfold Cleaning.missingness. intros H. apply ratio_bounds in H; [assumption|].
  replace (col_length d) with (List.length (null_mask d)).
  - apply filter_length_le.
  - destruct d; simpl; apply length_map.
Qed.

Lemma col_missingness_bounds g x :
  In (Some x) (Cleaning.col_missingness g) -> 0 <= x /\ x <= 1.
Proof.
  unfold Cleaning.col_missingness. intros H. apply in_map_iff in H.
  destruct H as [col [H _]]. now apply missingness_bounds with (cdata col).
Qed.

(** The binary64 numbers of the literals of the two thresholds. *)
Lemma literals_ordered :
  F64.round (1 # 10) <= F64.round (2 # 10) /\
  F64.round (2 # 10) <= F64.round (4 # 10) /\
  F64.round (4 # 10) <= F64.round (6 # 10) /\
  F64.round (6 # 10) <= F64.round (9 # 10) /\
  F64.round (1 - F64.round (1 # 10)) = F64.round (9 # 10) /\
  F64.round (0 + F64.round (1 # 10)) = F64.round (1 # 10).
Proof.
  repeat split; try (vm_compute; reflexivity); apply Qle_bool_iff; vm_compute; reflexivity.
Qed.

Lemma row_thresh_range g :
  F64.round (2 # 10) <= Cleaning.row_thresh g /\
  Cleaning.row_thresh g <= F64.round (9 # 10).
Proof.
  destruct literals_ordered as [L1 [L2 [L3 [L4 [L5 L6]]]]].
  unfold Cleaning.row_thresh, Num.lit. destruct (Cleaning.is_2018 (Cleaning.year_of g)).
  - split; lra.
  - destruct (Num.median (Cleaning.row_completeness g)) as [med|] eqn:M.
    + destruct (@median_bounds _ med (@row_completeness_bounds g) M) as [M0 M1].
      simpl Num.fsub. rewrite py_max_Qmax. unfold Num.sub.
      split; [apply Q.le_max_l | apply Q.max_lub; [lra|]].
      apply Qle_trans with (F64.round (1 - F64.round (1 # 10))); [|rewrite L5; lra].
      apply F64Facts.round_mono. lra.
    + simpl. split; lra.
Qed.

Lemma col_thresh_range g :
  F64.round (1 # 10) <= Cleaning.col_thresh g /\
  Cleaning.col_thresh g <= F64.round (9 # 10).
Proof.
  destruct literals_ordered as [L1 [L2 [L3 [L4 [L5 L6]]]]].
  unfold Cleaning.col_thresh, Num.lit. destruct (Cleaning.is_2018 (Cleaning.year_of g)).
  - split; lra.
  - destruct (Num.median (Cleaning.col_missingness g)) as [med|] eqn:M.
    + destruct (@median_bounds _ med (@col_missingness_bounds g) M) as [M0 M1].
      simpl Num.fadd. rewrite py_min_Qmin. unfold Num.add.
      split; [apply Q.min_glb; [lra|] | apply Q.le_min_l].
      apply Qle_trans with (F64.round (0 + F64.round (1 # 10))); [rewrite L6; lra|].
      apply F64Facts.round_mono. lra.
    + simpl. split; lra.
Qed.

End MedianFacts.

Import MedianFacts.

(** X1: whatever the group, the row threshold of the group cleaner lies
    between 0.2 and 0.9 and its column threshold between 0.1 and 0.9, the
    binary64 numbers of these literals: the shares of present and of
    missing cells lie between 0 and 1, and so do their medians. *)
Theorem X1_thresholds_in_range g :
  (forall x, In (Some x) (Cleaning.row_completeness g) -> 0 <= x /\ x <= 1) /\
  (forall x, In (Some x) (Cleaning.col_missingness g) -> 0 <= x /\ x <= 1) /\
  F64.round (2 # 10) <= Cleaning.row_thresh g /\
  Cleaning.row_thresh g <= F64.round (9 # 10) /\
  F64.round (1 # 10) <= Cleaning.col_thresh g /\
  Cleaning.col_thresh g <= F64.round (9 # 10).
Proof.
  destruct (row_thresh_range g) as [R1 R2].
  destruct (col_thresh_range g) as [C1 C2].
  split; [apply row_completeness_bounds|].
  split; [apply col_missingness_bounds|].
  auto.
Qed.

Module GroupCleanerFacts.

Import Cleaning.

(** The table before imputation: sparse rows and columns gone. *)
Lemma dynamic_clean_group_inv g out :
  dynamic_clean_group g = Some out ->
  out = for_columns
          (column_names
             (drop (drop_cols g)
                (select_rows (map (fun ri => Num.fge ri (Some (row_thresh g)))
                                  (row_completeness g)) g)))
          impute_column
          (drop (drop_cols g)
             (select_rows (map (fun ri => Num.fge ri (Some (row_thresh g)))
                               (row_completeness g)) g)).
Proof.
  unfold dynamic_clean_group. destruct (year_of g); try discriminate;
    intros H; now injection H as <-.
Qed.



Lemma fill_keeps (A : Type) (v : A) (c : list (option A)) : forall i x,
  nth i c None = Some x -> nth i (map (fill v) c) None = Some x.
Proof.
  induction c as [|y c IH]; intros [|i] x H; simpl in *; try discriminate.
  - now subst y.
  - now apply IH.
Qed.

Lemma fillna_num_keeps v c i x :
  nth i c None = Some x -> nth i (fillna_num v c) None = Some x.
Proof.
  intros H. unfold fillna_num. destruct v; [now apply fill_keeps | assumption].
Qed.

(** Imputation changes no cell that holds a value. *)
Lemma impute_column_keeps col i v :
  cell_at (cdata col) i = Some v -> cell_at (impute_column col) i = Some v.
Proof.
  unfold impute_column. destruct (cdata col) as [c|c|c]; simpl.
  - destruct (nth i c None) as [x|] eqn:N; [|discriminate]. intros H.
    now rewrite (fillna_num_keeps _ _ _ N).
  - intros H. destruct (Obj.mode_first (Num.dropna c)); simpl; now apply fill_keeps.
  - destruct (nth i c None) as [x|] eqn:N; [|discriminate]. intros H.
    destruct (Obj.mode_first _) as [[q|s|t]|]; simpl; try now rewrite N.
    now rewrite (fill_keeps t _ _ N).
Qed.

Lemma impute_column_object col c :
  impute_column col = ObjCol c -> ~ In None c.
Proof.
  unfold impute_column. destruct (cdata col) as [c0|c0|c0].
  - discriminate.
  - destruct (Obj.mode_first _); intros H; injection H as <-;
      apply TimeFieldFacts.fill_complete.
  - destruct (Obj.mode_first _) as [[q|s|t]|]; discriminate.
Qed.

End GroupCleanerFacts.


(** X3: the table the group cleaner returns misses no cell in a column of
    dtype object, and imputation changes no cell that held a value: every
    column it returns agrees, where that column had a value, with the
    column of the same label left by the removal of sparse rows and
    columns. *)
Theorem X3_group_cleaner_imputation g out col :
  NoDup (column_names g) ->
  Cleaning.dynamic_clean_group g = Some out ->
  In col (columns out) ->
  (forall c, cdata col = ObjCol c -> ~ In None c) /\
  exists col0,
    get (Cleaning.drop (Cleaning.drop_cols g)
           (select_rows (map (fun ri => Num.fge ri (Some (Cleaning.row_thresh g)))
                             (Cleaning.row_completeness g)) g)) (cname col) = Some col0 /\
    forall i v, cell_at (cdata col0) i = Some v -> cell_at (cdata col) i = Some v.
Proof.
  intros ND E Hin. rewrite (GroupCleanerFacts.dynamic_clean_group_inv g E) in Hin.
  set (g' := Cleaning.drop _ _) in *.
  assert (ND' : NoDup (column_names g')).
  { unfold g'. rewrite drop_names, ShapeFacts.select_rows_names. now apply NoDup_filter. }
  rewrite for_columns_columns in Hin by assumption.
  apply in_map_iff in Hin. destruct Hin as [col0 [<- Hin0]].
  unfold update_where.
  replace (PyStr.mem (cname col0) (column_names g')) with true
    by (symmetry; apply mem_iff; now apply in_map).
  cbn [cname cdata]. split.
  - intros c Hc. now apply (GroupCleanerFacts.impute_column_object col0).
  - exists col0. split; [now apply get_in|].
    intros i v. apply GroupCleanerFacts.impute_column_keeps.
Qed.

Module RowFacts.

Lemma select_combine (A B : Type) (mask : list bool) : forall (a : list A) (b : list B),
  select mask (combine a b) = combine (select mask a) (select mask b).
Proof.
  induction mask as [|m mask IH]; intros [|x a] [|y b]; simpl; try reflexivity.
  - destruct m; [reflexivity|]. now destruct (select mask a).
  - destruct m; simpl; now rewrite IH.
Qed.

(** A label that occurs once goes with one cell. *)
Lemma combine_functional (A B : Type) (a : list A) : forall (b : list B) l x y,
  NoDup a -> In (l, x) (combine a b) -> In (l, y) (combine a b) -> x = y.
Proof.
  induction a as [|h a IH]; intros [|k b] l x y ND Hx Hy; simpl in *; try contradiction.
  inversion ND as [|? ? Hh ND']; subst.
  destruct Hx as [Hx|Hx], Hy as [Hy|Hy].
  - congruence.
  - injection Hx as -> ->. exfalso. apply Hh. now apply in_combine_l in Hy.
  - injection Hy as -> ->. exfalso. apply Hh. now apply in_combine_l in Hx.
  - now apply (IH b l).
Qed.

Lemma nth_combine_In (A B : Type) (a : list A) : forall (b : list B) pos l d,
  nth_error a pos = Some l -> (pos < List.length b)%nat ->
  In (l, nth pos b d) (combine a b).
Proof.
  induction a as [|h a IH]; intros [|k b] [|pos] l d H L; simpl in *;
    try discriminate; try lia.
  - injection H as ->. now left.
  - right. apply IH; [assumption | lia].
Qed.

Lemma nth_some_lt (A : Type) (l : list (option A)) pos v :
  nth pos l None = Some v -> (pos < List.length l)%nat.
Proof.
  intros H. destruct (Nat.lt_ge_cases pos (List.length l)) as [L|L]; [assumption|].
  rewrite (nth_overflow _ _ L) in H. discriminate.
Qed.

End RowFacts.

(** X4: [remove_outliers] removes every row that misses a value in a
    numeric column, whatever the other values of the row. *)
Theorem X4_outliers_drop_rows_with_missing_value df c cells pos label :
  NoDup (column_names df) -> NoDup (index df) -> well_formed df ->
  get df c = Some (mkColumn c (NumCol cells)) ->
  nth_error (index df) pos = Some label ->
  nth pos cells None = None ->
  ~ In label (index (Cleaning.remove_outliers df)).
Proof.
  intros ND NDi WF G Hpos Hnone Hin.
  assert (Hc : In c (numeric_names df)).
  { unfold numeric_names. apply in_map_iff. exists (mkColumn c (NumCol cells)).
    split; [reflexivity|]. apply filter_In. split; [|reflexivity].
    now destruct (FrameFacts.get_some _ _ G). }
  apply In_nth_error in Hc. destruct Hc as [k Hk].
  unfold Cleaning.remove_outliers in Hin.
  apply OutlierFacts.outlier_loop_index in Hin;
    [| assumption | now apply OutlierFacts.numeric_names_numeric_in].
  destruct Hin as [_ H]. specialize (H k c Hk).
  destruct (SelectFacts.outlier_loop_selects (firstn k (numeric_names df)) WF)
    as [mask E].
  rewrite E in H. destruct H as [cells' [pos' [v [G' [Hpos' [Hv _]]]]]].
  rewrite OutlierFacts.get_select_rows, G in G'. simpl in G'. injection G' as <-.
  simpl in Hpos'.
  assert (I1 : In (label, Some v) (combine (index df) cells)).
  { apply (select_incl mask). rewrite RowFacts.select_combine. rewrite <- Hv.
    apply RowFacts.nth_combine_In; [assumption | now apply RowFacts.nth_some_lt with v]. }
  assert (I2 : In (label, @None Q) (combine (index df) cells)).
  { rewrite <- Hnone. apply RowFacts.nth_combine_In; [assumption|].
    unfold well_formed in WF. rewrite Forall_forall in WF.
    specialize (WF _ (proj1 (FrameFacts.get_some _ _ G))). simpl in WF. rewrite WF.
    apply nth_error_Some. unfold nrows. congruence. }
  pose proof (RowFacts.combine_functional _ _ _ _ NDi I1 I2). discriminate.
Qed.


(** X3 at work on [leases_group]: the column [market] of the result. *)
Lemma X3_group_cleaner_imputation_witness :
  exists out col,
    Cleaning.dynamic_clean_group leases_group = Some out /\
    nth_error (columns out) 0 = Some col /\
    (forall c, cdata col = ObjCol c -> ~ In None c).
Proof.
  eexists. eexists. split; [vm_compute; reflexivity|]. split; [reflexivity|].
  refine (proj1 (@X3_group_cleaner_imputation leases_group _ _ _ _ _)).
  - apply unique_NoDup. reflexivity.
  - vm_compute. reflexivity.
  - left. reflexivity.
Defined.

(** X4 at work on [leases_group]: row 1 has no rent and is removed. *)
Lemma X4_outliers_drop_rows_with_missing_value_witness :
  nth_error (index leases_group) 1 = Some 1%nat /\
  ~ In 1%nat (index (Cleaning.remove_outliers leases_group)).
Proof.
  split; [reflexivity|].
  apply (@X4_outliers_drop_rows_with_missing_value leases_group "rent"
           [Some 10; None; Some 30; Some 20; Some 40] 1%nat 1%nat).
  - apply unique_NoDup. reflexivity.
  - apply distinct_labels_NoDup. reflexivity.
  - apply rectangular_well_formed. reflexivity.
  - reflexivity.
  - reflexivity.
  - reflexivity.
Defined.

Module OrderFacts.

Import Num.

Lemma rescale_le mi mx x y :
  mi <= mx -> x <= y -> div (sub x mi) (sub mx mi) <= div (sub y mi) (sub mx mi).
Proof.
  intros Hle Hxy. unfold div. apply F64Facts.round_mono. unfold Qdiv.
  apply Qmult_le_compat_r.
  - unfold sub. apply F64Facts.round_mono. lra.
  - apply Qinv_le_0_compat. unfold sub. apply F64Facts.round_nonneg. lra.
Qed.

(** The least and the greatest value of a series that has a value. *)
Lemma min_max_of_value cells x :
  In (Some x) cells ->
  exists mi mx, Num.min cells = Some mi /\ Num.max cells = Some mx /\
                mi <= x /\ x <= mx /\
                (forall z, In (Some z) cells -> mi <= z /\ z <= mx).
Proof.
  intros Hx. apply In_dropna in Hx. unfold Num.min, Num.max.
  destruct (min_values (dropna cells)) as [mi|] eqn:Hmi;
    [|apply min_values_none in Hmi; rewrite Hmi in Hx; contradiction].
  destruct (max_values (dropna cells)) as [mx|] eqn:Hmx;
    [|apply max_values_none in Hmx; rewrite Hmx in Hx; contradiction].
  destruct (min_values_spec _ Hmi) as [_ Lmi].
  destruct (max_values_spec _ Hmx) as [_ Lmx].
  exists mi, mx. repeat split; auto.
  - apply Lmi. now apply In_dropna.
  - apply Lmx. now apply In_dropna.
Qed.

Lemma normalize_cells_order cells i j x y :
  nth i cells None = Some x -> nth j cells None = Some y ->
  exists x' y',
    nth i (Cleaning.normalize_cells cells) None = Some x' /\
    nth j (Cleaning.normalize_cells cells) None = Some y' /\
    (x <= y -> x' <= y').
Proof.
  intros Hi Hj.
  assert (Ix : In (Some x) cells).
  { rewrite <- Hi. apply nth_In. now apply RowFacts.nth_some_lt with x. }
  assert (Iy : In (Some y) cells).
  { rewrite <- Hj. apply nth_In. now apply RowFacts.nth_some_lt with y. }
  destruct (min_max_of_value _ _ Ix) as [mi [mx [Hmi [Hmx [L1 [L2 B]]]]]].
  destruct (B y Iy) as [L3 L4].
  unfold Cleaning.normalize_cells. rewrite Hmi, Hmx.
  destruct (Qeq_bool mi mx) eqn:E; simpl.
  - exists 0, 0.
    rewrite !nth_const;
      [| now apply RowFacts.nth_some_lt with y | now apply RowFacts.nth_some_lt with x].
    repeat split; intros; lra.
  - exists (div (sub x mi) (sub mx mi)), (div (sub y mi) (sub mx mi)).
    rewrite !nth_option_map, Hi, Hj. simpl.
    repeat split. apply rescale_le. lra.
Qed.

Lemma normalize_cells_missing cells i x y :
  In (Some x) cells -> In (Some y) cells -> ~ x == y ->
  nth i cells None = None -> nth i (Cleaning.normalize_cells cells) None = None.
Proof.
  intros Ix Iy Hne Hi.
  destruct (min_max_of_value _ _ Ix) as [mi [mx [Hmi [Hmx [L1 [L2 B]]]]]].
  destruct (B y Iy) as [L3 L4].
  unfold Cleaning.normalize_cells. rewrite Hmi, Hmx.
  destruct (Qeq_bool mi mx) eqn:E; simpl.
  - apply Qeq_bool_iff in E. exfalso. apply Hne. lra.
  - now rewrite nth_option_map, Hi.
Qed.

End OrderFacts.

(** X5: [normalize] does not reverse the order of the values of a numeric
    column whose greatest and least value are less than 2^63 apart: of two
    cells that hold values, the one with the smaller value gets a new value
    that is not greater, and equal values get equal new values (binary64
    rounding can make the new values of two different values equal).  When
    the column holds two different values, its missing cells stay
    missing. *)
Theorem X5_normalize_keeps_order df col cells :
  NoDup (column_names df) -> In col (columns df) -> cdata col = NumCol cells ->
  narrow cells = true ->
  exists cells',
    get (Cleaning.normalize df) (cname col) = Some (mkColumn (cname col) (NumCol cells')) /\
    (forall i j x y,
       nth i cells None = Some x -> nth j cells None = Some y ->
       exists x' y',
         nth i cells' None = Some x' /\ nth j cells' None = Some y' /\
         (x <= y -> x' <= y') /\ (x == y -> x' == y')) /\
    (forall i x y,
       In (Some x) cells -> In (Some y) cells -> ~ x == y ->
       nth i cells None = None -> nth i cells' None = None).
Proof.
  intros ND Hin E _. exists (Cleaning.normalize_cells cells). split; [|split].
  - rewrite normalize_get by assumption. unfold Cleaning.normalize_column.
    now rewrite E.
  - intros i j x y Hi Hj.
    destruct (OrderFacts.normalize_cells_order _ _ _ Hi Hj) as [x' [y' [Hx [Hy L]]]].
    destruct (OrderFacts.normalize_cells_order _ _ _ Hj Hi) as [y2 [x2 [Hy2 [Hx2 L2]]]].
    rewrite Hx in Hx2. rewrite Hy in Hy2.
    injection Hx2 as <-. injection Hy2 as <-.
    exists x', y'. repeat split; try assumption.
    intros Q. apply Qle_antisym; [apply L | apply L2]; lra.
  - intros i x y. apply OrderFacts.normalize_cells_missing.
Qed.

(** X5 at work on the column [rent] of [leases_group]. *)
Lemma X5_normalize_keeps_order_witness :
  exists cells',
    get (Cleaning.normalize leases_group) "rent" = Some (mkColumn "rent" (NumCol cells')) /\
    nth 1 cells' None = None.
Proof.
  destruct (@X5_normalize_keeps_order leases_group
              (mkColumn "rent" (NumCol [Some 10; None; Some 30; Some 20; Some 40]))
              [Some 10; None; Some 30; Some 20; Some 40]) as [cells' [G [_ M]]].
  - apply unique_NoDup. reflexivity.
  - right. right. left. reflexivity.
  - reflexivity.
  - reflexivity.
  - exists cells'. split; [exact G|].
    apply (M 1%nat 10 30); simpl; auto. discriminate.
Defined.

Module TextFacts.

Import Cleaning.

Lemma kept_char_plain a :
  is_word (PyStr.lower_ascii a) || is_space (PyStr.lower_ascii a) = true ->
  plain_char (PyStr.lower_ascii a) = true.
Proof.
  destruct a as [[] [] [] [] [] [] [] []]; vm_compute; intros H;
    first [reflexivity | discriminate H].
Qed.

Lemma remove_punct_lower_plain s :
  all_chars plain_char (remove_punct (PyStr.lower s)) = true.
Proof.
  induction s as [|a r IH]; [reflexivity|].
  cbn [PyStr.lower remove_punct].
  destruct (is_word (PyStr.lower_ascii a) || is_space (PyStr.lower_ascii a)) eqn:E;
    [|exact IH].
  cbn [all_chars]. now rewrite (kept_char_plain _ E), IH.
Qed.

Lemma nth_clean_text c i :
  nth i (map clean_text c) None = clean_text (nth i c None).
Proof. change (@None value) with (clean_text None) at 1. apply map_nth. Qed.

Lemma standardize_dtypes_get P df col :
  NoDup (column_names df) -> In col (columns df) ->
  get (standardize_dtypes P df) (cname col) =
  Some (mkColumn (cname col) (standardize_column P col)).
Proof.
  intros ND Hin.
  change (cname col) with (cname (mkColumn (cname col) (standardize_column P col))) at 1.
  apply get_in; [now rewrite standardize_dtypes_names|].
  rewrite standardize_dtypes_columns by assumption.
  apply in_map_iff. now exists col.
Qed.

End TextFacts.

(** X6: [standardize_dtypes] leaves a text column that holds at least one
    string and whose label does not contain [date] a text column of the
    same length.  A cell that holds a string holds afterwards a string
    without ASCII punctuation and without ASCII upper-case letter; a cell
    that holds anything else, or nothing, is missing afterwards.  (On a
    column of dtype object that holds values none of which is a string
    pandas refuses the [.str] accessor and the function raises.) *)
Theorem X6_standardize_text P df col c :
  NoDup (column_names df) -> In col (columns df) -> cdata col = ObjCol c ->
  Cleaning.is_date_name (cname col) = false ->
  holds_string c = true ->
  exists c',
    get (Cleaning.standardize_dtypes P df) (cname col) =
      Some (mkColumn (cname col) (ObjCol c')) /\
    List.length c' = List.length c /\
    forall i,
      match nth i c None with
      | Some (VStr s) =>
          exists s', nth i c' None = Some (VStr s') /\ all_chars plain_char s' = true
      | _ => nth i c' None = None
      end.
Proof.
  intros ND Hin E Hname _. exists (map Cleaning.clean_text c). split; [|split].
  - rewrite TextFacts.standardize_dtypes_get by assumption.
    unfold Cleaning.standardize_column. now rewrite Hname, E.
  - apply length_map.
  - intros i. rewrite TextFacts.nth_clean_text.
    destruct (nth i c None) as [[q|s|t]|]; try reflexivity.
    eexists. split; [reflexivity|]. apply TextFacts.remove_punct_lower_plain.
Qed.

(** X6 at work on the column [broker] of [leases_group]. *)
Lemma X6_standardize_text_witness :
  exists c',
    get (Cleaning.standardize_dtypes Sample.pandas leases_group) "broker" =
      Some (mkColumn "broker" (ObjCol c')) /\
    List.length c' = 5%nat.
Proof.
  destruct (@X6_standardize_text Sample.pandas leases_group
              (mkColumn "broker" (ObjCol [Some (VStr "cbre"); None; Some (VStr "jll");
                                          None; Some (VStr "cbre")]))
              [Some (VStr "cbre"); None; Some (VStr "jll"); None; Some (VStr "cbre")])
    as [c' [G [L _]]].
  - apply unique_NoDup. reflexivity.
  - right. right. right. left. reflexivity.
  - reflexivity.
  - reflexivity.
  - reflexivity.
  - exists c'. split; assumption.
Defined.

Module ShapeKeptFacts.

Import Cleaning.

Lemma select_length (B C : Type) (m : list bool) : forall (a : list B) (b : list C),
  List.length a = List.length b ->
  List.length (select m a) = List.length (select m b).
Proof.
  induction m as [|x m IH]; intros [|y a] [|z b] H;
    simpl in *; try reflexivity; try discriminate.
  injection H as H. destruct x; simpl; auto.
Qed.

Lemma select_rows_well_formed m t : well_formed t -> well_formed (select_rows m t).
Proof.
  unfold well_formed. rewrite !Forall_forall. intros WF col Hin.
  simpl in Hin. apply in_map_iff in Hin. destruct Hin as [col0 [<- Hin0]].
  specialize (WF col0 Hin0). unfold nrows in *. simpl.
  destruct (cdata col0); simpl in *; now apply select_length.
Qed.

Lemma objects_length d : List.length (objects d) = col_length d.
Proof. destruct d; simpl; try reflexivity; apply length_map. Qed.

Lemma to_datetime_length P d : col_length (to_datetime P d) = col_length d.
Proof.
  destruct d as [c|c|c]; simpl; try reflexivity; now rewrite length_map, ?length_map.
Qed.

Lemma all_numeric_length P c : forall n,
  all_numeric P c = Some n -> List.length n = List.length c.
Proof.
  induction c as [|x c IH]; simpl; intros n H.
  - now injection H as <-.
  - destruct (numeric_of P x); [|discriminate].
    destruct (all_numeric P c); [|discriminate].
    injection H as <-. simpl. f_equal. now apply IH.
Qed.

Lemma to_numeric_ignore_length P d : col_length (to_numeric_ignore P d) = col_length d.
Proof.
  destruct d as [c|c|c]; simpl; [reflexivity | | apply length_map].
  destruct (all_numeric P c) eqn:E; simpl; [|reflexivity].
  now apply all_numeric_length with P.
Qed.

Lemma standardize_column_length P col :
  col_length (standardize_column P col) = col_length (cdata col).
Proof.
  unfold standardize_column. destruct (is_date_name (cname col)).
  - apply to_datetime_length.
  - destruct (cdata col) as [c|c|c] eqn:E; simpl; try reflexivity; apply length_map.
Qed.

Lemma standardize_dtypes_well_formed P df :
  NoDup (column_names df) -> well_formed df -> well_formed (standardize_dtypes P df).
Proof.
  intros ND.
  assert (I : index (standardize_dtypes P df) = index df) by apply for_columns_index.
  unfold well_formed, nrows. rewrite I, standardize_dtypes_columns by assumption.
  rewrite !Forall_forall. intros WF col Hin.
  apply in_map_iff in Hin. destruct Hin as [col0 [<- Hin0]]. simpl.
  rewrite standardize_column_length. now apply WF.
Qed.

Lemma normalize_well_formed df :
  NoDup (column_names df) -> well_formed df -> well_formed (normalize df).
Proof.
  intros ND.
  assert (I : index (normalize df) = index df) by apply for_columns_index.
  unfold well_formed, nrows. rewrite I, normalize_columns by assumption.
  rewrite !Forall_forall. intros WF col Hin.
  apply in_map_iff in Hin. destruct Hin as [col0 [<- Hin0]]. simpl.
  specialize (WF col0 Hin0). unfold normalize_column.
  destruct (cdata col0); simpl in *; try assumption.
  now rewrite normalize_cells_length.
Qed.

Lemma remove_outliers_names df :
  column_names (remove_outliers df) = column_names df.
Proof.
  unfold column_names, remove_outliers.
  apply CompleteFacts.names_of_kinds, CompleteFacts.loop_kinds.
Qed.

End ShapeKeptFacts.

(** X7: the chain [normalize(remove_outliers(standardize_dtypes(x)))] of
    [main] keeps the column labels of [x] in their order, keeps of the row
    labels of [x] a selection in their order, and returns a table whose
    columns are all as long as its index. *)
Theorem X7_finish_keeps_shape P x :
  NoDup (column_names x) -> well_formed x ->
  column_names (Cleaning.finish P x) = column_names x /\
  (exists mask, index (Cleaning.finish P x) = select mask (index x)) /\
  well_formed (Cleaning.finish P x).
Proof.
  intros ND WF. unfold Cleaning.finish.
  set (s := Cleaning.standardize_dtypes P x).
  assert (NDs : NoDup (column_names s)) by (unfold s; now rewrite standardize_dtypes_names).
  assert (WFs : well_formed s) by now apply ShapeKeptFacts.standardize_dtypes_well_formed.
  destruct (SelectFacts.outlier_loop_selects (numeric_names s) WFs) as [mask E].
  fold (Cleaning.remove_outliers s) in E.
  assert (NDr : NoDup (column_names (Cleaning.remove_outliers s)))
    by now rewrite ShapeKeptFacts.remove_outliers_names.
  split; [|split].
  - rewrite normalize_names, ShapeKeptFacts.remove_outliers_names.
    apply standardize_dtypes_names.
  - exists mask. unfold Cleaning.normalize. rewrite for_columns_index, E.
    simpl. unfold s, Cleaning.standardize_dtypes. now rewrite for_columns_index.
  - apply ShapeKeptFacts.normalize_well_formed; [assumption|].
    rewrite E. now apply ShapeKeptFacts.select_rows_well_formed.
Qed.

(** X7 at work on [two_columns]. *)
Lemma X7_finish_keeps_shape_witness :
  column_names (Cleaning.finish Sample.pandas two_columns) = ["a"; "b"].
Proof.
  apply (@X7_finish_keeps_shape Sample.pandas two_columns).
  - apply unique_NoDup. reflexivity.
  - apply rectangular_well_formed. reflexivity.
Defined.

(** X8: on a table that has the columns [year] and [quarter],
    [create_year_quarter] keeps the row labels and every column other than
    [year_quarter], and sets a text column [year_quarter] with one cell for
    each cell of [year]; no cell of it is missing, also where the year or
    the quarter is.  On any other table it changes nothing. *)
Theorem X8_create_year_quarter P df :
  let out := Cleaning.create_year_quarter P df in
  (forall y q, get df "year" = Some y -> get df "quarter" = Some q ->
     index out = index df /\
     (forall c, c <> "year_quarter" -> get out c = get df c) /\
     exists cells,
       get out "year_quarter" = Some (mkColumn "year_quarter" (ObjCol cells)) /\
       List.length cells = col_length (cdata y) /\
       ~ In None cells) /\
  (get df "year" = None \/ get df "quarter" = None -> out = df).
Proof.
  intros out. unfold out, Cleaning.create_year_quarter. split.
  - intros y q Hy Hq. rewrite Hy, Hq. split; [|split].
    + unfold assign. now destruct (has_column df "year_quarter").
    + intros c Hc. now apply GetFacts.get_assign_other.
    + eexists. split; [apply GetFacts.get_assign_same|]. split.
      * unfold Cleaning.year_quarter_cells. now rewrite length_map, length_seq.
      * unfold Cleaning.year_quarter_cells. intros H. apply in_map_iff in H.
        destruct H as [i [H _]]. discriminate H.
  - intros [H|H]; rewrite H; [reflexivity|]. now destruct (get df "year").
Qed.

(** X9: [parse_date_columns] run a second time changes nothing. *)
Theorem X9_parse_date_columns_idempotent P df :
  NoDup (column_names df) ->
  CleaningDeep.parse_date_columns P (CleaningDeep.parse_date_columns P df) =
  CleaningDeep.parse_date_columns P df.
Proof.
  intros ND. apply df_ext.
  - unfold CleaningDeep.parse_date_columns at 1. apply for_columns_index.
  - rewrite (@parse_date_columns_columns P (CleaningDeep.parse_date_columns P df))
      by now rewrite parse_date_columns_names.
    rewrite (parse_date_columns_columns P df ND), map_map.
    apply map_ext. intros col.
    destruct (CleaningDeep.is_date_like (cname col)) eqn:E; simpl; rewrite E; [|reflexivity].
    f_equal. now destruct (cdata col).
Qed.

(** X9 at work on [dated_leases]. *)
Lemma X9_parse_date_columns_idempotent_witness :
  CleaningDeep.parse_date_columns Sample.pandas
    (CleaningDeep.parse_date_columns Sample.pandas dated_leases) =
  CleaningDeep.parse_date_columns Sample.pandas dated_leases.
Proof.
  apply (@X9_parse_date_columns_idempotent Sample.pandas dated_leases).
  apply unique_NoDup. reflexivity.
Defined.

Module DuplicateFacts.

Import CleaningDeep.

Lemma value_eqb_refl v : Obj.eqb v v = true.
Proof.
  destruct v as [q|s|t]; simpl.
  - apply Qeq_bool_iff. reflexivity.
  - apply String.eqb_refl.
  - apply Z.eqb_refl.
Qed.

Lemma value_eqb_trans a b c :
  Obj.eqb a b = true -> Obj.eqb b c = true -> Obj.eqb a c = true.
Proof.
  destruct a as [x|x|x], b as [y|y|y], c as [z|z|z]; simpl; try discriminate.
  - rewrite !Qeq_bool_iff. intros H1 H2. now rewrite H1.
  - rewrite !String.eqb_eq. congruence.
  - unfold Obj.ts_eqb. rewrite !Z.eqb_eq. congruence.
Qed.

Lemma cell_eqb_refl c : cell_eqb c c = true.
Proof. destruct c; simpl; [apply value_eqb_refl | reflexivity]. Qed.

Lemma cell_eqb_trans a b c :
  cell_eqb a b = true -> cell_eqb b c = true -> cell_eqb a c = true.
Proof.
  destruct a, b, c; simpl; try discriminate; try reflexivity.
  apply value_eqb_trans.
Qed.

Lemma same_row_refl df i : same_row df i i = true.
Proof. unfold same_row. apply forallb_forall. intros col _. apply cell_eqb_refl. Qed.

Lemma same_row_trans df i j k :
  same_row df i j = true -> same_row df j k = true -> same_row df i k = true.
Proof.
  unfold same_row. rewrite !forallb_forall. intros H1 H2 col Hin.
  apply cell_eqb_trans with (cell_at (cdata col) j); auto.
Qed.

(** The flag of the row at position [i]. *)
Lemma nth_duplicated df i d :
  (i < nrows df)%nat ->
  nth i (duplicated df) d = existsb (same_row df i) (seq 0 i).
Proof.
  intros H. set (f := fun i => existsb (same_row df i) (seq 0 i)).
  change (nth i (map f (seq 0 (nrows df))) d = f i).
  rewrite nth_indep with (d' := f O) by now rewrite length_map, length_seq.
  rewrite (map_nth f), seq_nth by assumption. reflexivity.
Qed.

(** Every row is the same as a row that is not flagged, at or before
    it. *)
Lemma first_occurrence df i :
  (i < nrows df)%nat ->
  exists k, (k <= i)%nat /\ nth k (duplicated df) true = false /\
            same_row df i k = true.
Proof.
  induction i as [i IH] using lt_wf_ind. intros Hi.
  destruct (existsb (same_row df i) (seq 0 i)) eqn:E.
  - apply existsb_exists in E. destruct E as [k0 [Hk0 S0]].
    apply in_seq in Hk0.
    destruct (IH k0) as [k [Hk [Fk Sk]]]; [lia | lia |].
    exists k. split; [lia|]. split; [assumption|].
    now apply same_row_trans with k0.
  - exists i. split; [lia|]. split; [|apply same_row_refl].
    now rewrite nth_duplicated.
Qed.

Lemma select_nth (A : Type) (d : A) (mask : list bool) : forall (l : list A) i,
  (i < List.length (select mask l))%nat ->
  nth i (select mask l) d = nth (pos_of mask i) l d.
Proof.
  induction mask as [|b m IH]; intros [|x l] i H; simpl in *; try lia.
  destruct b; simpl in *.
  - destruct i; [reflexivity|]. apply IH. lia.
  - now apply IH.
Qed.

Lemma pos_of_kept (A : Type) (mask : list bool) : forall (l : list A) i,
  (i < List.length (select mask l))%nat ->
  nth (pos_of mask i) mask false = true /\ (pos_of mask i < List.length l)%nat.
Proof.
  induction mask as [|b m IH]; intros [|x l] i H; simpl in *; try lia.
  destruct b; simpl in *.
  - destruct i; [split; [reflexivity | lia]|].
    destruct (IH l i) as [H1 H2]; [lia|]. split; [assumption | lia].
  - destruct (IH l i H) as [H1 H2]. split; [assumption | lia].
Qed.

Lemma pos_of_increasing (A : Type) (mask : list bool) : forall (l : list A) i j,
  (i < j)%nat -> (j < List.length (select mask l))%nat ->
  (pos_of mask i < pos_of mask j)%nat.
Proof.
  induction mask as [|b m IH]; intros [|x l] i j Hij H; simpl in *; try lia.
  destruct b; simpl in *.
  - destruct j; [lia|]. destruct i; [lia|].
    apply -> Nat.succ_lt_mono. apply (IH l); lia.
  - apply -> Nat.succ_lt_mono. now apply (IH l).
Qed.

Lemma cell_at_select mask d i :
  (i < col_length (select_cells mask d))%nat ->
  cell_at (select_cells mask d) i = cell_at d (pos_of mask i).
Proof.
  destruct d as [c|c|c]; simpl; intros H; now rewrite select_nth.
Qed.

Lemma same_row_select mask df i j :
  well_formed df ->
  (i < nrows (select_rows mask df))%nat -> (j < nrows (select_rows mask df))%nat ->
  same_row (select_rows mask df) i j = same_row df (pos_of mask i) (pos_of mask j).
Proof.
  intros WF Hi Hj.
  pose proof (ShapeKeptFacts.select_rows_well_formed mask WF) as WF'.
  unfold well_formed in WF'. rewrite Forall_forall in WF'.
  unfold same_row. simpl columns in *.
  assert (E : forall l : list Column,
            (forall col, In col l ->
               col_length (select_cells mask (cdata col)) = nrows (select_rows mask df)) ->
            forallb (fun col => cell_eqb (cell_at (cdata col) i) (cell_at (cdata col) j))
                    (map (fun col => mkColumn (cname col) (select_cells mask (cdata col))) l) =
            forallb (fun col => cell_eqb (cell_at (cdata col) (pos_of mask i))
                                         (cell_at (cdata col) (pos_of mask j))) l).
  { induction l as [|col l IHl]; intros L; [reflexivity|]. simpl.
    rewrite !cell_at_select by (rewrite L; [assumption | now left]).
    f_equal. apply IHl. intros c Hc. apply L. now right. }
  apply E. intros col Hin.
  apply (WF' (mkColumn (cname col) (select_cells mask (cdata col)))).
  apply in_map_iff. now exists col.
Qed.

End DuplicateFacts.

(** X10: [drop_duplicates] leaves one row of each kind.  No two rows of
    the table it returns hold the same cells, and every row of the input
    holds the same cells as a row that is kept, at or before it. *)
Theorem X10_drop_duplicates_representatives df :
  well_formed df ->
  (forall i j, (i < j)%nat -> (j < nrows (CleaningDeep.drop_duplicates df))%nat ->
     CleaningDeep.same_row (CleaningDeep.drop_duplicates df) j i = false) /\
  (forall i, (i < nrows df)%nat ->
     exists k, (k <= i)%nat /\ nth k (CleaningDeep.duplicated df) true = false /\
               CleaningDeep.same_row df i k = true).
Proof.
  intros WF. split; [|intros i; apply DuplicateFacts.first_occurrence].
  intros i j Hij Hj. unfold CleaningDeep.drop_duplicates in *.
  set (mask := map negb (CleaningDeep.duplicated df)) in *.
  rewrite DuplicateFacts.same_row_select; [|assumption|assumption|lia].
  unfold nrows in Hj. simpl in Hj.
  destruct (@DuplicateFacts.pos_of_kept _ mask (index df) j Hj) as [K L].
  pose proof (@DuplicateFacts.pos_of_increasing _ mask (index df) i j Hij Hj) as I.
  unfold mask in K at 2.
  change false with (negb true) in K. rewrite map_nth in K.
  apply (f_equal negb) in K. rewrite negb_involutive in K. simpl in K.
  rewrite DuplicateFacts.nth_duplicated in K by exact L.
  destruct (CleaningDeep.same_row df (pos_of mask j) (pos_of mask i)) eqn:S;
    [|reflexivity].
  rewrite <- K. symmetry. apply existsb_exists. exists (pos_of mask i).
  split; [apply in_seq; lia | exact S].
Qed.

(** X10 at work on the first two rows of [dated_leases]. *)
Lemma X10_drop_duplicates_representatives_witness :
  CleaningDeep.same_row (CleaningDeep.drop_duplicates dated_leases) 1 0 = false.
Proof.
  apply (proj1 (@X10_drop_duplicates_representatives dated_leases
                  (proj1 (rectangular_well_formed dated_leases) eq_refl))).
  - lia.
  - vm_compute. lia.
Defined.

Module WrittenFacts.

Import CleaningDeep GetFacts MinimalFacts.

Lemma time_fields_NoDup : NoDup time_fields.
Proof. unfold time_fields. repeat constructor; simpl; intuition discriminate. Qed.

(** After the loop that fills the text columns no text column misses a
    cell. *)
Lemma object_fill_complete T col c :
  NoDup (column_names T) ->
  In col (columns
            (for_columns (object_names T)
               (fun col => match cdata col with
                           | ObjCol c => ObjCol (map (fill (VStr "missing")) c)
                           | d => d
                           end) T)) ->
  cdata col = ObjCol c -> ~ In None c.
Proof.
  intros ND Hin E.
  rewrite for_columns_columns in Hin; [|assumption|now apply nodup_object_names].
  apply in_map_iff in Hin. destruct Hin as [col0 [<- Hin0]].
  unfold update_where, object_names in E.
  rewrite mem_names_of_filter in E by assumption.
  destruct (cdata col0) as [x|x|x] eqn:D; simpl in E; rewrite ?D in E; try discriminate.
  injection E as <-. apply fill_complete.
Qed.

Lemma to_numeric_ignore_object P d c :
  Cleaning.to_numeric_ignore P d = ObjCol c -> d = ObjCol c.
Proof.
  destruct d as [x|x|x]; simpl; try discriminate.
  destruct (Cleaning.all_numeric P x); [discriminate | auto].
Qed.

Lemma to_datetime_is_datetime P d : exists x, Cleaning.to_datetime P d = DateCol x.
Proof. destruct d; simpl; eauto. Qed.

End WrittenFacts.

(** X11: no text column of the table [minimal_clean_with_dates] writes
    misses a cell. *)
Theorem X11_minimal_clean_text_complete P input col c :
  NoDup (column_names input) ->
  In col (columns (CleaningDeep.minimal_clean_with_dates P input)) ->
  cdata col = ObjCol c -> ~ In None c.
Proof.
  intros ND. unfold CleaningDeep.minimal_clean_with_dates.
  set (T3 := CleaningDeep.fill_year_qtr_month_from_date P _).
  set (T4 := for_columns (filter _ (numeric_names T3)) _ T3).
  set (T5 := for_columns (object_names T4) _ T4).
  assert (ND4 : NoDup (column_names T4)).
  { unfold T4, T3. rewrite for_columns_names, ShapeFacts.fill_year_qtr_month_names.
    rewrite parse_date_columns_names. unfold CleaningDeep.drop_duplicates.
    now rewrite ShapeFacts.select_rows_names. }
  assert (ND5 : NoDup (column_names T5)) by (unfold T5; now rewrite for_columns_names).
  intros Hin E.
  rewrite for_columns_columns in Hin;
    [|assumption|apply WrittenFacts.time_fields_NoDup].
  apply in_map_iff in Hin. destruct Hin as [col5 [<- Hin5]].
  unfold update_where in E.
  destruct (PyStr.mem (cname col5) CleaningDeep.time_fields); simpl in E.
  - apply WrittenFacts.to_numeric_ignore_object in E.
    now apply (@WrittenFacts.object_fill_complete T4 col5 c).
  - now apply (@WrittenFacts.object_fill_complete T4 col5 c).
Qed.

(** X12: a column whose label is date-like is written as the datetime
    column that [pd.to_datetime] makes of it once the duplicates are
    removed: what does not parse is missing there, and no later step of
    [minimal_clean_with_dates] fills or changes it. *)
Theorem X12_minimal_clean_dates_not_filled P input col :
  NoDup (column_names input) ->
  In col (columns (CleaningDeep.drop_duplicates input)) ->
  CleaningDeep.is_date_like (cname col) = true ->
  get (CleaningDeep.minimal_clean_with_dates P input) (cname col) =
  Some (mkColumn (cname col) (Cleaning.to_datetime P (cdata col))).
Proof.
  intros ND Hin Hdate.
  assert (ND1 : NoDup (column_names (CleaningDeep.drop_duplicates input))).
  { unfold CleaningDeep.drop_duplicates. now rewrite ShapeFacts.select_rows_names. }
  assert (TF : PyStr.mem (cname col) CleaningDeep.time_fields = false).
  { apply mem_false_iff. intros [H|[H|[H|[]]]]; rewrite <- H in Hdate; discriminate. }
  set (T1 := CleaningDeep.drop_duplicates input) in *.
  set (T2 := CleaningDeep.parse_date_columns P T1).
  set (T3 := CleaningDeep.fill_year_qtr_month_from_date P T2).
  destruct (WrittenFacts.to_datetime_is_datetime P (cdata col)) as [x Ex].
  assert (G2 : get T2 (cname col) = Some (mkColumn (cname col) (DateCol x))).
  { unfold T2, CleaningDeep.parse_date_columns.
    rewrite GetFacts.for_columns_get by now apply NoDup_filter.
    replace (PyStr.mem (cname col) (filter CleaningDeep.is_date_like (column_names T1)))
      with true.
    - rewrite (get_in T1 col ND1 Hin). simpl. now rewrite Ex.
    - symmetry. apply mem_iff, filter_In. split; [|assumption].
      unfold column_names. now apply in_map. }
  assert (G3 : get T3 (cname col) = Some (mkColumn (cname col) (DateCol x))).
  { unfold T3. now rewrite MinimalFacts.fill_year_qtr_month_get_other. }
  assert (ND3 : NoDup (column_names T3)).
  { unfold T3, T2. rewrite ShapeFacts.fill_year_qtr_month_names.
    now rewrite parse_date_columns_names. }
  unfold CleaningDeep.minimal_clean_with_dates. fold T1 T2 T3.
  set (T4 := for_columns (filter _ (numeric_names T3)) _ T3).
  assert (ND4 : NoDup (column_names T4)) by (unfold T4; now rewrite for_columns_names).
  assert (G4 : get T4 (cname col) = Some (mkColumn (cname col) (DateCol x))).
  { unfold T4. rewrite GetFacts.for_columns_get
      by (apply NoDup_filter; now apply nodup_numeric_names).
    rewrite G3. now match goal with |- (if ?b then _ else _) = _ => destruct b end. }
  rewrite GetFacts.for_columns_get by apply WrittenFacts.time_fields_NoDup.
  rewrite TF, GetFacts.for_columns_get by now apply nodup_object_names.
  rewrite G4, Ex. now match goal with |- (if ?b then _ else _) = _ => destruct b end.
Qed.

(** X11 at work on the column [quarter] of [dated_leases]. *)
Lemma X11_minimal_clean_text_complete_witness :
  exists col c,
    nth_error (columns (CleaningDeep.minimal_clean_with_dates Sample.pandas dated_leases)) 1
      = Some col /\
    cdata col = ObjCol c /\ ~ In None c.
Proof.
  eexists. eexists. split; [vm_compute; reflexivity|]. split; [reflexivity|].
  eapply (@X11_minimal_clean_text_complete Sample.pandas dated_leases).
  - apply unique_NoDup. reflexivity.
  - vm_compute. right. left. reflexivity.
  - reflexivity.
Defined.

(** X12 at work on the column [lease_date] of [dated_leases]. *)
Lemma X12_minimal_clean_dates_not_filled_witness :
  exists cells,
    get (CleaningDeep.minimal_clean_with_dates Sample.pandas dated_leases) "lease_date" =
      Some (mkColumn "lease_date" (DateCol cells)) /\
    nth 2 cells None = None.
Proof.
  eexists. split.
  - apply (@X12_minimal_clean_dates_not_filled Sample.pandas dated_leases
             (mkColumn "lease_date" (ObjCol [Some (VStr "2019-02-03");
                                             Some (VStr "2020-11-30");
                                             Some (VStr "n/a")]))).
    + apply unique_NoDup. reflexivity.
    + vm_compute. right. right. left. reflexivity.
    + reflexivity.
  - vm_compute. reflexivity.
Defined.

Module QuantileFacts.

Import F64 F64Facts.




Lemma insert_length x l : List.length (Num.insert x l) = S (List.length l).
Proof.
  induction l as [|y r IH]; simpl; [reflexivity|].
  destruct (Qle_bool x y); simpl; [reflexivity | now rewrite IH].
Qed.

Lemma sort_length l : List.length (Num.sort l) = List.length l.
Proof. induction l as [|x l IH]; simpl; [reflexivity|]. now rewrite insert_length, IH. Qed.























End QuantileFacts.



Module ModeFacts.

Import Obj DuplicateFacts.

Lemma value_eqb_sym a b : eqb a b = eqb b a.
Proof.
  destruct a as [x|x|x], b as [y|y|y]; simpl; try reflexivity.
  - destruct (Qeq_bool x y) eqn:E, (Qeq_bool y x) eqn:F; try reflexivity.
    + apply Qeq_bool_iff in E. symmetry in E. apply Qeq_bool_iff in E. congruence.
    + apply Qeq_bool_iff in F. symmetry in F. apply Qeq_bool_iff in F. congruence.
  - apply String.eqb_sym.
  - apply Z.eqb_sym.
Qed.

Lemma count_eqb a b l : eqb a b = true -> count a l = count b l.
Proof.
  intros E. unfold count. f_equal. apply filter_ext. intros x.
  destruct (eqb a x) eqn:A, (eqb b x) eqn:B; try reflexivity.
  - rewrite value_eqb_sym in E. now rewrite (value_eqb_trans _ _ _ E A) in B.
  - now rewrite (value_eqb_trans _ _ _ E B) in A.
Qed.

Lemma max_ge (A : Type) (f : A -> nat) (l : list A) w :
  In w l -> (f w <= fold_right Nat.max 0%nat (map f l))%nat.
Proof.
  induction l as [|x l IH]; simpl; [contradiction|].
  intros [->|H]; [lia|]. specialize (IH H). lia.
Qed.

Lemma max_attained (A : Type) (f : A -> nat) (l : list A) :
  l <> [] -> exists w, In w l /\ f w = fold_right Nat.max 0%nat (map f l).
Proof.
  induction l as [|x l IH]; [congruence|]. intros _. simpl.
  destruct l as [|y r].
  - exists x. split; [now left | simpl; lia].
  - destruct IH as [w [Hw E]]; [discriminate|].
    destruct (Nat.le_ge_cases (f x) (fold_right Nat.max 0%nat (map f (y :: r)))) as [L|L].
    + exists w. split; [now right | lia].
    + exists x. split; [now left | lia].
Qed.

Lemma distinct_incl l v : In v (distinct l) -> In v l.
Proof.
  revert v. induction l as [|x l IH]; simpl; [tauto|].
  intros v [->|H]; [now left|]. apply filter_In in H. right. now apply IH.
Qed.

Lemma distinct_represents l w :
  In w l -> exists w', In w' (distinct l) /\ eqb w' w = true.
Proof.
  induction l as [|x l IH]; simpl; [contradiction|].
  intros [->|H].
  - exists w. split; [now left | apply value_eqb_refl].
  - destruct (IH H) as [w' [Hw' E]].
    destruct (eqb x w') eqn:X.
    + exists x. split; [now left | now apply value_eqb_trans with w'].
    + exists w'. split; [|assumption]. right. apply filter_In. now rewrite X.
Qed.

Lemma modes_spec l v :
  In v (modes l) -> In v l /\ forall w, In w l -> (count w l <= count v l)%nat.
Proof.
  unfold modes. intros H. apply filter_In in H. destruct H as [H1 H2].
  apply Nat.eqb_eq in H2. split; [now apply distinct_incl|].
  intros w Hw. rewrite H2. now apply (max_ge (fun v => count v l)).
Qed.

Lemma modes_nonempty l : l <> [] -> modes l <> [].
Proof.
  intros NE. destruct (max_attained (fun v => count v l) NE) as [w [Hw E]].
  destruct (distinct_represents _ _ Hw) as [w' [Hw' Q]].
  intros M. assert (H : In w' (modes l)); [|now rewrite M in H].
  unfold modes. apply filter_In. split; [assumption|].
  apply Nat.eqb_eq. now rewrite (@count_eqb w' w l Q).
Qed.

Lemma least_step x y r :
  least (x :: y :: r) =
  match least (y :: r) with
  | Some m => match leb x m with
              | Some b => Some (if b then x else m)
              | None => None
              end
  | None => None
  end.
Proof. reflexivity. Qed.

Lemma least_In l : forall v, least l = Some v -> In v l.
Proof.
  induction l as [|x l IH]; intros v H; [discriminate|].
  destruct l as [|y r]; [simpl in H; injection H as <-; now left|].
  rewrite least_step in H.
  destruct (least (y :: r)) as [m|] eqn:E; [|discriminate].
  destruct (leb x m) as [b|]; [|discriminate].
  injection H as <-. destruct b; [now left | right; now apply IH].
Qed.

(** The first mode is a value of the list that no other value
    outnumbers; only the empty list has none. *)
Lemma mode_first_spec l v :
  mode_first l = Some v ->
  In v l /\ forall w, In w l -> (count w l <= count v l)%nat.
Proof.
  unfold mode_first. destruct (modes l) as [|m r] eqn:M; [discriminate|].
  intros H. apply modes_spec. rewrite M.
  destruct (least (m :: r)) as [x|] eqn:E; injection H as <-;
    [now apply least_In | now left].
Qed.

Lemma mode_first_none l : mode_first l = None -> l = [].
Proof.
  unfold mode_first. intros H. destruct l as [|x l]; [reflexivity|].
  destruct (modes (x :: l)) as [|m r] eqn:M.
  - exfalso. now apply (@modes_nonempty (x :: l)).
  - destruct (least (m :: r)); discriminate.
Qed.

Lemma nth_fill_missing (A : Type) (v : A) (c : list (option A)) i :
  (i < List.length c)%nat -> nth i c None = None ->
  nth i (map (fill v) c) None = Some v.
Proof.
  revert i. induction c as [|x c IH]; intros [|i] L H; simpl in *; try lia.
  - now subst x.
  - apply IH; [lia | assumption].
Qed.

End ModeFacts.

(** X14: where a text column of a group misses a cell, the group cleaner
    writes a value of that column that no other value of the column
    outnumbers, both taken once the sparse rows and columns are removed;
    it writes the empty string when the column has no value at all. *)
Theorem X14_group_cleaner_text_fill g out col c :
  NoDup (column_names g) ->
  Cleaning.dynamic_clean_group g = Some out ->
  In col (columns out) -> cdata col = ObjCol c ->
  exists c0,
    get (Cleaning.drop (Cleaning.drop_cols g)
           (select_rows (map (fun ri => Num.fge ri (Some (Cleaning.row_thresh g)))
                             (Cleaning.row_completeness g)) g)) (cname col) =
      Some (mkColumn (cname col) (ObjCol c0)) /\
    forall i, (i < List.length c0)%nat -> nth i c0 None = None ->
      exists v, nth i c None = Some v /\
        ((Num.dropna c0 = [] /\ v = VStr "") \/
         (In (Some v) c0 /\
          forall w, In (Some w) c0 ->
            (Obj.count w (Num.dropna c0) <= Obj.count v (Num.dropna c0))%nat)).
Proof.
  intros ND E Hin Hc. rewrite (GroupCleanerFacts.dynamic_clean_group_inv g E) in Hin.
  set (g' := Cleaning.drop _ _) in *.
  assert (ND' : NoDup (column_names g')).
  { unfold g'. rewrite drop_names, ShapeFacts.select_rows_names. now apply NoDup_filter. }
  rewrite for_columns_columns in Hin by assumption.
  apply in_map_iff in Hin. destruct Hin as [col0 [<- Hin0]].
  unfold update_where in *.
  replace (PyStr.mem (cname col0) (column_names g')) with true in *
    by (symmetry; apply mem_iff; now apply in_map).
  cbn [cname cdata] in *. unfold Cleaning.impute_column in Hc.
  destruct (cdata col0) as [c0|c0|c0] eqn:D; [discriminate| |].
  - exists c0. split.
    { rewrite (get_in g' col0 ND' Hin0). f_equal. destruct col0. simpl in *. now subst. }
    intros i L N.
    destruct (Obj.mode_first (Num.dropna c0)) as [v|] eqn:M; injection Hc as <-.
    + exists v. split; [now apply ModeFacts.nth_fill_missing|]. right.
      destruct (ModeFacts.mode_first_spec _ M) as [H1 H2]. split.
      * now apply In_dropna.
      * intros w Hw. apply H2. now apply In_dropna.
    + exists (VStr ""). split; [now apply ModeFacts.nth_fill_missing|]. left.
      split; [now apply ModeFacts.mode_first_none | reflexivity].
  - destruct (Obj.mode_first _) as [[q|s|t]|]; discriminate.
Qed.

(** X14 at work on the column [market] of [leases_group]. *)
Lemma X14_group_cleaner_text_fill_witness :
  exists c0,
    get (Cleaning.drop (Cleaning.drop_cols leases_group)
           (select_rows
              (map (fun ri => Num.fge ri (Some (Cleaning.row_thresh leases_group)))
                   (Cleaning.row_completeness leases_group)) leases_group)) "market" =
    Some (mkColumn "market" (ObjCol c0)).
Proof.
  edestruct (@X14_group_cleaner_text_fill leases_group) as [c0 [G _]].
  - apply unique_NoDup. reflexivity.
  - vm_compute. reflexivity.
  - left. reflexivity.
  - reflexivity.
  - exists c0. exact G.
Defined.
